(** * The xpra builtin SSH server (xpra/server/ssh.py)

    A shallow embedding of the server-side policy callbacks of
    [SSHServer], of [chan_send] and of [make_ssh_server_connection],
    with the properties the specification states about them.

    Python values are modelled as follows: [str] and [bytes] are both
    sequences of characters ([string]); where the source mixes the two
    types and Python 3 tells them apart, the dynamically typed value
    [pyobj] keeps the tag.  Effects (channel writes, closing, the
    completion event, subprocesses, clock readings) are recorded in a
    chronological trace carried by a state-and-exception monad; what the
    outside world answers (clock readings, how many bytes a channel
    accepts, what a subprocess prints) is given by oracles that may depend
    on the whole history. *)

From stdpp Require Import gmap strings list.
From Stdlib Require Import Ascii PrimFloat.
From Equations Require Import Equations.

(** ** Python strings *)

Module Py.

(** [s[n:]] for [0 <= n]. *)
Fixpoint slice_from (n : nat) (s : string) : string :=
  match n, s with
  | S k, String _ r => slice_from k r
  | _, _ => s
  end.

(** [s[:n]] for [0 <= n]. *)
Fixpoint slice_to (n : nat) (s : string) : string :=
  match n, s with
  | S k, String c r => String c (slice_to k r)
  | _, _ => ""
  end.

Definition startswith (s p : string) : bool := String.prefix p s.

Definition endswith (s p : string) : bool :=
  let n := String.length s in
  let m := String.length p in
  if decide (m <= n) then String.eqb (slice_from (n - m) s) p else false.

(** [s.find(sub)]: the lowest index of [sub] in [s], or -1. *)
Definition find (s sub : string) : Z :=
  match String.index 0 sub s with
  | Some i => Z.of_nat i
  | None => (-1)%Z
  end.

Definition char_in (c : ascii) (chars : string) : bool :=
  bool_decide (c ∈ String.list_ascii_of_string chars).

(** [s.lstrip(chars)], [s.rstrip(chars)], [s.strip(chars)]. *)
Fixpoint lstrip (chars s : string) : string :=
  match s with
  | String c r => if char_in c chars then lstrip chars r else s
  | "" => ""
  end.

Fixpoint rstrip (chars s : string) : string :=
  match s with
  | String c r =>
      match rstrip chars r with
      | "" => if char_in c chars then "" else String c ""
      | r' => String c r'
      end
  | "" => ""
  end.

Definition strip (chars s : string) : string := rstrip chars (lstrip chars s).

(** [s.split(sep)] for a non-empty separator: [skip] counts the
    characters of a separator just matched that are still to be passed
    over, [cur] is the field read so far. *)
Fixpoint split_go (sep : string) (skip : nat) (cur : string) (s : string)
  : list string :=
  match s with
  | "" => [cur]
  | String c r =>
      match skip with
      | S k => split_go sep k cur r
      | 0 =>
          if String.prefix sep s
          then cur :: split_go sep (String.length sep - 1) "" r
          else split_go sep 0 (cur +:+ String c "") r
      end
  end.

Definition split (s sep : string) : list string := split_go sep 0 "" s.

(** [s.split(sep, 1)]: at most one split, at the first occurrence. *)
Definition split1 (s sep : string) : list string :=
  match String.index 0 sep s with
  | Some i => [slice_to i s; slice_from (i + String.length sep) s]
  | None => [s]
  end.

End Py.

(** ** Exceptions and results *)

Inductive exn :=
| IndexError
| ValueError
| TypeError
| AttributeError
| AssertionError
| OSError
| SSHException
| EOFError
| Exception (msg : string).

Inductive outcome (A : Type) :=
| Ok (a : A)
| Raise (e : exn).
Arguments Ok {A} a.
Arguments Raise {A} e.

(** ** [shlex.split(s)]: POSIX mode, [whitespace_split] on, no comments.

    One pass of [shlex.read_token]'s state machine over the input.
    [InSpace] is the lexer state [' '], [InWord] is ['a'], [InQuote q] is
    the state named by the quote character and [InEscape] the one named by
    the backslash; [escapedstate] is [Some q] for a quote and [None] for
    ['a']; [token] and [quoted] are those of the token being read. *)

Module shlex.

Inductive state := InSpace | InWord | InQuote (q : ascii) | InEscape.

Definition whitespace : string :=
  String " " (String "009" (String "013" (String "010" ""))).
Definition quotes : string := String "'" (String "034" "").
Definition escape : string := String "\" "".
Definition escapedquotes : string := String "034" "".

Definition add (token : string) (c : ascii) : string := token +:+ String c "".

(** The end of [read_token]: an empty unquoted result is [None], which
    ends the iteration. *)
Definition emits (token : string) (quoted : bool) : bool :=
  negb (negb quoted && String.eqb token "").

Fixpoint read (s : string) (st : state) (escapedstate : option ascii)
    (token : string) (quoted : bool) (out : list string)
  : outcome (list string) :=
  match s with
  | "" =>
      match st with
      | InSpace | InWord =>
          Ok (if emits token quoted then out ++ [token] else out)
      | InQuote _ => Raise ValueError      (* No closing quotation *)
      | InEscape => Raise ValueError       (* No escaped character *)
      end
  | String c r =>
      match st with
      | InSpace =>
          if Py.char_in c whitespace then
            if negb (String.eqb token "") || quoted then
              if emits token quoted
              then read r InSpace None "" false (out ++ [token])
              else Ok out
            else read r InSpace escapedstate token quoted out
          else if Py.char_in c escape then
            read r InEscape None token quoted out
          else if Py.char_in c quotes then
            read r (InQuote c) escapedstate token quoted out
          else read r InWord escapedstate (String c "") quoted out
      | InQuote q =>
          if Ascii.eqb c q then read r InWord escapedstate token true out
          else if Py.char_in c escape && Py.char_in q escapedquotes then
            read r InEscape (Some q) token true out
          else read r (InQuote q) escapedstate (add token c) true out
      | InEscape =>
          let token :=
            match escapedstate with
            | Some q =>
                if negb (Py.char_in c escape) && negb (Ascii.eqb c q)
                then add token "\" else token
            | None => token
            end in
          read r (match escapedstate with Some q => InQuote q | None => InWord end)
               escapedstate (add token c) quoted out
      | InWord =>
          if Py.char_in c whitespace then
            if negb (String.eqb token "") || quoted then
              if emits token quoted
              then read r InSpace None "" false (out ++ [token])
              else Ok out
            else read r InSpace escapedstate token quoted out
          else if Py.char_in c quotes then
            read r (InQuote c) escapedstate token quoted out
          else if Py.char_in c escape then
            read r InEscape None token quoted out
          else read r InWord escapedstate (add token c) quoted out
      end
  end.

Definition split (s : string) : outcome (list string) :=
  read s InSpace None "" false [].

End shlex.

(** ** The state-and-exception monad

    [channel]s and processes are named by numbers.  The trace lists, in
    the order they happen, the effects a caller or a peer can observe. *)

Definition bytes := string.
Definition channel := nat.
Definition process := nat.

(** [channel.send] writes to the primary stream, [channel.send_stderr] to
    the error stream. *)
Inductive stream := Stdout | Stderr.

Inductive warning :=
| ProxyStartRequest (subcommand : string)
| DisplayMismatch (display display_name : string)
| UnsupportedSubcommand (arg : string)
| UnsupportedCommand (cmd : list string).

Inductive action :=
| Monotonic (t : float)
| ChanSend (c : channel) (s : stream) (data : bytes) (r : outcome nat)
| ChanSendExitStatus (c : channel) (status : Z)
| ChanClose (c : channel)
| Popen (cmd : list string)
| ProxyPopen (cmd : list string) (r : option process)
| ChildReaperAddProcess (proc : process) (name : string)
| StartThread (name : string)
| LogWarn (w : warning).

(** The mutable part of an [SSHServer] and of the channels it was handed,
    with the trace. *)
Record world := World {
  event : bool;                              (* self.event.is_set() *)
  proxy_channel : option channel;            (* self.proxy_channel *)
  proxy_process : list (channel * process);  (* channel.proxy_process *)
  trace : list action
}.

(** A computation on a state [S] that returns an [A] or raises, and leaves
    a state either way. *)
Definition ST (S A : Type) : Type := S → outcome A * S.

Definition ret {S A} (a : A) : ST S A := λ w, (Ok a, w).
Definition raise {S A} (e : exn) : ST S A := λ w, (Raise e, w).
Definition bind {S A B} (m : ST S A) (k : A → ST S B) : ST S B :=
  λ w, match m w with
       | (Ok a, w') => k a w'
       | (Raise e, w') => (Raise e, w')
       end.
Definition lift {S A} (r : outcome A) : ST S A := λ w, (r, w).

(** The computations of the server and of [chan_send]. *)
Definition M (A : Type) : Type := ST world A.

Notation "'let*' x ':=' m 'in' k" := (bind m (λ x, k))
  (at level 10, x name, m at level 100, k at level 200).
Notation "m ';;' k" := (bind m (λ _, k))
  (at level 100, k at level 200, right associativity).

Definition emit (a : action) : M unit :=
  λ w, (Ok tt, World (event w) (proxy_channel w) (proxy_process w) (trace w ++ [a])).

Definition set_event : M unit :=
  λ w, (Ok tt, World true (proxy_channel w) (proxy_process w) (trace w)).

Definition set_proxy_channel (pc : option channel) : M unit :=
  λ w, (Ok tt, World (event w) pc (proxy_process w) (trace w)).

Definition get_proxy_channel : M (option channel) := λ w, (Ok (proxy_channel w), w).

Definition set_proxy_process (c : channel) (p : process) : M unit :=
  λ w, (Ok tt, World (event w) (proxy_channel w) ((c, p) :: proxy_process w) (trace w)).

(** *** The operations of [_run_proxy]

    [_run_proxy] reads and writes the slot [self.proxy_channel], closes a
    channel and sets the completion signal.  Its body is written over
    these four operations: [on_server] runs them on the server object, and
    [recorded] does the same and keeps, next to the server object, the list
    of the operations in the order they are done. *)
Record server_ops (S : Type) := ServerOps {
  read_slot : ST S (option channel);         (* self.proxy_channel *)
  write_slot : option channel → ST S unit;   (* self.proxy_channel = ... *)
  close_channel : channel → ST S unit;       (* pc.close() *)
  event_set : ST S unit                      (* self.event.set() *)
}.
Arguments read_slot {S} _.
Arguments write_slot {S} _ _.
Arguments close_channel {S} _ _.
Arguments event_set {S} _.

Definition on_server : server_ops world :=
  ServerOps world get_proxy_channel set_proxy_channel (λ pc, emit (ChanClose pc))
    set_event.

Inductive step :=
| ReadSlot
| WriteSlot (pc : option channel)
| CloseChannel (pc : channel)
| EventSet.

Definition recording {A} (st : step) (m : M A) : ST (world * list step) A :=
  λ s, ((m s.1).1, ((m s.1).2, s.2 ++ [st])).

Definition recorded : server_ops (world * list step) :=
  ServerOps (world * list step)
    (recording ReadSlot get_proxy_channel)
    (λ pc, recording (WriteSlot pc) (set_proxy_channel pc))
    (λ pc, recording (CloseChannel pc) (emit (ChanClose pc)))
    (recording EventSet set_event).



(** ** [chan_send] *)

Section ChanSend.

(** What the outside answers, given everything that happened so far: the
    reading of the monotonic clock (a binary64 float, in seconds, as
    [time.monotonic()] returns it), and what a write of [data]
    to a stream of a channel returns. *)
Variable clock : list action → float.
Variable send_result : list action → channel → stream → bytes → outcome nat.

Definition monotonic : M float :=
  λ w, let t := clock (trace w) in
       (let* _ := emit (Monotonic t) in ret t) w.

(** [channel.send] and [channel.send_stderr]. *)
Definition channel_send (c : channel) (s : stream) (data : bytes) : M nat :=
  λ w, let r := send_result (trace w) c s data in
       (let* _ := emit (ChanSend c s data r) in lift r) w.

(** The [while] loop of [chan_send]; it returns what is left of [data]. *)
Equations chan_send_loop (send_fn : bytes → M nat) (start timeout : float)
    (data : bytes) (w : world) : outcome bytes * world
    by wf (String.length data) lt :=
  chan_send_loop send_fn start timeout "" w := (Ok "", w);
  chan_send_loop send_fn start timeout (String c d) w with monotonic w := {
    | (Raise e, w1) := (Raise e, w1)
    | (Ok now, w1) with (now - start <? timeout)%float := {
      | false := (Ok (String c d), w1)
      | true with send_fn (String c d) w1 := {
        | (Raise e, w2) := (Raise e, w2)
        | (Ok 0, w2) := (Ok (String c d), w2)       (* not sent: break *)
        | (Ok (S n), w2) :=
            chan_send_loop send_fn start timeout
              (Py.slice_from (S n) (String c d)) w2 } } }.
Next Obligation.
  intros. simpl. clear. apply Nat.lt_succ_r.
  revert d; induction n as [|n IH]; intros [|c d]; simpl; try lia.
  specialize (IH d); lia.
Qed.

Definition default_timeout : float := 5.

Definition chan_send (send_fn : bytes → M nat) (data : bytes) (timeout : float)
  : M unit :=
  if String.eqb data "" then ret tt else
  let* start := monotonic in
  let* data := chan_send_loop send_fn start timeout data in
  if negb (String.eqb data "")
  then raise (Exception "failed to send all the data")
  else ret tt.

End ChanSend.

(** *** What a run of [chan_send] looks like *)

Definition extend (w : world) (acts : list action) : world :=
  World (event w) (proxy_channel w) (proxy_process w) (trace w ++ acts).

(** The bytes the channel accepted over a run. *)
Fixpoint accepted (acts : list action) : nat :=
  match acts with
  | ChanSend _ _ _ (Ok n) :: acts => n + accepted acts
  | _ :: acts => accepted acts
  | [] => 0
  end.

(** [send_run c s start timeout data acts rest]: [acts] is a run of the
    loop on the buffer [data] and [rest] is what the loop leaves.  Every
    write is attempted right after a clock reading that lies within the
    window, on the buffer advanced by the counts accepted before; the run
    ends when the buffer is empty, when the window is exhausted, when a
    write accepts nothing, or when a write raises. *)
Inductive send_run (c : channel) (s : stream) (start timeout : float)
  : bytes → list action → outcome bytes → Prop :=
| run_drained :
    send_run c s start timeout "" [] (Ok "")
| run_window_exhausted data t :
    data ≠ "" → (t - start <? timeout)%float = false →
    send_run c s start timeout data [Monotonic t] (Ok data)
| run_zero_write data t :
    data ≠ "" → (t - start <? timeout)%float = true →
    send_run c s start timeout data
      [Monotonic t; ChanSend c s data (Ok 0)] (Ok data)
| run_write_raises data t e :
    data ≠ "" → (t - start <? timeout)%float = true →
    send_run c s start timeout data
      [Monotonic t; ChanSend c s data (Raise e)] (Raise e)
| run_partial data t n acts rest :
    data ≠ "" → (t - start <? timeout)%float = true → n ≠ 0 →
    send_run c s start timeout (Py.slice_from n data) acts rest →
    send_run c s start timeout data
      (Monotonic t :: ChanSend c s data (Ok n) :: acts) rest.

(** [answered clock send_result hist acts]: after the history [hist], the
    actions [acts] are clock readings and writes only, every reading is what
    the clock answers and every write returns what the channel answers,
    given all that happened before it. *)
Fixpoint answered (clock : list action → float)
    (send_result : list action → channel → stream → bytes → outcome nat)
    (hist acts : list action) : Prop :=
  match acts with
  | [] => True
  | a :: acts =>
      match a with
      | Monotonic t => t = clock hist
      | ChanSend c s data r => r = send_result hist c s data
      | _ => False
      end
      ∧ answered clock send_result (hist ++ [a]) acts
  end.

(** What [chan_send] answers when the loop leaves [rest]. *)
Definition chan_send_result (rest : outcome bytes) : outcome unit :=
  match rest with
  | Ok "" => Ok tt
  | Ok _ => Raise (Exception "failed to send all the data")
  | Raise e => Raise e
  end.

(** A clock that advances by one second per observed effect and a channel
    that takes at most two bytes per write. *)
Fixpoint seconds (n : nat) : float :=
  match n with
  | 0 => 0%float
  | S n => (seconds n + 1)%float
  end.

Definition ticking_clock (tr : list action) : float := seconds (length tr).
Definition two_bytes (tr : list action) (c : channel) (s : stream) (data : bytes)
  : outcome nat := Ok (Nat.min 2 (String.length data)).

(** A clock that reads 0.1 at first and 5.1 from then on (the nearest
    binary64 values, written exactly). *)
Definition late_clock (tr : list action) : float :=
  match tr with
  | [] => 0x1.999999999999ap-4
  | _ => 0x1.4666666666666p+2
  end.

Definition w0 : world := World false None [] [].

(** ** [SSHServer]: the exec request *)

(** The double quote, as a string of one character. *)
Definition DQ : string := String "034" "".

Definition index {A} (l : list A) (i : nat) : outcome A :=
  match l !! i with
  | Some x => Ok x
  | None => Raise IndexError
  end.

(** The truth value of a Python object that is [None], [False] or [True]. *)
Definition truthy (o : option bool) : bool :=
  match o with Some b => b | None => false end.

Section SSHServer.

Variable clock : list action → float.
Variable send_result : list action → channel → stream → bytes → outcome nat.

(** The host: [xpra.os_util.POSIX] and [WIN32], [xpra.util.decode_str],
    [xpra.os_util.osexpand], [xpra.scripts.config.parse_bool] and
    [xpra.platform.paths.get_xpra_command]. *)
Variable POSIX WIN32 : bool.
Variable decode_str : bytes → string.
Variable osexpand : string → string.
Variable parse_bool : string → option string → bool → option bool.
Variable get_xpra_command : list string.

(** [Popen(cmd, stdout=PIPE, stderr=PIPE)] followed by [communicate()]:
    the text of the exception raised, or the output, the error output and
    the return code. *)
Variable popen_communicate : list action → list string → string + bytes * bytes * Z.

(** [Popen(cmd, stdin=PIPE, ...)] in [proxy_start]: [None] for [OSError]. *)
Variable proxy_popen : list action → list string → option process.

(** The order in which the elements of [set(l)] are iterated: it depends
    on the hashes of the strings, which vary from one process to the
    next. *)
Variable set_order : list string → list string.

(** The immutable attributes of the server: [self.options] and the
    [display_name] attribute, which [__init__] does not set. *)
Variable options : gmap string string.
Variable display_name : option string.

Definition send_fn (c : channel) (s : stream) : bytes → M nat :=
  channel_send send_result c s.

Definition _run_proxy_on {S} (ops : server_ops S) (channel : channel) : ST S unit :=
  let* pc := read_slot ops in
  (match pc with
   | Some pc => write_slot ops None ;; close_channel ops pc
   | None => ret tt
   end) ;;
  write_slot ops (Some channel) ;;
  event_set ops.

Definition _run_proxy (channel : channel) : M unit := _run_proxy_on on_server channel.

(** The forwarding threads are started, not run: what they do once
    started is outside this model. *)
Definition proxy_start (channel : channel) (subcommand : string)
    (args : list string) : M unit :=
  let cmd := get_xpra_command ++ [subcommand] ++ args in
  λ w, match proxy_popen (trace w) cmd with
       | None => emit (ProxyPopen cmd None) w
       | Some proc =>
           (emit (ProxyPopen cmd (Some proc)) ;;
            emit (ChildReaperAddProcess proc ("proxy-start-" +:+ subcommand)) ;;
            emit (StartThread "stderr_reader") ;;
            emit (StartThread "stdout_reader") ;;
            emit (StartThread "stdin_reader") ;;
            set_proxy_process channel proc) w
       end.

(** The local function [fail] of [check_channel_exec_request]. *)
Definition fail (channel : channel) : M bool :=
  set_event ;;
  emit (ChanClose channel) ;;
  ret false.

(** The body of the first branch: the probe for the xpra executable. *)
Definition exec_probe (channel : channel) (cmd : list string) : M bool :=
  let xpra_cmd := List.last cmd "" in
  if negb POSIX then
    (if WIN32 then ret tt else raise AssertionError) ;;
    (if String.eqb (Py.strip "'" (Py.strip DQ xpra_cmd)) "xpra" then
       chan_send clock (send_fn channel Stdout) "xpra is xpra" default_timeout ;;
       emit (ChanSendExitStatus channel 0)
     else
       chan_send clock (send_fn channel Stderr)
         ("type: " +:+ xpra_cmd +:+ ": not found") default_timeout ;;
       emit (ChanSendExitStatus channel 1)) ;;
    ret true
  else
    let cmd := removelast cmd ++ [osexpand xpra_cmd] in
    emit (Popen cmd) ;;
    (λ w, match popen_communicate (trace w) cmd with
          | inl e =>
              (chan_send clock (send_fn channel Stderr)
                 ("failed to execute command: " +:+ e) default_timeout ;;
               emit (ChanSendExitStatus channel 1)) w
          | inr (out, err, returncode) =>
              (chan_send clock (send_fn channel Stdout) out default_timeout ;;
               chan_send clock (send_fn channel Stderr) err default_timeout ;;
               emit (ChanSendExitStatus channel returncode)) w
          end) ;;
    ret true.

(** The body of the second branch: an xpra subcommand. *)
Definition exec_xpra (channel : channel) (cmd : list string) : M bool :=
  let* cmd1 := lift (index cmd 1) in
  let subcommand := Py.rstrip ";" (Py.strip (DQ +:+ "'") cmd1) in
  if bool_decide (subcommand ∈ ["_proxy_start"; "_proxy_start_desktop"; "_proxy_shadow_start"])
  then
    let proxy_start_ := parse_bool "proxy-start" (options !! "proxy-start") false in
    if negb (truthy proxy_start_) then
      emit (LogWarn (ProxyStartRequest subcommand)) ;;
      fail channel
    else
      proxy_start channel subcommand (drop 2 cmd) ;;
      _run_proxy channel ;;
      ret true
  else if String.eqb subcommand "_proxy" then
    if bool_decide (length cmd = 3) then
      let* display := lift (index cmd 2) in
      let display_name := default "" display_name in
      if negb (String.eqb display_name display) then
        emit (LogWarn (DisplayMismatch display display_name)) ;;
        fail channel
      else
        _run_proxy channel ;;
        ret true
    else
      _run_proxy channel ;;
      ret true
  else
    emit (LogWarn (UnsupportedSubcommand cmd1)) ;;
    fail channel.

(** The [for] loop of the third branch: the subcommands found in the
    fragments of the long command of older clients. *)
Fixpoint legacy_subcommands (fragments : list string) (subcommands : list string)
  : outcome (list string) :=
  match fragments with
  | [] => Ok subcommands
  | s :: fragments =>
      if (Py.startswith s ("type " +:+ DQ +:+ "xpra" +:+ DQ)
          || Py.startswith s ("which " +:+ DQ +:+ "xpra" +:+ DQ)
          || Py.startswith s "[ -x")
         && (0 <? Py.find s "then ")%Z
      then
        match index (Py.split1 s "then ") 1 with
        | Raise e => Raise e
        | Ok then_str =>
            match
              (if (0 <? Py.find then_str ";")%Z
               then index (Py.split then_str ";") 0
               else Ok then_str)
            with
            | Raise e => Raise e
            | Ok then_str =>
                match shlex.split then_str with
                | Raise e => Raise e
                | Ok parts =>
                    if bool_decide (2 <= length parts) then
                      match index parts 1 with
                      | Raise e => Raise e
                      | Ok subcommand =>
                          legacy_subcommands fragments (subcommands ++ [subcommand])
                      end
                    else legacy_subcommands fragments subcommands
                end
            end
        end
      else legacy_subcommands fragments subcommands
  end.

(** The long command among the tokens: the only token, or the argument
    of [sh -c]. *)
Definition parse_cmd_of (cmd : list string) : outcome string :=
  if bool_decide (length cmd = 1) then index cmd 0
  else if bool_decide (length cmd = 3) && bool_decide (take 2 cmd = ["sh"; "-c"])
  then index cmd 2
  else Ok "".

(** The body of the last branch: the long command of plain ssh clients. *)
Definition exec_legacy (channel : channel) (cmd : list string) : M bool :=
  let* parse_cmd := lift (parse_cmd_of cmd) in
  let* subcommands := lift (legacy_subcommands (Py.split parse_cmd "if ") []) in
  let* proxy :=
    match subcommands with
    | [] => ret false
    | _ =>
        let* first := lift (index (set_order subcommands) 0) in
        ret (String.eqb first "_proxy")
    end in
  if proxy then
    _run_proxy channel ;;
    ret true
  else
    emit (LogWarn (UnsupportedCommand cmd)) ;;
    fail channel.

Definition check_channel_exec_request (channel : channel) (command : bytes)
  : M bool :=
  let* cmd := lift (shlex.split (decode_str command)) in
  let* cmd0 := lift (index cmd 0) in
  if bool_decide (cmd0 ∈ ["type"; "which"; "command"])
     && bool_decide (length cmd ∈ [2; 3])
  then exec_probe channel cmd
  else if Py.endswith cmd0 "xpra" && bool_decide (2 <= length cmd)
  then exec_xpra channel cmd
  else exec_legacy channel cmd.

End SSHServer.

(** A sequence of direct handoffs on one connection. *)
Fixpoint handoffs_on {S} (ops : server_ops S) (channels : list channel) : ST S unit :=
  match channels with
  | [] => ret tt
  | c :: channels => _run_proxy_on ops c ;; handoffs_on ops channels
  end.

Definition handoffs (channels : list channel) : M unit := handoffs_on on_server channels.

(** The operations of one handoff on a server that holds [pc], and those
    of a sequence of handoffs. *)
Definition handoff_steps (pc : option channel) (channel : channel) : list step :=
  [ReadSlot]
  ++ match pc with
     | Some pc => [WriteSlot None; CloseChannel pc]
     | None => []
     end
  ++ [WriteSlot (Some channel); EventSet].

Fixpoint handoffs_steps (pc : option channel) (channels : list channel) : list step :=
  match channels with
  | [] => []
  | c :: channels => handoff_steps pc c ++ handoffs_steps (Some c) channels
  end.

(** The channels a sequence of handoffs displaces: all but the last of the
    one held at the start followed by those handed over. *)
Definition displaced (pc : option channel) (channels : list channel) : list channel :=
  removelast (option_list pc ++ channels).

(** *** A host to run the examples on

    A clock that advances by one second per observed effect, channels that
    take everything that is written, a lookup command that finds xpra, a
    [parse_bool] that knows the usual spellings, and sets that are iterated
    in the order of insertion or in the reverse order. *)

Definition accept_all (tr : list action) (c : channel) (s : stream) (data : bytes)
  : outcome nat := Ok (String.length data).

Definition simple_parse_bool (k : string) (v : option string) (auto : bool)
  : option bool :=
  match v with
  | None => Some auto
  | Some v =>
      if bool_decide (v ∈ ["yes"; "true"; "on"; "1"]) then Some true
      else if bool_decide (v ∈ ["no"; "false"; "off"; "0"]) then Some false
      else None
  end.

Definition found_xpra (tr : list action) (cmd : list string)
  : string + bytes * bytes * Z := inr ("/usr/bin/xpra", "", 0%Z).

Definition insertion_order (l : list string) : list string := remove_dups l.
Definition reverse_order (l : list string) : list string := reverse (remove_dups l).

Definition no_options : gmap string string := ∅.

(** The exec request on a POSIX host whose display is [:10]. *)
Definition exec_on_posix (order : list string → list string)
    (options : gmap string string) (channel : channel) (command : bytes) : M bool :=
  check_channel_exec_request ticking_clock accept_all true false id id
    simple_parse_bool ["xpra"] found_xpra (λ _ _, Some 1) order options
    (Some ":10") channel command.

(** What refusing a command by the last branch leaves. *)
Definition refused (channel : channel) (cmd : list string) (w : world) : world :=
  World true (proxy_channel w) (proxy_process w)
    (trace w ++ [LogWarn (UnsupportedCommand cmd); ChanClose channel]).

(** The effects of the last branch of the exec request: warnings and
    closed channels, nothing written to a channel and nothing executed. *)
Definition legacy_action (a : action) : Prop :=
  match a with
  | LogWarn _ | ChanClose _ => True
  | _ => False
  end.

(** What the direct handoff leaves: the channel is the proxy channel, the
    signal is set and a channel held before is closed. *)
Definition handed_over (channel : channel) (w : world) : world :=
  World true (Some channel) (proxy_process w)
    (trace w ++ (ChanClose <$> option_list (proxy_channel w))).

(** ** [SSHServer]: public-key authentication *)

(** The constants of [paramiko.common] the callbacks return. *)
Module paramiko.
Definition AUTH_SUCCESSFUL : Z := 0.
Definition AUTH_FAILED : Z := 2.
Definition OPEN_SUCCEEDED : Z := 0.
End paramiko.

(** A Python object that is a [str] or a [bytes]: the methods below are
    those of Python 3, which refuses to mix the two. *)
Inductive pyobj :=
| PStr (s : string)
| PBytes (b : bytes).

Module PyObj.

(** [self.startswith(prefix)] *)
Definition startswith (self prefix : pyobj) : outcome bool :=
  match self, prefix with
  | PStr s, PStr p | PBytes s, PBytes p => Ok (Py.startswith s p)
  | _, _ => Raise TypeError
  end.

(** [self.strip(chars)] *)
Definition strip (self chars : pyobj) : outcome pyobj :=
  match self, chars with
  | PStr s, PStr c => Ok (PStr (Py.strip c s))
  | PBytes s, PBytes c => Ok (PBytes (Py.strip c s))
  | _, _ => Raise TypeError
  end.

(** The characters [strip()] and [split()] take for whitespace: those of
    ASCII for [bytes], and for [str] also the separators 28 to 31, the next
    line character and the no-break space. *)
Definition bytes_whitespace : string :=
  String " " (String "009" (String "010" (String "011" (String "012" (String "013" ""))))).
Definition str_whitespace : string :=
  bytes_whitespace +:+
  String "028" (String "029" (String "030" (String "031" (String "133" (String "160" ""))))).

(** [self.strip()] *)
Definition strip_ws (self : pyobj) : pyobj :=
  match self with
  | PStr s => PStr (Py.strip str_whitespace s)
  | PBytes s => PBytes (Py.strip bytes_whitespace s)
  end.

(** [s.split()]: the runs of characters that are not whitespace. *)
Fixpoint split_ws_go (ws : string) (cur : string) (s : string) : list string :=
  match s with
  | "" => if String.eqb cur "" then [] else [cur]
  | String c r =>
      if Py.char_in c ws
      then (if String.eqb cur "" then [] else [cur]) ++ split_ws_go ws "" r
      else split_ws_go ws (cur +:+ String c "") r
  end.

(** [self.split()] *)
Definition split_ws (self : pyobj) : list pyobj :=
  match self with
  | PStr s => PStr <$> split_ws_go str_whitespace "" s
  | PBytes s => PBytes <$> split_ws_go bytes_whitespace "" s
  end.

(** [self.encode('ascii')]: [bytes] has no such method, and a [str] with a
    character above 127 raises [UnicodeEncodeError], a [ValueError]. *)
Definition encode_ascii (self : pyobj) : outcome pyobj :=
  match self with
  | PStr s =>
      if forallb (λ c, Nat.ltb (nat_of_ascii c) 128) (String.list_ascii_of_string s)
      then Ok (PBytes s) else Raise ValueError
  | PBytes _ => Raise AttributeError
  end.

(** [a == b]: a [str] is never equal to a [bytes]. *)
Definition eqb (a b : pyobj) : bool :=
  match a, b with
  | PStr s, PStr t | PBytes s, PBytes t => String.eqb s t
  | _, _ => false
  end.

End PyObj.

(** The lines of a file opened in binary mode: each ends with its line
    feed, but for the last one when the file does not end with one. *)
Fixpoint readlines_go (cur : string) (s : string) : list string :=
  match s with
  | "" => if String.eqb cur "" then [] else [cur]
  | String c r =>
      if Ascii.eqb c "010" then (cur +:+ String c "") :: readlines_go "" r
      else readlines_go (cur +:+ String c "") r
  end.

(** [open(filename, "rb")], iterated: the lines are [bytes]. *)
Definition open_rb (content : bytes) : list pyobj := PBytes <$> readlines_go "" content.

(** [binascii.hexlify] *)
Definition hex_digit (n : nat) : ascii :=
  nth n (String.list_ascii_of_string "0123456789abcdef") "0"%char.

Fixpoint hexlify (data : bytes) : bytes :=
  match data with
  | "" => ""
  | String c r =>
      String (hex_digit (nat_of_ascii c / 16))
        (String (hex_digit (nat_of_ascii c mod 16)) (hexlify r))
  end.

Inductive auth_warning :=
| UsernameMismatch (sysusername username : string)
| UnsupportedHash (hash_algo : string).

#[global] Instance auth_warning_eq_dec : EqDecision auth_warning.
Proof. solve_decision. Defined.

(** What the authentication callbacks change: the keys [first_time] has
    seen, which live as long as the process, and the warnings logged. *)
Record auth_state := AuthState {
  first_time_set : gset string;
  warnings : list auth_warning
}.

(** Modelled from the spec: [xpra.util.first_time], which is not among the
    sources; a warning guarded by it is a once-per-algorithm warning, not
    one per attempt: the first call with a key answers [True] and records
    the key, every later call with that key answers [False]. *)
Definition first_time (key : string) (st : auth_state) : bool * auth_state :=
  if bool_decide (key ∈ first_time_set st) then (false, st)
  else (true, AuthState ({[key]} ∪ first_time_set st) (warnings st)).

Definition log_warn (w : auth_warning) (st : auth_state) : auth_state :=
  AuthState (first_time_set st) (warnings st ++ [w]).

Section PublicKey.

(** The policy and the host: [self.pubkey_auth], [POSIX], [getuid()],
    [getpass.getuser()], the content of the authorized keys file when it
    exists and is a regular file, and the list of hash names. *)
Variable pubkey_auth : bool.
Variable POSIX : bool.
Variable getuid : Z.
Variable getuser : string.
Variable authorized_keys : option bytes.
Variable AUTHORIZED_KEYS_HASHES : list string.

(** [getattr(hashlib, name)]: [None] when the module has no such
    attribute; otherwise what calling it on the key gives, the hexadecimal
    digest of the hash or the exception raised. *)
Variable hashlib : string → option (bytes → outcome string).

(** [base64.b64decode] *)
Variable b64decode : bytes → outcome bytes.

(** The loop over the hash names, for one key: [Some] is the value the
    function returns, [None] means that the loop went through. *)
Fixpoint hash_loop (hashes : list string) (key : bytes) (hex_fingerprint : pyobj)
    (st : auth_state) : outcome (option Z) * auth_state :=
  match hashes with
  | [] => (Ok None, st)
  | hash_algo :: hashes =>
      match hashlib hash_algo with
      | None => (Raise AttributeError, st)
      | Some hash_class =>
          match hash_class key with
          | Raise ValueError =>
              (* hash_instance is None *)
              let '(first, st) := first_time ("hash-" +:+ hash_algo +:+ "-missing") st in
              let st := if first then log_warn (UnsupportedHash hash_algo) st else st in
              hash_loop hashes key hex_fingerprint st
          | Raise e => (Raise e, st)
          | Ok fp_plain =>
              if PyObj.eqb (PStr fp_plain) hex_fingerprint
              then (Ok (Some paramiko.OPEN_SUCCEEDED), st)
              else hash_loop hashes key hex_fingerprint st
          end
      end
  end.

(** [base64.b64decode(line.strip().split()[1].encode('ascii'))] *)
Definition decode_key (line : pyobj) : outcome bytes :=
  match index (PyObj.split_ws (PyObj.strip_ws line)) 1 with
  | Raise e => Raise e
  | Ok field =>
      match PyObj.encode_ascii field with
      | Raise e => Raise e
      | Ok (PBytes b) | Ok (PStr b) => b64decode b
      end
  end.

(** The body of the loop over the lines. *)
Definition check_line (line : pyobj) (hex_fingerprint : pyobj) (st : auth_state)
  : outcome (option Z) * auth_state :=
  match PyObj.startswith line (PStr "#") with
  | Raise e => (Raise e, st)
  | Ok true => (Ok None, st)
  | Ok false =>
      match PyObj.strip line (PStr (String "010" (String "013" ""))) with
      | Raise e => (Raise e, st)
      | Ok line =>
          match decode_key line with
          | Raise _ => (Ok None, st)          (* except Exception: continue *)
          | Ok key => hash_loop AUTHORIZED_KEYS_HASHES key hex_fingerprint st
          end
      end
  end.

Fixpoint check_lines (lines : list pyobj) (hex_fingerprint : pyobj) (st : auth_state)
  : outcome Z * auth_state :=
  match lines with
  | [] => (Ok paramiko.AUTH_FAILED, st)
  | line :: lines =>
      match check_line line hex_fingerprint st with
      | (Raise e, st) => (Raise e, st)
      | (Ok (Some v), st) => (Ok v, st)
      | (Ok None, st) => check_lines lines hex_fingerprint st
      end
  end.

(** [fingerprint] is [key.get_fingerprint()]. *)
Definition check_auth_publickey (username : string) (fingerprint : bytes)
    (st : auth_state) : outcome Z * auth_state :=
  if negb pubkey_auth then (Ok paramiko.AUTH_FAILED, st)
  else if (negb POSIX || negb (getuid =? 0)%Z) && negb (String.eqb getuser username)
  then (Ok paramiko.AUTH_FAILED, log_warn (UsernameMismatch getuser username) st)
  else
    match authorized_keys with
    | None => (Ok paramiko.AUTH_FAILED, st)
    | Some content =>
        let hex_fingerprint := PBytes (hexlify fingerprint) in
        check_lines (open_rb content) hex_fingerprint st
    end.


End PublicKey.





(** A host in FIPS mode: [hashlib.md5] raises [ValueError], [sha256] is
    there (a stand-in that gives the key in hexadecimal), and the module
    has no other attribute. *)
Definition fips_hashlib (name : string) : option (bytes → outcome string) :=
  if String.eqb name "md5" then Some (λ _, Raise ValueError)
  else if String.eqb name "sha256" then Some (λ key, Ok (hexlify key))
  else None.

Definition no_warnings : auth_state := AuthState ∅ [].

(** What the specification asks of public-key authentication, in its own
    words: the policy allows public keys, the system user name matches
    where it is checked, the authorized keys file exists, and some line
    that is no comment holds, as its second field, the base64 of a key
    that one of the configured hashes sends to the fingerprint presented,
    in hexadecimal. *)
Definition spec_authorized (pubkey_auth POSIX : bool) (getuid : Z) (getuser : string)
    (authorized_keys : option bytes) (hashes : list string)
    (hashlib : string → option (bytes → outcome string))
    (b64decode : bytes → outcome bytes)
    (username : string) (fingerprint : bytes) : Prop :=
  pubkey_auth = true
  ∧ (negb POSIX || negb (getuid =? 0)%Z = true → getuser = username)
  ∧ ∃ content line field key hash_algo hash_class,
      authorized_keys = Some content
      ∧ line ∈ readlines_go "" content
      ∧ Py.startswith line "#" = false
      ∧ PyObj.split_ws_go PyObj.bytes_whitespace "" line !! 1 = Some field
      ∧ b64decode field = Ok key
      ∧ hash_algo ∈ hashes
      ∧ hashlib hash_algo = Some hash_class
      ∧ hash_class key = Ok (hexlify fingerprint).

(** A stand-in for [base64.b64decode] that knows one key. *)
Definition one_key_b64decode (b : bytes) : outcome bytes :=
  if String.eqb b "a2V5" then Ok "key" else Raise ValueError.

Definition alice_keys : bytes := "ssh-rsa a2V5 alice@host" +:+ String "010" "".

(** ** [make_ssh_server_connection] *)

Module Bootstrap.

(** A host key stands for its key material: two keys are the same entry of
    [host_keys] when they are equal. *)
Definition host_key := nat.

Inductive log_message :=
| UnknownHostKeyFormat (f : string)
| CannotAddHostKey (keytype ff : string)
| FailedToLoadHostKey (path : string)
| NoReadableHostKeys (dirs : list string)
| ErrorHandlingConnection
| ChannelSetupFailed
| ErrorOpeningChannel
| TimeoutWaiting.

Inductive action :=
| TransportNew (gss_kex : bool)
| SetGssHost (gss_host : string)
| AddServerKey (k : host_key)
| StartServer
| Accept
| EventWait
| ConnSetActive (active : bool)
| TransportClose
| ConnClose
| Log (m : log_message).

(** The local variables [t] (whether it is set) and [host_keys], and what
    was done to the transport and to the connection. *)
Record state := State {
  t : bool;
  host_keys : list (host_key * string);
  trace : list action
}.

(** The attributes of [conn] that are read, and the object returned:
    [SSHSocketConnection(proxy_channel, sock, conn.local, conn.endpoint,
    conn.target, socket_options=socket_options)]. *)
Record connection := Connection {
  _socket : nat;
  local : string;
  endpoint : string;
  target : string
}.

Record SSHSocketConnection := SSHSocketConnection_ {
  ssh_channel : channel;
  ssh_socket : nat;
  ssh_local : string;
  ssh_endpoint : string;
  ssh_target : string;
  ssh_socket_options : gmap string string
}.

Definition emit (a : action) : ST state unit :=
  λ s, (Ok tt, State (t s) (host_keys s) (trace s ++ [a])).

Definition extend (s : state) (acts : list action) : state :=
  State (t s) (host_keys s) (trace s ++ acts).

(** What [close()] does in a state. *)
Definition closes (s : state) : list action :=
  (if t s then [TransportClose] else []) ++ [ConnClose].

Definition PREFIX : string := "ssh_host_".
Definition SUFFIX : string := "_key".

(** The upper case of a string of ASCII characters: what [s.upper()] gives
    for the file names of the example host. *)
Definition upper_char (c : ascii) : ascii :=
  let n := nat_of_ascii c in
  if (97 <=? n)%nat && (n <=? 122)%nat then ascii_of_nat (n - 32) else c.

Fixpoint upper_ascii (s : string) : string :=
  match s with
  | "" => ""
  | String c r => String (upper_char c) (upper_ascii r)
  end.

Section MakeConnection.

(** The options of the socket, the truth of what [parse_bool] makes of
    the option [ssh-gss-key-exchange], and the host: the name
    [socket.getfqdn] gives, [os.path.split] and [os.path.join],
    [get_ssh_conf_dirs()], [osexpand], whether a path exists and is a
    directory, and [os.listdir]. *)
Variable socket_options : gmap string string.
Variable DoGSSAPIKeyExchange : bool.
Variable getfqdn : string.
Variable os_path_split : string → string * string.
Variable os_path_join : string → string → string.
Variable get_ssh_conf_dirs : list string.
Variable osexpand : string → string.
Variable is_dir : string → bool.
Variable listdir : string → list string.

(** [str.upper]: the upper case of a string, which follows Unicode (a
    letter outside ASCII may change too, and the length with it). *)
Variable upper : string → string.

(** paramiko: what [Transport(sock, gss_kex=...)] raises if it does, the
    key classes by name ([getattr(paramiko, name, None)]), what a key class
    gives for a file (the key, or the exception raised), what
    [t.start_server] raises if it does, and what [t.accept] returns. *)
Variable transport_new : outcome unit.
Variable key_class : string → option string.
Variable load_key : string → string → outcome host_key.
Variable start_server : outcome unit.
Variable accept : outcome (option channel).

(** The server object as the callbacks of the transport left it when the
    wait for the completion signal ends, and what the wait returns. *)
Variable event_wait : bool.
Variable ssh_server : world.

(** [getattr(channel, "proxy_process", None)] *)
Definition proxy_process_of (c : channel) (w : world) : option process :=
  (λ found, found.2.2) <$> list_find (λ cp, cp.1 = c) (proxy_process w).

Definition wrap (proxy_channel : channel) (conn : connection) : SSHSocketConnection :=
  SSHSocketConnection_ proxy_channel (_socket conn) (local conn) (endpoint conn)
    (target conn) socket_options.

(** The local function [close]: exceptions of the two [close()] calls are
    caught and logged. *)
Definition close : ST state unit :=
  λ s, ((if t s then emit TransportClose else ret tt) ;; emit ConnClose) s.

(** The local function [add_host_key]. *)
Definition add_host_key (fd f : string) : ST state bool :=
  let ff := os_path_join fd f in
  let keytype :=
    Py.slice_to (String.length f - String.length SUFFIX - String.length PREFIX)
      (Py.slice_from (String.length PREFIX) f) in
  if String.eqb keytype "" then
    emit (Log (UnknownHostKeyFormat f)) ;; ret false
  else
    let keyclass :=
      match key_class (upper keytype +:+ "Key") with
      | Some k => Some k
      | None => key_class (upper (Py.slice_to 1 keytype) +:+ Py.slice_from 1 keytype +:+ "Key")
      end in
    match keyclass with
    | None => ret false
    | Some keyclass =>
        match load_key keyclass ff with
        | Ok host_key =>
            λ s, if bool_decide (host_key ∈ (host_keys s).*1) then (Ok false, s)
                 else (Ok true, State (t s) (host_keys s ++ [(host_key, ff)])
                                  (trace s ++ [AddServerKey host_key]))
        | Raise OSError => ret false
        | Raise SSHException => emit (Log (CannotAddHostKey keytype ff)) ;; ret false
        | Raise e => raise e
        end
    end.

Definition is_host_key_file (f : string) : bool :=
  Py.startswith f PREFIX && Py.endswith f SUFFIX.

(** The loops over the directories and over the files of a directory. *)
Fixpoint add_host_keys (fd : string) (files : list string) : ST state unit :=
  match files with
  | [] => ret tt
  | f :: files =>
      (if is_host_key_file f then add_host_key fd f ;; ret tt else ret tt) ;;
      add_host_keys fd files
  end.

Fixpoint scan_dirs (dirs : list string) : ST state unit :=
  match dirs with
  | [] => ret tt
  | d :: dirs =>
      let fd := osexpand d in
      (if negb (is_dir fd) then ret tt else add_host_keys fd (listdir fd)) ;;
      scan_dirs dirs
  end.

(** What ends the function early: [Some r] stands for [return r]. *)
Definition returns (A : Type) : Type := option (option A).

(** The keys are looked for in the directories when no key is named. *)
Definition load_host_keys : ST state bool :=
  let host_key := default "" (socket_options !! "ssh-host-key") in
  if negb (String.eqb host_key "") then
    let '(d, f) := os_path_split host_key in
    (if is_host_key_file f then add_host_key d f ;; ret tt else ret tt) ;;
    λ s, if bool_decide (host_keys s = [])
         then (emit (Log (FailedToLoadHostKey host_key)) ;; close ;; ret false) s
         else (Ok true, s)
  else
    scan_dirs get_ssh_conf_dirs ;;
    λ s, if bool_decide (host_keys s = [])
         then (emit (Log (NoReadableHostKeys get_ssh_conf_dirs)) ;; close ;; ret false) s
         else (Ok true, s).

(** The body of the first [try]: [None] when it runs to its end. *)
Definition start_transport : ST state (returns SSHSocketConnection) :=
  emit (TransportNew DoGSSAPIKeyExchange) ;;
  lift transport_new ;;
  (λ s, (Ok tt, State true (host_keys s) (trace s))) ;;
  emit (SetGssHost (default getfqdn (socket_options !! "ssh-gss-host"))) ;;
  let* loaded := load_host_keys in
  if loaded then
    emit StartServer ;;
    lift start_server ;;
    ret None
  else ret (Some None).

(** The second [try]: the channel of the client. *)
Definition accept_channel : ST state (returns SSHSocketConnection) :=
  emit Accept ;;
  match accept with
  | Ok (Some chan) => ret None
  | Ok None =>
      emit (Log ChannelSetupFailed) ;;
      emit (ConnSetActive false) ;;
      close ;;
      ret (Some None)
  | Raise SSHException =>
      emit (Log ErrorOpeningChannel) ;;
      close ;;
      ret (Some None)
  | Raise e => raise e
  end.

(** The end of the function, once the client has a channel: the wait for
    the completion signal and what is made of the proxy channel. *)
Definition await_handoff (conn : connection) : ST state (option SSHSocketConnection) :=
  emit EventWait ;;
  let timedout := negb event_wait in
  match event ssh_server, proxy_channel ssh_server with
  | true, Some proxy_channel =>
      match proxy_process_of proxy_channel ssh_server with
      | Some _ => ret None          (* handled using a subprocess *)
      | None => ret (Some (wrap proxy_channel conn))
      end
  | _, _ =>
      (if timedout then emit (Log TimeoutWaiting) else ret tt) ;;
      close ;;
      ret None
  end.

Definition make_ssh_server_connection (conn : connection)
  : ST state (option SSHSocketConnection) :=
  λ s,
    match start_transport s with
    | (Raise SSHException, s) | (Raise EOFError, s) =>
        (emit (Log ErrorHandlingConnection) ;; close ;; ret None) s
    | (Raise e, s) => (Raise e, s)
    | (Ok (Some r), s) => (Ok r, s)
    | (Ok None, s) =>
        (let* r := accept_channel in
         match r with
         | Some r => ret r
         | None => await_handoff conn
         end) s
    end.

End MakeConnection.

(** The state the function starts in: [t = None], [host_keys = {}]. *)
Definition start : state := State false [] [].

End Bootstrap.

(** A computation that leaves the transport variable [t] as it is. *)
Definition keeps_t {A} (m : ST Bootstrap.state A) : Prop :=
  ∀ s r s', m s = (r, s') → Bootstrap.t s' = Bootstrap.t s.

(** *** A host to start the server on

    One directory of host keys, with an RSA key, a file of a type that
    paramiko does not have and a file that is no key; the client gets
    channel 7. *)

Definition etc_ssh (d : string) : list string :=
  if String.eqb d "/etc/ssh" then ["moduli"; "ssh_host_rsa_key"; "ssh_host_bogus_key"]
  else [].

Definition unix_join (d f : string) : string := d +:+ "/" +:+ f.

Definition paramiko_classes (name : string) : option string :=
  if bool_decide (name ∈ ["RSAKey"; "DSSKey"; "ECDSAKey"; "Ed25519Key"])
  then Some name else None.

Definition client : Bootstrap.connection :=
  Bootstrap.Connection 3 "192.168.0.1:22" "192.168.0.1:22" "192.168.0.7:50000".

(** The function on that host, for a server object left as [ssh_server]. *)
Definition serve (event_wait : bool) (ssh_server : world)
  : outcome (option Bootstrap.SSHSocketConnection) * Bootstrap.state :=
  Bootstrap.make_ssh_server_connection ∅ false "gateway" (λ p, ("", p)) unix_join
    ["/etc/ssh"] id (λ d, String.eqb d "/etc/ssh") etc_ssh Bootstrap.upper_ascii
    (Ok tt) paramiko_classes (λ _ _, Ok 1) (Ok tt) (Ok (Some 7)) event_wait
    ssh_server client Bootstrap.start.

(** What is done before the wait for the completion signal. *)
Definition served : Bootstrap.state :=
  Bootstrap.State true [(1, "/etc/ssh/ssh_host_rsa_key")]
    [Bootstrap.TransportNew false; Bootstrap.SetGssHost "gateway";
     Bootstrap.AddServerKey 1; Bootstrap.StartServer; Bootstrap.Accept;
     Bootstrap.EventWait].

(** * The rest of the code

    ** [chan_send]: what is written *)

(** The writes attempted over a run. *)
Fixpoint writes (acts : list action) : nat :=
  match acts with
  | ChanSend _ _ _ _ :: acts => S (writes acts)
  | _ :: acts => writes acts
  | [] => 0
  end.

(** The bytes the channel took, in the order it took them: of each write,
    the head of the buffer that was accepted. *)
Fixpoint sent_bytes (acts : list action) : bytes :=
  match acts with
  | ChanSend _ _ data (Ok n) :: acts => Py.slice_to n data +:+ sent_bytes acts
  | _ :: acts => sent_bytes acts
  | [] => ""
  end.

(** ** [SSHServer]: the other callbacks *)

Module PyStr.

(** [sep.join(l)] *)
Fixpoint join (sep : string) (l : list string) : string :=
  match l with
  | [] => ""
  | [x] => x
  | x :: l => x +:+ sep +:+ join sep l
  end.

End PyStr.

Section Callbacks.

(** The policy of the server: [self.none_auth], [self.pubkey_auth] and
    [self.password_auth], a function or [None]. *)
Variable none_auth pubkey_auth : bool.
Variable password_auth : option (string → string → bool).

Definition get_allowed_auths (username : string) : string :=
  let mods := [] in
  let mods := if none_auth then mods ++ ["none"] else mods in
  let mods := if pubkey_auth then mods ++ ["publickey"] else mods in
  let mods := if password_auth is Some _ then mods ++ ["password"] else mods in
  PyStr.join "," mods.

Definition check_auth_none (username : string) : Z :=
  if none_auth then paramiko.AUTH_SUCCESSFUL else paramiko.AUTH_FAILED.

Definition check_auth_password (username password : string) : Z :=
  match password_auth with
  | None => paramiko.AUTH_FAILED
  | Some check =>
      if negb (check username password) then paramiko.AUTH_FAILED
      else paramiko.AUTH_SUCCESSFUL
  end.

Definition check_auth_gssapi_keyex (username : string) : Z := paramiko.AUTH_FAILED.
Definition check_auth_gssapi_with_mic (username : string) : Z := paramiko.AUTH_FAILED.

End Callbacks.

(** The exec request on a host where no subprocess can be started and the
    policy enables [proxy-start]. *)
Definition exec_without_popen (channel : channel) (command : bytes) : M bool :=
  check_channel_exec_request ticking_clock accept_all true false id id
    simple_parse_bool ["xpra"] found_xpra (λ _ _, None) insertion_order
    (<["proxy-start" := "yes"]> no_options) (Some ":10") channel command.

(** What the exec request leaves when it does not touch the server:
    the signal, the slot and the subprocesses are as before. *)
Definition untouched (w w' : world) : Prop :=
  event w' = event w
  ∧ proxy_channel w' = proxy_channel w
  ∧ proxy_process w' = proxy_process w.

(** ** [check_channel_exec_request]: how it ends *)

(** The four ways an exec request ends: an exception, the answer of the
    probe, a refusal, a handoff. *)
Definition raised (w : world) (r : outcome bool) (w' : world) : Prop :=
  ∃ e acts, r = Raise e ∧ w' = extend w acts.
Definition probed (channel : channel) (w : world) (r : outcome bool) (w' : world) : Prop :=
  r = Ok true
  ∧ ∃ acts status, w' = extend w (acts ++ [ChanSendExitStatus channel status]).
Definition failed (channel : channel) (w : world) (r : outcome bool) (w' : world) : Prop :=
  r = Ok false
  ∧ ∃ acts, w' = World true (proxy_channel w) (proxy_process w)
                   (trace w ++ acts ++ [ChanClose channel]).
Definition handed (channel : channel) (w : world) (r : outcome bool) (w' : world) : Prop :=
  r = Ok true ∧ event w' = true ∧ proxy_channel w' = Some channel
  ∧ ∃ acts, trace w' = trace w ++ acts.

(** ** [make_ssh_server_connection]: host keys and closing *)

(** The keys given to the transport, in the order of the calls of
    [t.add_server_key]. *)
Fixpoint server_keys (tr : list Bootstrap.action) : list Bootstrap.host_key :=
  match tr with
  | [] => []
  | Bootstrap.AddServerKey k :: tr => k :: server_keys tr
  | _ :: tr => server_keys tr
  end.

(** The transport was given the keys of [host_keys], each one once. *)
Definition keys_registered (s : Bootstrap.state) : Prop :=
  server_keys (Bootstrap.trace s) = (Bootstrap.host_keys s).*1
  ∧ NoDup (Bootstrap.host_keys s).*1.

(** Every entry of [host_keys] is a key that a key class of paramiko read
    from a file named as a host key. *)
Definition from_key_files (os_path_join : string → string → string)
    (key_class : string → option string)
    (load_key : string → string → outcome Bootstrap.host_key)
    (s : Bootstrap.state) : Prop :=
  ∀ k ff, (k, ff) ∈ Bootstrap.host_keys s →
    ∃ fd f name keyclass,
      ff = os_path_join fd f
      ∧ Bootstrap.is_host_key_file f = true
      ∧ key_class name = Some keyclass
      ∧ load_key keyclass ff = Ok k.

Definition keys_ok (os_path_join : string → string → string)
    (key_class : string → option string)
    (load_key : string → string → outcome Bootstrap.host_key)
    (s : Bootstrap.state) : Prop :=
  keys_registered s ∧ from_key_files os_path_join key_class load_key s.

(** The calls that close the transport or the connection. *)
Definition closing (a : Bootstrap.action) : bool :=
  match a with
  | Bootstrap.TransportClose | Bootstrap.ConnClose => true
  | _ => false
  end.

Definition nothing_closed (s : Bootstrap.state) : Prop :=
  Forall (λ a, closing a = false) (Bootstrap.trace s).

(** [close()] was called once, and it was the last thing done. *)
Definition closed_last (s : Bootstrap.state) : Prop :=
  ∃ pre, Bootstrap.trace s = pre ++ Bootstrap.closes s
         ∧ Forall (λ a, closing a = false) pre.

(** The server was not started, or it was started once, with a key at
    least, and no key was given to the transport afterwards. *)
Definition started_with_keys (tr : list Bootstrap.action) : Prop :=
  Bootstrap.StartServer ∉ tr
  ∨ ∃ pre post,
      tr = pre ++ Bootstrap.StartServer :: post
      ∧ (Bootstrap.StartServer ∉ pre)
      ∧ server_keys pre ≠ []
      ∧ (Bootstrap.StartServer ∉ post)
      ∧ server_keys post = [].

(** Partial correctness of a computation of [make_ssh_server_connection]:
    from a state where [P] holds, it ends with a result and a state that
    [Q] relates. *)
Definition hoare {A} (P : Bootstrap.state → Prop) (m : ST Bootstrap.state A)
    (Q : outcome A → Bootstrap.state → Prop) : Prop :=
  ∀ s r s', P s → m s = (r, s') → Q r s'.

(** [P] is kept by the computation, however it ends. *)
Definition inv {A} (P : Bootstrap.state → Prop) (m : ST Bootstrap.state A) : Prop :=
  hoare P m (λ _, P).

(** The computation only adds to the trace, and only actions that are [F]. *)
Definition writes_only {A} (F : Bootstrap.action → Prop) (m : ST Bootstrap.state A)
  : Prop :=
  ∀ s r s', m s = (r, s') →
    ∃ acts, Bootstrap.trace s' = Bootstrap.trace s ++ acts ∧ Forall F acts.

(** What is done to load a key: the key is given to the transport, or a
    message is logged. *)
Definition key_loading (a : Bootstrap.action) : Prop :=
  match a with
  | Bootstrap.AddServerKey _ | Bootstrap.Log _ => True
  | _ => False
  end.

Definition not_started (s : Bootstrap.state) : Prop :=
  Bootstrap.StartServer ∉ Bootstrap.trace s.

(** What is done to set the transport up, and what is done once the server
    is started. *)
Definition setting_up (a : Bootstrap.action) : Prop :=
  match a with
  | Bootstrap.TransportNew _ | Bootstrap.SetGssHost _ => True
  | _ => False
  end.

Definition after_start (a : Bootstrap.action) : Prop :=
  match a with
  | Bootstrap.Accept | Bootstrap.EventWait | Bootstrap.ConnSetActive _
  | Bootstrap.Log _ | Bootstrap.TransportClose | Bootstrap.ConnClose => True
  | _ => False
  end.

(** The server object was left with a proxy channel that a subprocess
    serves. *)
Definition served_by_subprocess (ssh_server : world) : Prop :=
  event ssh_server = true
  ∧ ∃ pc proc,
      proxy_channel ssh_server = Some pc
      ∧ Bootstrap.proxy_process_of pc ssh_server = Some proc.

(** ** [proxy_start]: the forwarding threads

    The local functions of [proxy_start] that the three threads run: each
    loops for as long as [proc.poll()] is [None].  The loops are given a
    number of rounds; [None] is the result of a loop that is still running
    after them.  [proc.poll()] and [proc.terminate()] are taken not to
    raise; reading, receiving, writing, flushing and sending may. *)

Module ProxyStart.

(** What [read(4096)] gives: bytes, the timeout of paramiko's pipes, or
    another exception. *)
Inductive read_result :=
| ReadBytes (r : bytes)
| PipeTimeout
| ReadRaises (e : exn).

(** What is done to the subprocess and what is received from the
    channel. *)
Inductive proc_action :=
| Poll (returncode : option Z)
| Terminate
| Read (s : stream) (size : nat) (r : read_result)
| Recv (size : nat) (r : outcome bytes)
| StdinWrite (data : bytes) (r : outcome unit)
| StdinFlush (r : outcome unit).

(** The server object with what was sent, and what was done to the
    subprocess. *)
Record bridge := Bridge {
  chan : world;
  proc : list proc_action
}.

Section Threads.

Variable clock : list action → float.
Variable send_result : list action → channel → stream → bytes → outcome nat.

(** What the subprocess and the channel answer, given what was done so
    far: [proc.poll()], [proc.stdout.read] and [proc.stderr.read],
    [channel.recv], [stdin.write] and [stdin.flush]. *)
Variable poll_result : list proc_action → option Z.
Variable read_result_of : list proc_action → stream → nat → read_result.
Variable recv_result : list proc_action → nat → outcome bytes.
Variable write_result : list proc_action → bytes → outcome unit.
Variable flush_result : list proc_action → outcome unit.

Variable channel : channel.

Definition on_channel {A} (m : M A) : ST bridge A :=
  λ b, let '(r, w) := m (chan b) in (r, Bridge w (proc b)).

Definition did (a : proc_action) : ST bridge unit :=
  λ b, (Ok tt, Bridge (chan b) (proc b ++ [a])).

Definition poll : ST bridge (option Z) :=
  λ b, let rc := poll_result (proc b) in (did (Poll rc) ;; ret rc) b.

Definition read (s : stream) (size : nat) : ST bridge read_result :=
  λ b, let r := read_result_of (proc b) s size in (did (Read s size r) ;; ret r) b.

Definition recv (size : nat) : ST bridge bytes :=
  λ b, let r := recv_result (proc b) size in (did (Recv size r) ;; lift r) b.

Definition stdin_write (data : bytes) : ST bridge unit :=
  λ b, let r := write_result (proc b) data in (did (StdinWrite data r) ;; lift r) b.

Definition stdin_flush : ST bridge unit :=
  λ b, let r := flush_result (proc b) in (did (StdinFlush r) ;; lift r) b.

(** The local function [close]. *)
Definition close : ST bridge unit :=
  let* rc := poll in
  match rc with
  | None => did Terminate
  | Some _ => ret tt
  end.

(** The local function [proc_to_channel], for the stream that is read and
    written to: [proc.stdout.read] with [channel.send], or
    [proc.stderr.read] with [channel.send_stderr]. *)
Fixpoint proc_to_channel (rounds : nat) (s : stream) : ST bridge (option unit) :=
  match rounds with
  | 0 => ret None
  | S rounds =>
      let* rc := poll in
      match rc with
      | Some _ => ret (Some tt)
      | None =>
          let* r := read s 4096 in
          match r with
          | PipeTimeout => close ;; ret (Some tt)
          | ReadRaises e => raise e
          | ReadBytes r =>
              if negb (String.eqb r "") then
                λ b,
                  match on_channel (chan_send clock (channel_send send_result channel s)
                                      r default_timeout) b with
                  | (Ok _, b) => proc_to_channel rounds s b
                  | (Raise OSError, b) => (close ;; ret (Some tt)) b
                  | (Raise e, b) => (Raise e, b)
                  end
              else proc_to_channel rounds s
          end
      end
  end.

Definition stderr_reader (rounds : nat) : ST bridge (option unit) :=
  proc_to_channel rounds Stderr.

Definition stdout_reader (rounds : nat) : ST bridge (option unit) :=
  proc_to_channel rounds Stdout.

Fixpoint stdin_reader (rounds : nat) : ST bridge (option unit) :=
  match rounds with
  | 0 => ret None
  | S rounds =>
      let* rc := poll in
      match rc with
      | Some _ => ret (Some tt)
      | None =>
          let* r := recv 4096 in
          if String.eqb r "" then close ;; ret (Some tt)
          else
            stdin_write r ;;
            stdin_flush ;;
            stdin_reader rounds
      end
  end.

End Threads.

(** The bytes read from the subprocess, received from the channel and
    written to the subprocess, in order. *)
Fixpoint read_bytes (acts : list proc_action) : bytes :=
  match acts with
  | Read _ _ (ReadBytes r) :: acts => r +:+ read_bytes acts
  | _ :: acts => read_bytes acts
  | [] => ""
  end.

Fixpoint received (acts : list proc_action) : bytes :=
  match acts with
  | Recv _ (Ok r) :: acts => r +:+ received acts
  | _ :: acts => received acts
  | [] => ""
  end.

Fixpoint written (acts : list proc_action) : bytes :=
  match acts with
  | StdinWrite data (Ok _) :: acts => data +:+ written acts
  | _ :: acts => written acts
  | [] => ""
  end.

(** What a forwarding loop of the stream [s] does to the channel [c]:
    clock readings and writes to that stream of that channel. *)
Definition sends_on (c : channel) (s : stream) (a : action) : Prop :=
  match a with
  | Monotonic _ => True
  | ChanSend c' s' _ _ => c' = c ∧ s' = s
  | _ => False
  end.

(** What it does to the subprocess: polls, reads of that stream, and
    [terminate]. *)
Definition reads_from (s : stream) (a : proc_action) : Prop :=
  match a with
  | Poll _ | Terminate => True
  | Read s' _ _ => s' = s
  | _ => False
  end.

(** A state of the threads with more done. *)
Definition extend (b : bridge) (acts : list action) (pacts : list proc_action) : bridge :=
  Bridge (extend (chan b) acts) (proc b ++ pacts).

(** Every write to the subprocess that returned is followed by a flush. *)
Fixpoint flushed (acts : list proc_action) : bool :=
  match acts with
  | StdinWrite _ (Ok _) :: acts =>
      match acts with
      | StdinFlush _ :: _ => flushed acts
      | _ => false
      end
  | _ :: acts => flushed acts
  | [] => true
  end.

(** [terminate] is called once at most, as the last thing, right after a
    poll that found the subprocess running. *)
Definition terminated_last (acts : list proc_action) : Prop :=
  Terminate ∈ acts →
  ∃ pre, acts = pre ++ [Poll None; Terminate] ∧ Terminate ∉ pre.

(** What a run of [proc_to_channel] for the stream [s] gives: the result
    [r], what was done on the channel [c] and what was done to the
    subprocess.  What was sent is the beginning of what was read, and all
    of it while the loop runs. *)
Definition forwards (c : channel) (s : stream) (r : outcome (option unit))
    (acts : list action) (pacts : list proc_action) : Prop :=
  Forall (sends_on c s) acts
  ∧ Forall (reads_from s) pacts
  ∧ (∃ rest, sent_bytes acts +:+ rest = read_bytes pacts)
  ∧ (r = Ok None → sent_bytes acts = read_bytes pacts)
  ∧ terminated_last pacts
  ∧ (Terminate ∈ pacts → r = Ok (Some tt)).

(** What a run of [stdin_reader] gives: what was written to the subprocess
    is the beginning of what was received, and all of it unless an
    exception ended the loop. *)
Definition feeds (r : outcome (option unit)) (pacts : list proc_action) : Prop :=
  (∃ rest, written pacts +:+ rest = received pacts)
  ∧ ((∃ v, r = Ok v) → written pacts = received pacts)
  ∧ flushed pacts = true
  ∧ terminated_last pacts
  ∧ (Terminate ∈ pacts →
     r = Ok (Some tt)
     ∧ ∃ pre, pacts = pre ++ [Recv 4096 (Ok ""); Poll None; Terminate]).

End ProxyStart.

(** * The cookies of the browser (xpra/net/websockets/headers/browser_cookie.py) *)

Module PyMore.

(** [s.count(sub, start)] for a non-empty [sub]: the occurrences of [sub]
    in [s[start:]] that do not overlap; [skip] counts the characters of an
    occurrence just counted that are still to be passed over. *)
Fixpoint count_go (sub : string) (skip : nat) (s : string) : nat :=
  match s with
  | "" => 0
  | String c r =>
      match skip with
      | S k => count_go sub k r
      | 0 =>
          if String.prefix sub s
          then S (count_go sub (String.length sub - 1) r)
          else count_go sub 0 r
      end
  end.

Definition count (s sub : string) (start : nat) : nat :=
  count_go sub 0 (Py.slice_from start s).

(** [sub in s] *)
Definition contains (s sub : string) : bool :=
  match String.index 0 sub s with
  | Some _ => true
  | None => false
  end.

(** A value with the equation that says what it is. *)
Definition inspect {A} (a : A) : {b : A | a = b} := exist _ a eq_refl.

End PyMore.

Module BrowserCookie.

(** The attributes of a cookie that are read, both of them [str]. *)
Record cookie := Cookie {
  name : string;
  value : string
}.

Section GetHeaders.

(** [browser_cookie3.load(domain_name=...)], given the domains asked for
    before: the cookies of the jar in the order of its iteration, or the
    exception raised; and [xpra.os_util.strtobytes]. *)
Variable load : list string → string → outcome (list cookie).
Variable strtobytes : string → bytes.

(** The [for] loop over a jar. *)
Fixpoint add_cookies (cj : list cookie) (cookie_string : string) : string :=
  match cj with
  | [] => cookie_string
  | c :: cj =>
      let cookie := name c +:+ "=" +:+ value c +:+ "; " in
      add_cookies cj
        (if negb (PyMore.contains cookie_string (name c +:+ "="))
         then cookie_string +:+ cookie
         else cookie_string)
  end.

(** The [while] loop: [loaded] lists the domains asked for so far. *)
Equations get_headers_loop (loaded : list string) (cookie_domain cookie_string : string)
  : outcome string * list string
  by wf (String.length cookie_domain) lt :=
  get_headers_loop loaded cookie_domain cookie_string
    with PyMore.count cookie_domain "." 2 := {
    | 0 := (Ok cookie_string, loaded)
    | S _ with load loaded cookie_domain := {
      | Raise e := (Raise e, loaded ++ [cookie_domain])
      | Ok cj with PyMore.inspect (index (Py.split1 cookie_domain ".") 1) := {
        | exist _ (Raise e) _ := (Raise e, loaded ++ [cookie_domain])
        | exist _ (Ok next) Hnext :=
            get_headers_loop (loaded ++ [cookie_domain]) next
              (add_cookies cj cookie_string) } } }.
Next Obligation.
  intros. clear get_headers_loop. revert Hnext. unfold Py.split1.
  destruct cookie_domain as [|c d]; [discriminate|].
  destruct (String.index 0 "." (String c d)) as [i|]; [|discriminate].
  unfold index. simpl. intros [= <-].
  replace (i + 1) with (S i) by lia. simpl.
  clear. revert d. induction i as [|i IH]; intros [|c d]; simpl; try lia.
  specialize (IH d). lia.
Qed.

(** The headers are a dictionary with one key. *)
Definition get_headers (host : string) (port : Z)
  : outcome (gmap bytes bytes) * list string :=
  match get_headers_loop [] host "" with
  | (Ok cookie_string, loaded) => (Ok {[ "Cookie" := strtobytes cookie_string ]}, loaded)
  | (Raise e, loaded) => (Raise e, loaded)
  end.

End GetHeaders.

(** What a cookie adds to the header. *)
Definition entry (c : cookie) : string := name c +:+ "=" +:+ value c +:+ "; ".

Fixpoint entries (cs : list cookie) : string :=
  match cs with
  | [] => ""
  | c :: cs => entry c +:+ entries cs
  end.

(** [d] is [s], or what follows a dot of [s]. *)
Inductive parent_of (s : string) : string → Prop :=
| parent_self : parent_of s s
| parent_dot pre d : s = pre +:+ "." +:+ d → parent_of s d.

End BrowserCookie.

(** * The modifier keys (xpra/platform/keyboard_base.py) *)

Module Keyboard.

(** The values of a keymap: integers (booleans among them), [str] and
    [bytes], tuples and lists, and [None]. *)
#[local] Unset Elimination Schemes.
Inductive pyval :=
| VInt (n : Z)
| VStr (is_bytes : bool) (s : string)
| VSeq (is_list : bool) (items : list pyval)
| VNone.
#[local] Set Elimination Schemes.

Fixpoint size (v : pyval) : nat :=
  match v with
  | VSeq _ items => S (list_sum (map size items))
  | _ => 1
  end.

Definition is_str (v : pyval) : bool :=
  match v with
  | VStr _ _ => true
  | _ => false
  end.

(** [a, b = v] *)
Definition unpack (v : pyval) : outcome (pyval * pyval) :=
  match v with
  | VSeq _ [a; b] => Ok (a, b)
  | VStr false (String a (String b "")) =>
      Ok (VStr false (String a ""), VStr false (String b ""))
  | VStr true (String a (String b "")) =>
      Ok (VInt (Z.of_nat (nat_of_ascii a)), VInt (Z.of_nat (nat_of_ascii b)))
  | VSeq _ _ | VStr _ _ => Raise ValueError
  | VInt _ | VNone => Raise TypeError
  end.

(** The attributes of a [KeyboardBase] that the mappings change, and the
    definitions warned about.  The mappings are a dictionary, taken in the
    order of [mappings.items()], from a modifier to the sequence of its
    definitions. *)
Record keyboard := KeyboardBase {
  modifier_mappings : list (pyval * list pyval);
  modifier_keys : gmap string string;
  modifier_names : gmap string string;
  modifier_keycodes : gmap string (list Z);
  warned : list (pyval * pyval)
}.

Section Mappings.

(** [xpra.os_util.bytestostr] *)
Variable bytestostr : pyval → string.

(** One round of the loop of [_do_add_modifier_mapping]. *)
Definition add_keyname (keyname : pyval) (keycode : Z) (modifier : pyval)
    (kb : keyboard) : keyboard :=
  let modifier_keys := <[bytestostr keyname := bytestostr modifier]> (modifier_keys kb) in
  let modifier_names := <[bytestostr modifier := bytestostr keyname]> (modifier_names kb) in
  let modifier_keycodes :=
    if negb (keycode =? 0)%Z then
      (* keycodes = self.modifier_keycodes.setdefault(bytestostr(keyname), []) *)
      let keycodes := default [] (modifier_keycodes kb !! bytestostr keyname) in
      <[bytestostr keyname :=
          if bool_decide (keycode ∉ keycodes) then keycodes ++ [keycode] else keycodes]>
        (modifier_keycodes kb)
    else modifier_keycodes kb in
  KeyboardBase (modifier_mappings kb) modifier_keys modifier_names modifier_keycodes
    (warned kb).

Fixpoint _do_add_modifier_mapping (keynames : list pyval) (keycode : Z)
    (modifier : pyval) (kb : keyboard) : keyboard :=
  match keynames with
  | [] => kb
  | keyname :: keynames =>
      _do_add_modifier_mapping keynames keycode modifier
        (add_keyname keyname keycode modifier kb)
  end.

Definition warn (a b : pyval) (kb : keyboard) : keyboard :=
  KeyboardBase (modifier_mappings kb) (modifier_keys kb) (modifier_names kb)
    (modifier_keycodes kb) (warned kb ++ [(a, b)]).

(** The recursion ends: a call is made for an item of [a], or with an
    integer for [b] where [b] was a string. *)
Definition weight (a b : pyval) : nat :=
  (if is_str b then 2 else 0) + size a.

Equations _add_modifier_mapping (a b modifier : pyval) (kb : keyboard) : keyboard
  by wf (weight a b) lt :=
  _add_modifier_mapping (VInt a) (VStr t b) modifier kb :=
    _do_add_modifier_mapping [VStr t b] a modifier kb;
  _add_modifier_mapping (VStr t a) (VInt _) modifier kb :=
    _do_add_modifier_mapping [VStr t a] 0 modifier kb;
  _add_modifier_mapping (VStr t a) (VStr u b) modifier kb :=
    _do_add_modifier_mapping [VStr t a; VStr u b] 0 modifier kb;
  _add_modifier_mapping (VSeq _ [a0; a1]) (VStr u b) modifier kb :=
    _add_modifier_mapping (VSeq false [VStr u b]) (VInt 0) modifier
      (_add_modifier_mapping a0 a1 modifier kb);
  _add_modifier_mapping (VSeq _ _) (VStr u b) modifier kb :=
    _add_modifier_mapping (VSeq false [VStr u b]) (VInt 0) modifier kb;
  _add_modifier_mapping (VSeq _ a) (VInt _) modifier kb :=
    _do_add_modifier_mapping a 0 modifier kb;
  _add_modifier_mapping a b modifier kb := warn a b kb.
Next Obligation. intros. unfold weight. simpl. lia. Qed.
Next Obligation. intros. unfold weight. simpl. destruct (is_str a1); lia. Qed.
Next Obligation. intros. unfold weight. simpl. lia. Qed.
Next Obligation. intros. unfold weight. simpl. lia. Qed.

(** The loop over the definitions of a modifier. *)
Fixpoint add_keys (keys : list pyval) (modifier : pyval) : ST keyboard unit :=
  match keys with
  | [] => ret tt
  | key :: keys =>
      match unpack key with
      | Raise e => raise e
      | Ok (a, b) =>
          (λ kb, (Ok tt, _add_modifier_mapping a b modifier kb)) ;;
          add_keys keys modifier
      end
  end.

Fixpoint add_mappings (mappings : list (pyval * list pyval)) : ST keyboard unit :=
  match mappings with
  | [] => ret tt
  | (modifier, keys) :: mappings =>
      add_keys keys modifier ;;
      add_mappings mappings
  end.

Definition set_modifier_mappings (mappings : list (pyval * list pyval))
  : ST keyboard unit :=
  (λ kb, (Ok tt, KeyboardBase mappings ∅ ∅ ∅ (warned kb))) ;;
  add_mappings mappings.

End Mappings.

(** [init_vars] *)
Definition init_vars : keyboard := KeyboardBase [] ∅ ∅ ∅ [].

(** The lists of key codes have no code twice, no code 0, and a code at
    least. *)
Definition keycodes_ok (kb : keyboard) : Prop :=
  ∀ keyname keycodes,
    modifier_keycodes kb !! keyname = Some keycodes →
    NoDup keycodes ∧ (0%Z ∉ keycodes) ∧ keycodes ≠ [].

(** A key with key codes is a key of a modifier; the key named for a
    modifier is the key of a modifier; the modifier of a key has a key
    named for it. *)
Definition names_ok (kb : keyboard) : Prop :=
  (∀ keyname, is_Some (modifier_keycodes kb !! keyname) →
     is_Some (modifier_keys kb !! keyname))
  ∧ (∀ modifier keyname, modifier_names kb !! modifier = Some keyname →
       is_Some (modifier_keys kb !! keyname))
  ∧ (∀ keyname modifier, modifier_keys kb !! keyname = Some modifier →
       is_Some (modifier_names kb !! modifier)).

End Keyboard.

(** * Properties *)

(** ** Slices *)

Lemma slice_from_length n s :
  String.length (Py.slice_from n s) <= String.length s.
Proof.
  revert s; induction n as [|n IH]; intros [|c s]; simpl; try lia.
  specialize (IH s); lia.
Qed.

Lemma slice_from_slice_from n m s :
  Py.slice_from m (Py.slice_from n s) = Py.slice_from (n + m) s.
Proof.
  revert s; induction n as [|n IH]; intros s; simpl; [done|].
  destruct s as [|c s]; [by destruct m|]. apply IH.
Qed.

(** ** [chan_send] drains the buffer or raises *)

Section ChanSendFacts.

Variable clock : list action → float.
Variable send_result : list action → channel → stream → bytes → outcome nat.

Lemma extend_extend w a b : extend (extend w a) b = extend w (a ++ b).
Proof. unfold extend; simpl. by rewrite <- app_assoc. Qed.

Lemma extend_nil w : extend w [] = w.
Proof. destruct w; unfold extend; simpl. by rewrite app_nil_r. Qed.

Lemma monotonic_eq w :
  monotonic clock w = (Ok (clock (trace w)), extend w [Monotonic (clock (trace w))]).
Proof. reflexivity. Qed.

Lemma channel_send_eq c s data w :
  channel_send send_result c s data w =
    (send_result (trace w) c s data,
     extend w [ChanSend c s data (send_result (trace w) c s data)]).
Proof.
  unfold channel_send, bind, emit, lift, extend; simpl.
  by destruct (send_result (trace w) c s data).
Qed.

Lemma chan_send_loop_answered c s start timeout data w :
  ∃ acts rest,
    chan_send_loop clock (channel_send send_result c s) start timeout data w
      = (rest, extend w acts)
    ∧ send_run c s start timeout data acts rest
    ∧ answered clock send_result (trace w) acts.
Proof.
  remember (String.length data) as k eqn:Hk. revert data w Hk.
  induction k as [k IH] using lt_wf_ind. intros data w Hk.
  destruct data as [|ch d].
  { exists [], (Ok ""). rewrite extend_nil.
    split; [by simp chan_send_loop | split; [constructor|done]]. }
  rewrite chan_send_loop_equation_2, monotonic_eq. simpl.
  set (t := clock (trace w)).
  destruct (t - start <? timeout)%float eqn:Hwin; simpl.
  2:{ exists [Monotonic t], (Ok (String ch d)).
      split; [done|]. split; [by constructor|done]. }
  set (r := send_result _ c s (String ch d)).
  destruct r as [[|n]|e] eqn:Hr.
  - exists [Monotonic t; ChanSend c s (String ch d) (Ok 0)], (Ok (String ch d)).
    split; [|split; [by constructor|simpl; fold r; by rewrite Hr]].
    unfold extend; simpl. by rewrite <- app_assoc.
  - set (w2 := World _ _ _ _).
    destruct (IH (String.length (Py.slice_from n d))
                ltac:(subst k; simpl; pose proof (slice_from_length n d); lia)
                (Py.slice_from n d) w2 eq_refl)
      as (acts & rest & Heq & Hrun & Hans).
    exists (Monotonic t :: ChanSend c s (String ch d) (Ok (S n)) :: acts), rest.
    split; [|split; [by constructor|simpl; fold r; by rewrite Hr]].
    rewrite Heq. f_equal. unfold extend, w2; simpl.
    by rewrite <- !app_assoc.
  - exists [Monotonic t; ChanSend c s (String ch d) (Raise e)], (Raise e).
    split; [|split; [by constructor|simpl; fold r; by rewrite Hr]].
    unfold extend; simpl. by rewrite <- app_assoc.
Qed.

Lemma chan_send_loop_run c s start timeout data w :
  ∃ acts rest,
    chan_send_loop clock (channel_send send_result c s) start timeout data w
      = (rest, extend w acts)
    ∧ send_run c s start timeout data acts rest.
Proof.
  destruct (chan_send_loop_answered c s start timeout data w)
    as (acts & rest & Heq & Hrun & _).
  by exists acts, rest.
Qed.

End ChanSendFacts.

Lemma send_run_rest c s start timeout data acts rest :
  send_run c s start timeout data acts (Ok rest) →
  rest = Py.slice_from (accepted acts) data.
Proof.
  intros H. remember (Ok rest) as r eqn:Hr.
  induction H as [|data t|data t|data t e|data t n acts r' Hne Hw Hn Hrun IH];
    simpl; try congruence.
  rewrite <- slice_from_slice_from. by apply IH.
Qed.

Lemma send_run_raise c s start timeout data acts e :
  send_run c s start timeout data acts (Raise e) →
  Py.slice_from (accepted acts) data ≠ "".
Proof.
  intros H. remember (Raise e) as r eqn:Hr.
  induction H as [|data t|data t|data t e'|data t n acts r' Hne Hw Hn Hrun IH];
    simpl; try congruence.
  rewrite <- slice_from_slice_from. by apply IH.
Qed.

(** C9. For an empty buffer [chan_send] returns at once, with no clock
    reading and no write.  For a non-empty buffer it reads the clock, then
    runs the loop: every reading is what the clock answers and every write
    returns what the channel answers at that point ([answered]), every
    write is attempted within the window of 5 seconds, counted from the
    first reading, on the buffer advanced by the counts accepted so far
    ([send_run]); it raises exactly when the counts accepted do not cover
    the buffer, with the exception of the write when a write raised and
    with its own exception otherwise. *)
Theorem chan_send_drains_or_raises
    (clock : list action → float)
    (send_result : list action → channel → stream → bytes → outcome nat)
    (c : channel) (s : stream) (data : bytes) (w : world) :
  (data = "" →
     chan_send clock (channel_send send_result c s) data default_timeout w
       = (Ok tt, w))
  ∧ (data ≠ "" →
     ∃ acts rest res,
       chan_send clock (channel_send send_result c s) data default_timeout w
         = (res, extend w (Monotonic (clock (trace w)) :: acts))
       ∧ answered clock send_result (trace w) (Monotonic (clock (trace w)) :: acts)
       ∧ send_run c s (clock (trace w)) default_timeout data acts rest
       ∧ res = chan_send_result rest
       ∧ ((∃ e, res = Raise e) ↔ Py.slice_from (accepted acts) data ≠ "")
       ∧ (res = Ok tt ↔ Py.slice_from (accepted acts) data = "")).
Proof.
  split.
  - intros ->. reflexivity.
  - intros Hne. unfold chan_send.
    destruct (String.eqb data "") eqn:He; [by apply String.eqb_eq in He|].
    unfold bind at 1. rewrite monotonic_eq.
    set (start := clock (trace w)). set (w1 := extend w _).
    destruct (chan_send_loop_answered clock send_result c s start default_timeout
                data w1) as (acts & rest & Heq & Hrun & Hans).
    unfold bind. rewrite Heq.
    exists acts, rest.
    assert (Hw : extend w1 acts = extend w (Monotonic start :: acts))
      by (unfold w1; by rewrite extend_extend).
    rewrite Hw.
    assert (Hall : answered clock send_result (trace w) (Monotonic start :: acts))
      by (split; [done | exact Hans]).
    destruct rest as [rest|e].
    + pose proof (send_run_rest _ _ _ _ _ _ _ Hrun) as Hrest.
      destruct (String.eqb rest "") eqn:Hr; simpl.
      * apply String.eqb_eq in Hr. subst rest.
        exists (Ok tt). unfold ret.
        split; [done|]. split; [done|]. split; [done|].
        split; [by rewrite Hr|]. rewrite Hr.
        split; [|done].
        split; [by intros [e ?] | by intros H].
      * apply String.eqb_neq in Hr.
        eexists. unfold raise.
        split; [done|]. split; [done|]. split; [done|].
        split; [by destruct rest|]. subst rest.
        split; [|split; [done|congruence]].
        split; [congruence | by eexists].
    + pose proof (send_run_raise _ _ _ _ _ _ _ Hrun) as Hrest.
      exists (Raise e).
      split; [done|]. split; [done|]. split; [done|]. split; [done|].
      split; [|done].
      split; [done | by eexists].
Qed.

Example chan_send_help :
  chan_send ticking_clock (channel_send two_bytes 7 Stdout) "help" default_timeout w0
  = (Ok tt, extend w0 [Monotonic 0; Monotonic 1; ChanSend 7 Stdout "help" (Ok 2);
                       Monotonic 3; ChanSend 7 Stdout "lp" (Ok 2)]).
Proof. vm_compute. reflexivity. Qed.

(** The window closes at the third reading: the last byte is left and
    [chan_send] raises. *)
Example chan_send_hello_late :
  chan_send ticking_clock (channel_send two_bytes 7 Stdout) "hello" default_timeout w0
  = (Raise (Exception "failed to send all the data"),
     extend w0 [Monotonic 0; Monotonic 1; ChanSend 7 Stdout "hello" (Ok 2);
                Monotonic 3; ChanSend 7 Stdout "llo" (Ok 2); Monotonic 5]).
Proof. vm_compute. reflexivity. Qed.

(** The window is tested on floats: between the readings 0.1 and 5.1 the
    difference rounds to 5, the window is over and nothing is written. *)
Example chan_send_rounded_window :
  chan_send late_clock (channel_send two_bytes 7 Stdout) "hello" default_timeout w0
  = (Raise (Exception "failed to send all the data"),
     extend w0 [Monotonic 0x1.999999999999ap-4; Monotonic 0x1.4666666666666p+2]).
Proof. vm_compute. reflexivity. Qed.

Lemma chan_send_drains_or_raises_witness :
  "hello" ≠ "" ∧
  ∃ acts rest res,
    chan_send ticking_clock (channel_send two_bytes 7 Stdout) "hello" default_timeout w0
      = (res, extend w0 (Monotonic (ticking_clock (trace w0)) :: acts))
    ∧ answered ticking_clock two_bytes (trace w0)
        (Monotonic (ticking_clock (trace w0)) :: acts)
    ∧ send_run 7 Stdout (ticking_clock (trace w0)) default_timeout "hello" acts rest
    ∧ res = chan_send_result rest
    ∧ ((∃ e, res = Raise e) ↔ Py.slice_from (accepted acts) "hello" ≠ "")
    ∧ (res = Ok tt ↔ Py.slice_from (accepted acts) "hello" = "").
Proof.
  split; [done|].
  apply (chan_send_drains_or_raises ticking_clock two_bytes 7 Stdout "hello" w0).
  done.
Defined.


(** ** The exec request *)

Lemma bind_lift_ok {A B} (a : A) (k : A → M B) w : bind (lift (Ok a)) k w = k a w.
Proof. reflexivity. Qed.

Lemma run_proxy_eq channel w :
  _run_proxy channel w =
    (Ok tt, World true (Some channel) (proxy_process w)
              (trace w ++ (ChanClose <$> option_list (proxy_channel w)))).
Proof.
  destruct w as [ev [pc|] pp tr]; unfold _run_proxy, _run_proxy_on, bind; simpl; [done|].
  by rewrite app_nil_r.
Qed.

Lemma fail_eq channel w :
  fail channel w =
    (Ok false, World true (proxy_channel w) (proxy_process w)
                 (trace w ++ [ChanClose channel])).
Proof. reflexivity. Qed.

Lemma probe_names_do_not_end_with_xpra t :
  t ∈ ["type"; "which"; "command"] → Py.endswith t "xpra" = false.
Proof.
  rewrite !elem_of_cons, elem_of_nil.
  intros [->|[->|[->|[]]]]; reflexivity.
Qed.

Ltac unfold_request := unfold check_channel_exec_request.
Ltac unfold_probe := unfold exec_probe.
Ltac unfold_xpra := unfold exec_xpra.
Ltac unfold_legacy := unfold exec_legacy.

Section SSHServerFacts.

Variable clock : list action → float.
Variable send_result : list action → channel → stream → bytes → outcome nat.
Variable POSIX WIN32 : bool.
Variable decode_str : bytes → string.
Variable osexpand : string → string.
Variable parse_bool : string → option string → bool → option bool.
Variable get_xpra_command : list string.
Variable popen_communicate : list action → list string → string + bytes * bytes * Z.
Variable proxy_popen : list action → list string → option process.
Variable set_order : list string → list string.
Variable options : gmap string string.
Variable display_name : option string.

Local Abbreviation check_channel_exec_request :=
  (check_channel_exec_request clock send_result POSIX WIN32 decode_str osexpand
     parse_bool get_xpra_command popen_communicate proxy_popen set_order
     options display_name).
Local Abbreviation exec_probe :=
  (exec_probe clock send_result POSIX WIN32 osexpand popen_communicate).
Local Abbreviation exec_xpra :=
  (exec_xpra parse_bool get_xpra_command proxy_popen options display_name).
Local Abbreviation exec_legacy := (exec_legacy set_order).

(** The dispatch, on the tokens of the command. *)
Lemma check_channel_exec_request_tokens channel command cmd cmd0 w :
  shlex.split (decode_str command) = Ok cmd →
  cmd !! 0 = Some cmd0 →
  check_channel_exec_request channel command w =
    if bool_decide (cmd0 ∈ ["type"; "which"; "command"])
       && bool_decide (length cmd ∈ [2; 3])
    then exec_probe channel cmd w
    else if Py.endswith cmd0 "xpra" && bool_decide (2 <= length cmd)
    then exec_xpra channel cmd w
    else exec_legacy channel cmd w.
Proof.
  intros Hsplit H0. unfold_request.
  rewrite Hsplit, bind_lift_ok. unfold index. rewrite H0, bind_lift_ok.
  by repeat case_match.
Qed.

Lemma chan_send_extends c s data timeout w :
  ∃ r acts, chan_send clock (send_fn send_result c s) data timeout w = (r, extend w acts).
Proof.
  unfold chan_send. destruct (String.eqb data "").
  { exists (Ok tt), []. by rewrite extend_nil. }
  unfold bind at 1. rewrite monotonic_eq.
  destruct (chan_send_loop_run clock send_result c s (clock (trace w)) timeout data
              (extend w [Monotonic (clock (trace w))])) as (acts & rest & Heq & _).
  unfold bind, send_fn. rewrite Heq, extend_extend.
  destruct rest as [rest|e]; [destruct (negb _)|]; eauto.
Qed.

Lemma emit_eq a w : emit a w = (Ok tt, extend w [a]).
Proof. reflexivity. Qed.

(** When the probe returns, it returns [True] and the last thing it did
    was to send an exit status on the channel. *)
Lemma exec_probe_answers channel cmd w b w' :
  exec_probe channel cmd w = (Ok b, w') →
  b = true ∧ ∃ acts status, w' = extend w (acts ++ [ChanSendExitStatus channel status]).
Proof.
  unfold_probe. destruct POSIX; simpl.
  - unfold bind at 1. rewrite emit_eq. unfold bind at 1.
    set (w1 := extend w _).
    destruct (popen_communicate (trace w1) _) as [e|[[out err] rc]].
    + unfold bind at 1.
      destruct (chan_send_extends channel Stderr ("failed to execute command: " +:+ e)
                  default_timeout w1) as (r & acts & ->).
      destruct r as [[]|]; [|done]. rewrite emit_eq. unfold ret.
      intros [= <- <-]. split; [done|]. unfold w1. rewrite !extend_extend.
      by exists (Popen (removelast cmd ++ [osexpand (List.last cmd "")]) :: acts), 1%Z.
    + unfold bind at 1.
      destruct (chan_send_extends channel Stdout out default_timeout w1) as (r & acts & ->).
      destruct r as [[]|]; [|done]. unfold bind at 1.
      destruct (chan_send_extends channel Stderr err default_timeout (extend w1 acts))
        as (r2 & acts2 & ->).
      destruct r2 as [[]|]; [|done]. rewrite emit_eq. unfold ret.
      intros [= <- <-]. split; [done|]. unfold w1. rewrite !extend_extend.
      exists (Popen (removelast cmd ++ [osexpand (List.last cmd "")]) :: acts ++ acts2), rc.
      f_equal. simpl. by rewrite <- app_assoc.
  - destruct WIN32; [|done]. unfold bind at 1, ret at 1. unfold bind at 1.
    destruct (String.eqb _ "xpra").
    + unfold bind at 1.
      destruct (chan_send_extends channel Stdout "xpra is xpra" default_timeout w)
        as (r & acts & ->).
      destruct r as [[]|]; [|done]. rewrite emit_eq. unfold ret.
      intros [= <- <-]. split; [done|]. rewrite extend_extend. by exists acts, 0%Z.
    + unfold bind at 1.
      destruct (chan_send_extends channel Stderr
                  ("type: " +:+ List.last cmd "" +:+ ": not found") default_timeout w)
        as (r & acts & ->).
      destruct r as [[]|]; [|done]. rewrite emit_eq. unfold ret.
      intros [= <- <-]. split; [done|]. rewrite extend_extend. by exists acts, 1%Z.
Qed.

(** The last branch writes nothing to the channel and executes nothing. *)
Lemma exec_legacy_quiet channel cmd w :
  ∃ r w' acts,
    exec_legacy channel cmd w = (r, w')
    ∧ trace w' = trace w ++ acts ∧ Forall legacy_action acts.
Proof.
  assert (Hend : ∀ (proxy : bool) w1, trace w1 = trace w →
    ∃ r w' acts,
      (if proxy then _run_proxy channel ;; ret true
       else emit (LogWarn (UnsupportedCommand cmd)) ;; fail channel) w1 = (r, w')
      ∧ trace w' = trace w ++ acts ∧ Forall legacy_action acts).
  { intros [|] w1 Hw1; unfold bind.
    - rewrite run_proxy_eq. do 3 eexists. split; [reflexivity|]. simpl.
      rewrite Hw1. split; [reflexivity|].
      destruct (proxy_channel w1); repeat constructor.
    - rewrite emit_eq, fail_eq. do 3 eexists. split; [reflexivity|]. simpl.
      rewrite Hw1, <- app_assoc. split; [reflexivity|]. repeat constructor. }
  assert (Hraise : ∀ e, ∃ w' acts,
    (@Raise bool e, w) = (Raise e, w') ∧ trace w' = trace w ++ acts
    ∧ Forall legacy_action acts).
  { intros e. exists w, []. by rewrite app_nil_r. }
  unfold_legacy. unfold bind at 1, lift at 1.
  destruct (parse_cmd_of cmd) as [parse_cmd|e]; [|exists (Raise e); apply Hraise].
  unfold bind at 1, lift at 1.
  destruct (legacy_subcommands _ _) as [subcommands|e];
    [|exists (Raise e); apply Hraise].
  unfold bind at 1.
  destruct subcommands as [|sc subcommands]; [by apply (Hend false)|].
  unfold bind at 1, lift at 1.
  destruct (index (set_order _) 0) as [first|e]; [|exists (Raise e); apply Hraise].
  by apply (Hend (String.eqb first "_proxy")).
Qed.

(** C10. A command that decodes to no token at all makes the request
    raise [IndexError] at [cmd[0]]: no rule is tried, the channel is not
    closed and the completion signal is not set. *)
Theorem empty_command_raises_IndexError channel command w :
  shlex.split (decode_str command) = Ok [] →
  check_channel_exec_request channel command w = (Raise IndexError, w).
Proof.
  intros Hsplit. unfold_request.
  by rewrite Hsplit, bind_lift_ok.
Qed.

(** C5. When the first token is [type], [which] or [command], the probe
    (the first branch) handles the request exactly when there are 2 or 3
    tokens: then the request is the probe, which on returning has sent an
    exit status; with any other number of tokens the request is the last
    branch (the second cannot apply, since none of the three names ends
    with xpra), which writes nothing to the channel. *)
Theorem probe_rule_token_count channel command cmd cmd0 w :
  shlex.split (decode_str command) = Ok cmd →
  cmd !! 0 = Some cmd0 →
  cmd0 ∈ ["type"; "which"; "command"] →
  (length cmd = 2 ∨ length cmd = 3 →
     check_channel_exec_request channel command w = exec_probe channel cmd w
     ∧ ∀ b w', check_channel_exec_request channel command w = (Ok b, w') →
         b = true
         ∧ ∃ acts status, w' = extend w (acts ++ [ChanSendExitStatus channel status]))
  ∧ (length cmd ≠ 2 → length cmd ≠ 3 →
     check_channel_exec_request channel command w = exec_legacy channel cmd w
     ∧ ∃ r w' acts,
         check_channel_exec_request channel command w = (r, w')
         ∧ trace w' = trace w ++ acts ∧ Forall legacy_action acts).
Proof.
  intros Hsplit H0 Hin.
  rewrite (check_channel_exec_request_tokens _ _ _ _ _ Hsplit H0).
  rewrite (bool_decide_eq_true_2 _ Hin), (probe_names_do_not_end_with_xpra _ Hin).
  simpl. split.
  - intros Hlen. rewrite bool_decide_eq_true_2.
    + split; [done|]. apply exec_probe_answers.
    + rewrite !elem_of_cons. destruct Hlen; auto.
  - intros H2 H3. rewrite bool_decide_eq_false_2.
    + split; [done|]. apply exec_legacy_quiet.
    + rewrite !elem_of_cons, elem_of_nil. intros [?|[?|[]]]; done.
Qed.

(** C3. When the policy does not enable [proxy-start], the commands
    [xpra _proxy_start], [xpra _proxy_start_desktop] and
    [xpra _proxy_shadow_start] are refused: the request returns [False],
    the completion signal is set, and all that happens is a warning and the
    closing of the channel: no subprocess is started. *)
Theorem proxy_start_disabled_rejected channel command subcommand w :
  subcommand ∈ ["_proxy_start"; "_proxy_start_desktop"; "_proxy_shadow_start"] →
  decode_str command = "xpra " +:+ subcommand →
  truthy (parse_bool "proxy-start" (options !! "proxy-start") false) = false →
  check_channel_exec_request channel command w =
    (Ok false,
     World true (proxy_channel w) (proxy_process w)
       (trace w ++ [LogWarn (ProxyStartRequest subcommand); ChanClose channel])).
Proof.
  intros Hin Hcmd Hpolicy.
  rewrite (check_channel_exec_request_tokens channel command ["xpra"; subcommand] "xpra");
    [|rewrite Hcmd|done].
  2:{ revert Hin. rewrite !elem_of_cons, elem_of_nil.
      intros [->|[->|[->|[]]]]; reflexivity. }
  change (exec_xpra channel ["xpra"; subcommand] w = (Ok false,
     World true (proxy_channel w) (proxy_process w)
       (trace w ++ [LogWarn (ProxyStartRequest subcommand); ChanClose channel]))).
  unfold_xpra. unfold index at 1. cbn [lookup list_lookup]. rewrite bind_lift_ok.
  assert (Hstrip : Py.rstrip ";" (Py.strip (DQ +:+ "'") subcommand) = subcommand).
  { revert Hin. rewrite !elem_of_cons, elem_of_nil.
    intros [->|[->|[->|[]]]]; reflexivity. }
  rewrite Hstrip, (bool_decide_eq_true_2 _ Hin), Hpolicy. simpl.
  unfold bind. rewrite emit_eq, fail_eq. simpl. by rewrite <- app_assoc.
Qed.

(** With two further arguments or more the request is accepted, and no
    argument is compared with the display name. *)
Lemma proxy_more_arguments_accepted channel command cmd0 arg1 arg2 args w :
  Py.endswith cmd0 "xpra" = true →
  shlex.split (decode_str command) = Ok (cmd0 :: "_proxy" :: arg1 :: arg2 :: args) →
  check_channel_exec_request channel command w = (Ok true, handed_over channel w).
Proof.
  intros Hends Hsplit.
  assert (Hnot : bool_decide (cmd0 ∈ ["type"; "which"; "command"]) = false).
  { apply bool_decide_eq_false_2. intros Hin.
    apply probe_names_do_not_end_with_xpra in Hin. congruence. }
  rewrite (check_channel_exec_request_tokens _ _ _ cmd0 _ Hsplit eq_refl).
  rewrite Hnot, Hends. simpl.
  unfold_xpra. unfold index at 1. cbn [lookup list_lookup].
  rewrite bind_lift_ok. simpl.
  unfold bind. by rewrite run_proxy_eq.
Qed.

(** C4, as the code has it. For a command whose first token ends with
    xpra and whose second token is [_proxy], with one further argument at
    most: with no further argument the request is accepted; with one
    further argument it is accepted when that argument is the display name
    of the server (the empty string when the server has none) and refused
    otherwise, with a warning, the channel closed, the signal set and
    [False] returned. *)
Theorem proxy_display_checked channel command cmd0 w :
  Py.endswith cmd0 "xpra" = true →
  (shlex.split (decode_str command) = Ok [cmd0; "_proxy"] →
     check_channel_exec_request channel command w = (Ok true, handed_over channel w))
  ∧ (∀ display,
       shlex.split (decode_str command) = Ok [cmd0; "_proxy"; display] →
       check_channel_exec_request channel command w =
         if bool_decide (display = default "" display_name)
         then (Ok true, handed_over channel w)
         else (Ok false,
               World true (proxy_channel w) (proxy_process w)
                 (trace w ++ [LogWarn (DisplayMismatch display (default "" display_name));
                              ChanClose channel]))).
Proof.
  intros Hends.
  assert (Hnot : bool_decide (cmd0 ∈ ["type"; "which"; "command"]) = false).
  { apply bool_decide_eq_false_2. intros Hin.
    apply probe_names_do_not_end_with_xpra in Hin. congruence. }
  split.
  - intros Hsplit.
    rewrite (check_channel_exec_request_tokens _ _ _ cmd0 _ Hsplit eq_refl).
    rewrite Hnot, Hends. simpl.
    unfold_xpra. unfold index at 1. cbn [lookup list_lookup].
    rewrite bind_lift_ok. simpl.
    unfold bind. by rewrite run_proxy_eq.
  - intros display Hsplit.
    rewrite (check_channel_exec_request_tokens _ _ _ cmd0 _ Hsplit eq_refl).
    rewrite Hnot, Hends. simpl.
    unfold_xpra. unfold index at 1. cbn [lookup list_lookup].
    rewrite bind_lift_ok. simpl. unfold index at 1. cbn [lookup list_lookup].
    rewrite bind_lift_ok.
    clear Hnot. case_bool_decide as Hd.
    + rewrite Hd, String.eqb_refl. simpl.
      unfold bind. by rewrite run_proxy_eq.
    + destruct (String.eqb_spec (default "" display_name) display) as [Heq|Hne];
        [by subst|]. simpl.
      unfold bind. rewrite emit_eq, fail_eq. simpl. by rewrite <- app_assoc.
Qed.

End SSHServerFacts.

Lemma empty_command_raises_IndexError_witness :
  shlex.split (id "") = Ok [] ∧
  exec_on_posix insertion_order no_options 7 "" w0 = (Raise IndexError, w0).
Proof.
  split; [reflexivity|].
  apply (empty_command_raises_IndexError ticking_clock accept_all true false id id
           simple_parse_bool ["xpra"] found_xpra (λ _ _, Some 1) insertion_order
           no_options (Some ":10") 7 "" w0).
  reflexivity.
Defined.

Lemma probe_rule_token_count_witness :
  shlex.split (id "which xpra") = Ok ["which"; "xpra"]
  ∧ ["which"; "xpra"] !! 0 = Some "which"
  ∧ "which" ∈ ["type"; "which"; "command"]
  ∧ exec_on_posix insertion_order no_options 7 "which xpra" w0
    = exec_probe ticking_clock accept_all true false id found_xpra 7 ["which"; "xpra"] w0.
Proof.
  assert (Hin : "which" ∈ ["type"; "which"; "command"])
    by (apply (bool_decide_unpack _); exact I).
  split; [reflexivity|]. split; [reflexivity|]. split; [exact Hin|].
  apply (probe_rule_token_count ticking_clock accept_all true false id id
           simple_parse_bool ["xpra"] found_xpra (λ _ _, Some 1) insertion_order
           no_options (Some ":10") 7 "which xpra" ["which"; "xpra"] "which" w0
           eq_refl eq_refl Hin).
  left; reflexivity.
Defined.

(** The probe finds xpra: its path and an exit status of 0 are sent. *)
Example which_xpra :
  exec_on_posix insertion_order no_options 7 "which xpra" w0
  = (Ok true,
     extend w0 [Popen ["which"; "xpra"]; Monotonic 1; Monotonic 2;
                ChanSend 7 Stdout "/usr/bin/xpra" (Ok 13);
                ChanSendExitStatus 7 0]).
Proof. vm_compute. reflexivity. Qed.

(** With four tokens the same first token is no probe: the command is
    refused by the last branch. *)
Example which_xpra_and_more :
  exec_on_posix insertion_order no_options 7 "which xpra a b" w0
  = (Ok false,
     World true None []
       [LogWarn (UnsupportedCommand ["which"; "xpra"; "a"; "b"]); ChanClose 7]).
Proof. vm_compute. reflexivity. Qed.

Lemma proxy_start_disabled_rejected_witness :
  "_proxy_start" ∈ ["_proxy_start"; "_proxy_start_desktop"; "_proxy_shadow_start"]
  ∧ id "xpra _proxy_start" = "xpra " +:+ "_proxy_start"
  ∧ truthy (simple_parse_bool "proxy-start" (no_options !! "proxy-start") false) = false
  ∧ exec_on_posix insertion_order no_options 7 "xpra _proxy_start" w0
    = (Ok false,
       World true None [] [LogWarn (ProxyStartRequest "_proxy_start"); ChanClose 7]).
Proof.
  assert (Hin : "_proxy_start" ∈ ["_proxy_start"; "_proxy_start_desktop"; "_proxy_shadow_start"])
    by (apply (bool_decide_unpack _); exact I).
  split; [exact Hin|]. split; [reflexivity|]. split; [reflexivity|].
  apply (proxy_start_disabled_rejected ticking_clock accept_all true false id id
           simple_parse_bool ["xpra"] found_xpra (λ _ _, Some 1) insertion_order
           no_options (Some ":10") 7 "xpra _proxy_start" "_proxy_start" w0
           Hin eq_refl eq_refl).
Defined.

(** With the policy enabled the same command starts the subprocess. *)
Example proxy_start_enabled :
  exec_on_posix insertion_order (<["proxy-start" := "yes"]> no_options) 7
    "xpra _proxy_start --start=xterm" w0
  = (Ok true,
     World true (Some 7) [(7, 1)]
       [ProxyPopen ["xpra"; "_proxy_start"; "--start=xterm"] (Some 1);
        ChildReaperAddProcess 1 "proxy-start-_proxy_start";
        StartThread "stderr_reader"; StartThread "stdout_reader";
        StartThread "stdin_reader"]).
Proof. vm_compute. reflexivity. Qed.

Lemma proxy_display_checked_witness :
  Py.endswith "xpra" "xpra" = true
  ∧ shlex.split (id "xpra _proxy :11") = Ok ["xpra"; "_proxy"; ":11"]
  ∧ exec_on_posix insertion_order no_options 7 "xpra _proxy :11" w0
    = (Ok false,
       World true None [] [LogWarn (DisplayMismatch ":11" ":10"); ChanClose 7]).
Proof.
  split; [reflexivity|]. split; [reflexivity|].
  apply (proj2 (proxy_display_checked ticking_clock accept_all true false id id
                  simple_parse_bool ["xpra"] found_xpra (λ _ _, Some 1)
                  insertion_order no_options (Some ":10") 7 "xpra _proxy :11"
                  "xpra" w0 eq_refl)
           ":11" eq_refl).
Defined.

(** C4, as the claim states it, fails with two further arguments: the
    first names a display that is not the display of the server, and the
    request is accepted all the same. *)
Lemma proxy_extra_arguments_skip_display_check :
  shlex.split "xpra _proxy :99 extra" = Ok ["xpra"; "_proxy"; ":99"; "extra"]
  ∧ ":99" ≠ ":10"
  ∧ exec_on_posix insertion_order no_options 7 "xpra _proxy :99 extra" w0
    = (Ok true, World true (Some 7) [] []).
Proof. split; [reflexivity|]. split; [done|]. vm_compute. reflexivity. Qed.

(** ** The long command of older clients *)

(** The last branch, given the long command and the candidates found in
    it: the handoff is decided by the element of the set of candidates that
    comes first when the set is iterated. *)
Lemma exec_legacy_eq set_order channel cmd parse_cmd subcommands w :
  parse_cmd_of cmd = Ok parse_cmd →
  legacy_subcommands (Py.split parse_cmd "if ") [] = Ok subcommands →
  exec_legacy set_order channel cmd w =
    match subcommands with
    | [] => (Ok false, refused channel cmd w)
    | _ =>
        match set_order subcommands with
        | [] => (Raise IndexError, w)
        | first :: _ =>
            if String.eqb first "_proxy"
            then (Ok true, handed_over channel w)
            else (Ok false, refused channel cmd w)
        end
    end.
Proof.
  intros Hp Hs. unfold exec_legacy.
  rewrite Hp, bind_lift_ok, Hs, bind_lift_ok.
  assert (Hrej : (emit (LogWarn (UnsupportedCommand cmd)) ;; fail channel) w
                 = (Ok false, refused channel cmd w)).
  { unfold bind. rewrite emit_eq, fail_eq. unfold refused. simpl.
    by rewrite <- app_assoc. }
  assert (Hacc : (_run_proxy channel ;; ret true) w = (Ok true, handed_over channel w)).
  { unfold bind. by rewrite run_proxy_eq. }
  destruct subcommands as [|sc subcommands]; [done|].
  unfold bind at 1, bind at 1, lift at 1, index.
  destruct (set_order (sc :: subcommands)) as [|first rest]; [done|].
  simpl. by destruct (String.eqb first "_proxy").
Qed.

(** No candidate: the command is refused. *)
Lemma exec_legacy_no_candidate set_order channel cmd parse_cmd w :
  parse_cmd_of cmd = Ok parse_cmd →
  legacy_subcommands (Py.split parse_cmd "if ") [] = Ok [] →
  exec_legacy set_order channel cmd w = (Ok false, refused channel cmd w).
Proof. intros Hp Hs. by rewrite (exec_legacy_eq _ _ _ _ _ _ Hp Hs). Qed.

(** All the candidates are [_proxy], and there is one at least: whatever
    the order of iteration, as long as it lists the elements of the set,
    the channel is handed over. *)
Lemma exec_legacy_only_proxy set_order channel cmd parse_cmd subcommands w :
  (∀ l x, x ∈ set_order l ↔ x ∈ l) →
  parse_cmd_of cmd = Ok parse_cmd →
  legacy_subcommands (Py.split parse_cmd "if ") [] = Ok subcommands →
  subcommands ≠ [] →
  (∀ x, x ∈ subcommands → x = "_proxy") →
  exec_legacy set_order channel cmd w = (Ok true, handed_over channel w).
Proof.
  intros Hset Hp Hs Hne Hall. rewrite (exec_legacy_eq _ _ _ _ _ _ Hp Hs).
  destruct subcommands as [|sc subcommands]; [done|].
  destruct (set_order (sc :: subcommands)) as [|first rest] eqn:Ho.
  - assert (sc ∈ set_order (sc :: subcommands)) as Hin by (apply Hset; left).
    rewrite Ho in Hin. by apply elem_of_nil in Hin.
  - assert (first = "_proxy") as ->.
    { apply Hall, Hset. rewrite Ho. left. }
    done.
Qed.

(** The scenario of the specification: one candidate, [_proxy]. *)
Example legacy_scenario :
  let script := ": run-xpra _proxy;xpra initenv; if type " +:+ DQ +:+ "xpra" +:+ DQ
                +:+ " > /dev/null 2>&1; then xpra _proxy; fi" in
  legacy_subcommands (Py.split script "if ") [] = Ok ["_proxy"]
  ∧ exec_on_posix reverse_order no_options 7 ("sh -c '" +:+ script +:+ "'") w0
    = (Ok true, World true (Some 7) [] []).
Proof. split; vm_compute; reflexivity. Qed.

(** A command whose [then] part, cut at the first semicolon, has a quote
    left open: [shlex.split] raises [ValueError], and the request neither
    hands over nor refuses. *)
Example legacy_open_quote_raises :
  let script := "if [ -x a ]; then a " +:+ DQ +:+ "b; c" +:+ DQ +:+ "; fi" in
  exec_on_posix insertion_order no_options 7 ("sh -c '" +:+ script +:+ "'") w0
  = (Raise ValueError, w0).
Proof. vm_compute. reflexivity. Qed.

(** C2 fails on the code. Two distinct candidates, [_proxy] and
    [_proxy_start], are found in the command below.  The test looks at the
    element of the set that is iterated first: when that is [_proxy] the
    channel is handed over, when it is [_proxy_start] the command is
    refused. *)
Theorem legacy_two_candidates_depend_on_order :
  let script := "if [ -x a ]; then a _proxy; elif [ -x b ]; then b _proxy_start; fi" in
  let command := "sh -c '" +:+ script +:+ "'" in
  shlex.split command = Ok ["sh"; "-c"; script]
  ∧ legacy_subcommands (Py.split script "if ") [] = Ok ["_proxy"; "_proxy_start"]
  ∧ exec_on_posix insertion_order no_options 7 command w0
    = (Ok true, World true (Some 7) [] [])
  ∧ exec_on_posix reverse_order no_options 7 command w0
    = (Ok false, refused 7 ["sh"; "-c"; script] w0).
Proof. repeat split; vm_compute; reflexivity. Qed.

(** ** The proxy channel slot *)

Lemma displaced_cons pc c channels :
  displaced pc (c :: channels) = option_list pc ++ displaced (Some c) channels.
Proof. unfold displaced. by rewrite removelast_app. Qed.

Lemma run_proxy_recorded c w log :
  _run_proxy_on recorded c (w, log)
  = (Ok tt, (handed_over c w, log ++ handoff_steps (proxy_channel w) c)).
Proof.
  destruct w as [ev [pc|] pp tr];
    unfold _run_proxy_on, handoff_steps, handed_over, bind; simpl;
    unfold recording; simpl; rewrite <- ?app_assoc; simpl; [done|].
  by rewrite app_nil_r.
Qed.

Lemma handoffs_eq channels w :
  handoffs channels w =
    (Ok tt,
     World (event w || bool_decide (channels ≠ []))
       (from_option Some (proxy_channel w) (last channels))
       (proxy_process w)
       (trace w ++ (ChanClose <$> displaced (proxy_channel w) channels))).
Proof.
  unfold handoffs.
  revert w. induction channels as [|c channels IH]; intros w.
  - destruct w as [ev pc pp tr]; simpl. unfold ret, displaced. simpl.
    rewrite orb_false_r. destruct pc; simpl; by rewrite app_nil_r.
  - simpl. unfold bind. fold (_run_proxy c). rewrite run_proxy_eq, IH. simpl.
    rewrite displaced_cons, fmap_app, app_assoc.
    rewrite orb_true_r.
    assert (Hlast : from_option Some (Some c) (last channels)
                    = from_option Some (proxy_channel w) (last (c :: channels))).
    { destruct channels as [|c' channels]; [done|].
      rewrite last_cons_cons.
      pose proof (last_is_Some (c' :: channels)) as [_ [x ->]]; done. }
    by rewrite Hlast.
Qed.

Lemma handoffs_recorded channels w log :
  handoffs_on recorded channels (w, log)
  = (Ok tt, ((handoffs channels w).2,
             log ++ handoffs_steps (proxy_channel w) channels)).
Proof.
  unfold handoffs.
  revert w log. induction channels as [|c channels IH]; intros w log.
  - simpl. by rewrite app_nil_r.
  - simpl. unfold bind at 1. rewrite run_proxy_recorded, IH.
    unfold bind. fold (_run_proxy c). rewrite run_proxy_eq.
    by rewrite <- app_assoc.
Qed.

(** C7. One handoff does, in this order and nothing else: it reads the
    slot; when a channel is held it clears the slot, then closes that
    channel; then it installs the new channel; then it sets the completion
    signal.  It leaves the new channel in the slot, the signal set and the
    channel held before closed.  A sequence of handoffs does the
    operations of each handoff in turn, each one on the channel the one
    before installed; after it the slot holds the channel handed over
    last, the signal is set, and the channels closed on the way are exactly
    those displaced: the one held at the start and every one handed over
    but the last. *)
Theorem proxy_channel_single_writer (channels : list channel) (w : world) :
  (∀ c,
     _run_proxy_on recorded c (w, [])
     = (Ok tt,
        (handed_over c w,
         [ReadSlot]
         ++ match proxy_channel w with
            | Some pc => [WriteSlot None; CloseChannel pc]
            | None => []
            end
         ++ [WriteSlot (Some c); EventSet]))
     ∧ _run_proxy c w
       = (set_proxy_channel (Some c) ;; set_event)
           (World (event w) None (proxy_process w)
              (trace w ++ (ChanClose <$> option_list (proxy_channel w))))
     ∧ _run_proxy c w = (Ok tt, handed_over c w))
  ∧ handoffs_on recorded channels (w, [])
    = (Ok tt, ((handoffs channels w).2, handoffs_steps (proxy_channel w) channels))
  ∧ handoffs channels w =
      (Ok tt,
       World (event w || bool_decide (channels ≠ []))
         (from_option Some (proxy_channel w) (last channels))
         (proxy_process w)
         (trace w ++ (ChanClose <$> displaced (proxy_channel w) channels))).
Proof.
  split; [intros c; split; [apply run_proxy_recorded|split; [|apply run_proxy_eq]]|].
  { destruct w as [ev [pc|] pp tr]; unfold _run_proxy, _run_proxy_on, bind; simpl;
      [done|].
    by rewrite app_nil_r. }
  split; [apply handoffs_recorded | apply handoffs_eq].
Qed.

(** Three handoffs on a connection that holds channel 1: channels 1, 2 and
    3 are closed, channel 4 is held. *)
Example three_handoffs :
  handoffs [2; 3; 4] (World false (Some 1) [] [])
  = (Ok tt, World true (Some 4) [] [ChanClose 1; ChanClose 2; ChanClose 3]).
Proof. reflexivity. Qed.

(** Two handoffs on that connection, operation by operation. *)
Example two_handoffs_recorded :
  handoffs_on recorded [2; 3] (World false (Some 1) [] [], [])
  = (Ok tt,
     (World true (Some 3) [] [ChanClose 1; ChanClose 2],
      [ReadSlot; WriteSlot None; CloseChannel 1; WriteSlot (Some 2); EventSet;
       ReadSlot; WriteSlot None; CloseChannel 2; WriteSlot (Some 3); EventSet])).
Proof. reflexivity. Qed.

(** ** Public-key authentication *)

Lemma readlines_go_nil cur s : readlines_go cur s = [] → cur = "" ∧ s = "".
Proof.
  revert cur; induction s as [|c r IH]; intros cur; simpl.
  - destruct (String.eqb_spec cur ""); [done|discriminate].
  - destruct (Ascii.eqb c "010"); [discriminate|].
    intros H. apply IH in H as [H _]. by destruct cur.
Qed.

Lemma open_rb_nonempty content :
  content ≠ "" → ∃ b lines, open_rb content = PBytes b :: lines.
Proof.
  intros Hne. unfold open_rb.
  destruct (readlines_go "" content) as [|b lines] eqn:Hl.
  - apply readlines_go_nil in Hl as [_ ?]. done.
  - by exists b, (PBytes <$> lines).
Qed.

Ltac unfold_publickey := unfold check_auth_publickey.

Section PublicKeyFacts.

Variable pubkey_auth : bool.
Variable POSIX : bool.
Variable getuid : Z.
Variable getuser : string.
Variable authorized_keys : option bytes.
Variable AUTHORIZED_KEYS_HASHES : list string.
Variable hashlib : string → option (bytes → outcome string).
Variable b64decode : bytes → outcome bytes.

Local Abbreviation check_auth_publickey :=
  (check_auth_publickey pubkey_auth POSIX getuid getuser authorized_keys
     AUTHORIZED_KEYS_HASHES hashlib b64decode).
Local Abbreviation check_lines := (check_lines AUTHORIZED_KEYS_HASHES hashlib b64decode).
Local Abbreviation check_line := (check_line AUTHORIZED_KEYS_HASHES hashlib b64decode).
Local Abbreviation hash_loop := (hash_loop hashlib).

(** A line read from the file is [bytes], and asking whether it starts
    with the [str] ["#"] raises [TypeError]. *)
Lemma check_line_bytes b hex_fingerprint st :
  check_line (PBytes b) hex_fingerprint st = (Raise TypeError, st).
Proof. reflexivity. Qed.

(** Whatever the keys, the hashes and the key presented: when the policy
    allows public keys, the user name passes and the file has a line, the
    callback raises [TypeError] on the first line. *)
Lemma check_auth_publickey_raises username fingerprint content st :
  pubkey_auth = true →
  (negb POSIX || negb (getuid =? 0)%Z) && negb (String.eqb getuser username) = false →
  authorized_keys = Some content →
  content ≠ "" →
  check_auth_publickey username fingerprint st = (Raise TypeError, st).
Proof.
  intros Hp Hu Hf Hne. unfold_publickey.
  rewrite Hp, Hu, Hf. simpl.
  destruct (open_rb_nonempty content Hne) as (b & lines & ->).
  reflexivity.
Qed.

(** The comparison of the digest, a [str], with the fingerprint in
    hexadecimal, a [bytes], never holds: the loop over the hashes returns
    nothing. *)
Lemma hash_loop_never_returns hashes key fp st v st' :
  hash_loop hashes key (PBytes fp) st ≠ (Ok (Some v), st').
Proof.
  revert st; induction hashes as [|hash_algo hashes IH]; intros st; simpl; [done|].
  destruct (hashlib hash_algo) as [hash_class|]; [|done].
  destruct (hash_class key) as [fp_plain|e]; [apply IH|].
  destruct e; try done.
  destruct (first_time _ st) as [first st1]. apply IH.
Qed.

(** The callback never answers that the key is accepted. *)
Lemma check_auth_publickey_never_succeeds username fingerprint st :
  (check_auth_publickey username fingerprint st).1 ≠ Ok paramiko.OPEN_SUCCEEDED
  ∧ (check_auth_publickey username fingerprint st).1 ≠ Ok paramiko.AUTH_SUCCESSFUL.
Proof.
  assert (H : (check_auth_publickey username fingerprint st).1 ≠ Ok 0%Z); [|done].
  unfold_publickey.
  destruct (negb pubkey_auth); [done|].
  destruct (_ && _); [done|].
  destruct authorized_keys as [content|]; [|done].
  unfold open_rb. destruct (readlines_go "" content) as [|b lines]; done.
Qed.

(** A hash that the module does not have makes the loop raise
    [AttributeError]. *)
Lemma hash_loop_unknown_name hash_algo hashes key hex_fingerprint st :
  hashlib hash_algo = None →
  hash_loop (hash_algo :: hashes) key hex_fingerprint st = (Raise AttributeError, st).
Proof. intros H. simpl. by rewrite H. Qed.









(** C1 fails on the code. Wherever the specification grants the key, the
    callback raises [TypeError] instead of answering: the lines of the file
    are [bytes] and the test for a comment hands them a [str]. *)
Theorem check_auth_publickey_raises_where_authorized username fingerprint st :
  spec_authorized pubkey_auth POSIX getuid getuser authorized_keys
    AUTHORIZED_KEYS_HASHES hashlib b64decode username fingerprint →
  check_auth_publickey username fingerprint st = (Raise TypeError, st).
Proof.
  intros (Hp & Hu & content & line & field & key & hash_algo & hash_class
          & Hf & Hline & _).
  apply (check_auth_publickey_raises _ _ content); try done.
  - destruct (negb POSIX || negb (getuid =? 0)%Z); [|done].
    rewrite (Hu eq_refl), String.eqb_refl. done.
  - intros ->. simpl in Hline. by apply elem_of_nil in Hline.
Qed.

End PublicKeyFacts.

Lemma check_auth_publickey_raises_where_authorized_witness :
  spec_authorized true true 1000 "alice" (Some alice_keys) ["md5"; "sha256"]
    fips_hashlib one_key_b64decode "alice" "key"
  ∧ check_auth_publickey true true 1000 "alice" (Some alice_keys) ["md5"; "sha256"]
      fips_hashlib one_key_b64decode "alice" "key" no_warnings
    = (Raise TypeError, no_warnings).
Proof.
  assert (H : spec_authorized true true 1000 "alice" (Some alice_keys) ["md5"; "sha256"]
                fips_hashlib one_key_b64decode "alice" "key").
  { split; [reflexivity|]. split; [reflexivity|].
    exists alice_keys, alice_keys, "a2V5", "key", "sha256", (λ key, Ok (hexlify key)).
    split; [reflexivity|]. split; [left|].
    split; [reflexivity|]. split; [reflexivity|]. split; [reflexivity|].
    split; [right; left|]. split; reflexivity. }
  split; [exact H|].
  exact (check_auth_publickey_raises_where_authorized true true 1000 "alice"
           (Some alice_keys) ["md5"; "sha256"] fips_hashlib one_key_b64decode
           "alice" "key" no_warnings H).
Defined.

(** An empty file is read without harm: the key is refused. *)
Example check_auth_publickey_empty_file :
  check_auth_publickey true true 1000 "alice" (Some "") ["md5"; "sha256"]
    fips_hashlib one_key_b64decode "alice" "key" no_warnings
  = (Ok paramiko.AUTH_FAILED, no_warnings).
Proof. reflexivity. Qed.

(** The loop over the hashes on a host in FIPS mode: [md5] raises
    [ValueError] and is passed over with one warning, also when the loop
    runs again; a hash name that the module does not have, like
    [ripemd160], would make the loop raise [AttributeError].  In the
    callback as it is written no line of the file reaches the loop. *)
Example hash_loop_on_fips_host :
  let once := hash_loop fips_hashlib ["md5"; "sha256"] "key" (PBytes "6b6579") no_warnings in
  let again := hash_loop fips_hashlib ["md5"; "sha256"] "key" (PBytes "6b6579") once.2 in
  let unknown := hash_loop fips_hashlib ["md5"; "ripemd160"; "sha256"] "key"
                   (PBytes "6b6579") no_warnings in
  fips_hashlib "md5" = Some (λ _, Raise ValueError)
  ∧ fips_hashlib "ripemd160" = None
  ∧ once.1 = Ok None
  ∧ warnings once.2 = [UnsupportedHash "md5"]
  ∧ again.1 = Ok None
  ∧ warnings again.2 = [UnsupportedHash "md5"]
  ∧ unknown.1 = Raise AttributeError.
Proof. repeat split; vm_compute; reflexivity. Qed.

Section PublicKeyHashes.

Variable pubkey_auth : bool.
Variable POSIX : bool.
Variable getuid : Z.
Variable getuser : string.
Variable authorized_keys : option bytes.
Variable AUTHORIZED_KEYS_HASHES : list string.
Variable hashlib : string → option (bytes → outcome string).
Variable b64decode : bytes → outcome bytes.


End PublicKeyHashes.


(** ** The connection that [make_ssh_server_connection] returns *)

Lemma bind_ok_inv {S A B} (m : ST S A) (k : A → ST S B) s b s' :
  bind m k s = (Ok b, s') → ∃ a s1, m s = (Ok a, s1) ∧ k a s1 = (Ok b, s').
Proof.
  unfold bind. destruct (m s) as [[a|e] s1]; [|done]. intros H. by exists a, s1.
Qed.

Lemma keeps_t_ret {A} (a : A) : keeps_t (ret a).
Proof. by intros s r s' [= <- <-]. Qed.

Lemma keeps_t_raise {A} e : keeps_t (@raise _ A e).
Proof. by intros s r s' [= <- <-]. Qed.

Lemma keeps_t_emit a : keeps_t (Bootstrap.emit a).
Proof. by intros s r s' [= <- <-]. Qed.

Lemma keeps_t_bind {A B} (m : ST Bootstrap.state A) (k : A → ST Bootstrap.state B) :
  keeps_t m → (∀ a, keeps_t (k a)) → keeps_t (bind m k).
Proof.
  intros Hm Hk s r s'. unfold bind.
  destruct (m s) as [[a|e] s1] eqn:Hms.
  - intros H. rewrite (Hk _ _ _ _ H). eapply Hm, Hms.
  - intros [= <- <-]. eapply Hm, Hms.
Qed.

Lemma keeps_t_if {A} (b : bool) (m1 m2 : ST Bootstrap.state A) :
  keeps_t m1 → keeps_t m2 → keeps_t (if b then m1 else m2).
Proof. by destruct b. Qed.

Lemma keeps_t_close : keeps_t Bootstrap.close.
Proof.
  intros s r s'. unfold Bootstrap.close, bind, Bootstrap.emit, ret.
  destruct (Bootstrap.t s) eqn:Ht; simpl; intros [= <- <-]; simpl; done.
Qed.

Ltac keeps_t :=
  repeat first
    [ assumption
    | apply keeps_t_ret | apply keeps_t_raise | apply keeps_t_emit | apply keeps_t_close
    | apply keeps_t_bind; [|intros ?; cbv beta]
    | apply keeps_t_if ].

Section MakeConnectionFacts.

Variable socket_options : gmap string string.
Variable DoGSSAPIKeyExchange : bool.
Variable getfqdn : string.
Variable os_path_split : string → string * string.
Variable os_path_join : string → string → string.
Variable get_ssh_conf_dirs : list string.
Variable osexpand : string → string.
Variable is_dir : string → bool.
Variable listdir : string → list string.
Variable upper : string → string.
Variable transport_new : outcome unit.
Variable key_class : string → option string.
Variable load_key : string → string → outcome Bootstrap.host_key.
Variable start_server : outcome unit.
Variable accept : outcome (option channel).
Variable event_wait : bool.
Variable ssh_server : world.

Local Abbreviation add_host_key :=
  (Bootstrap.add_host_key os_path_join upper key_class load_key).
Local Abbreviation add_host_keys :=
  (Bootstrap.add_host_keys os_path_join upper key_class load_key).
Local Abbreviation scan_dirs :=
  (Bootstrap.scan_dirs os_path_join osexpand is_dir listdir upper key_class load_key).
Local Abbreviation load_host_keys :=
  (Bootstrap.load_host_keys socket_options os_path_split os_path_join
     get_ssh_conf_dirs osexpand is_dir listdir upper key_class load_key).
Local Abbreviation start_transport :=
  (Bootstrap.start_transport socket_options DoGSSAPIKeyExchange getfqdn os_path_split
     os_path_join get_ssh_conf_dirs osexpand is_dir listdir upper transport_new key_class
     load_key start_server).
Local Abbreviation accept_channel := (Bootstrap.accept_channel accept).
Local Abbreviation await_handoff :=
  (Bootstrap.await_handoff socket_options event_wait ssh_server).
Local Abbreviation make_ssh_server_connection :=
  (Bootstrap.make_ssh_server_connection socket_options DoGSSAPIKeyExchange getfqdn
     os_path_split os_path_join get_ssh_conf_dirs osexpand is_dir listdir
     upper transport_new key_class load_key start_server accept event_wait ssh_server).

Lemma keeps_t_add_host_key fd f : keeps_t (add_host_key fd f).
Proof.
  unfold Bootstrap.add_host_key.
  destruct (String.eqb _ ""); [keeps_t|].
  destruct (match key_class _ with Some k => Some k | None => _ end) as [keyclass|];
    [|keeps_t].
  destruct (load_key keyclass _) as [k|e].
  - intros s r s'. by destruct (bool_decide _); intros [= <- <-].
  - destruct e; keeps_t.
Qed.

Lemma keeps_t_add_host_keys fd files : keeps_t (add_host_keys fd files).
Proof.
  induction files as [|f files IH]; simpl; [keeps_t|].
  pose proof (keeps_t_add_host_key fd f). keeps_t.
Qed.

Lemma keeps_t_scan_dirs dirs : keeps_t (scan_dirs dirs).
Proof.
  induction dirs as [|d dirs IH]; simpl; [keeps_t|].
  pose proof (keeps_t_add_host_keys (osexpand d) (listdir (osexpand d))).
  keeps_t.
Qed.

Lemma keeps_t_load_host_keys : keeps_t load_host_keys.
Proof.
  assert (Hend : ∀ m, keeps_t (λ s, if bool_decide (Bootstrap.host_keys s = [])
                         then (Bootstrap.emit (Bootstrap.Log m) ;; Bootstrap.close ;; ret false) s
                         else (Ok true, s))).
  { intros m s r s'. destruct (bool_decide _); [|by intros [= <- <-]].
    revert s r s'. change (keeps_t (Bootstrap.emit (Bootstrap.Log m) ;; Bootstrap.close ;; ret false)).
    keeps_t. }
  unfold Bootstrap.load_host_keys.
  destruct (negb _).
  - destruct (os_path_split _) as [d f].
    pose proof (keeps_t_add_host_key d f). keeps_t. apply Hend.
  - pose proof (keeps_t_scan_dirs get_ssh_conf_dirs). keeps_t. apply Hend.
Qed.

(** When the first [try] runs to its end the transport exists; and when
    it returns, it returns [None]. *)
Lemma start_transport_inv s r s1 :
  start_transport s = (Ok r, s1) →
  (r = None ∧ Bootstrap.t s1 = true) ∨ r = Some None.
Proof.
  unfold Bootstrap.start_transport. intros H.
  apply bind_ok_inv in H as ([] & s2 & _ & H).
  apply bind_ok_inv in H as ([] & s3 & _ & H).
  apply bind_ok_inv in H as ([] & s4 & Ht & H).
  injection Ht as <-.
  apply bind_ok_inv in H as ([] & s5 & He & H).
  injection He as <-.
  apply bind_ok_inv in H as (loaded & s6 & Hl & H).
  apply keeps_t_load_host_keys in Hl. simpl in Hl.
  destruct loaded; [|injection H as <- <-; by right].
  apply bind_ok_inv in H as ([] & s7 & He & H). injection He as <-.
  apply bind_ok_inv in H as ([] & s8 & Hs & H).
  injection H as <- <-. left. split; [done|].
  unfold lift in Hs. injection Hs as _ <-. done.
Qed.

Lemma close_eq s : Bootstrap.close s = (Ok tt, Bootstrap.extend s (Bootstrap.closes s)).
Proof.
  unfold Bootstrap.close, Bootstrap.closes, Bootstrap.extend, bind, Bootstrap.emit, ret.
  destruct (Bootstrap.t s) eqn:Ht; simpl; rewrite ?Ht; [|done].
  by rewrite <- app_assoc.
Qed.

(** The end of the function, case by case. *)
Lemma await_handoff_eq conn s :
  await_handoff conn s =
    let s1 := Bootstrap.extend s [Bootstrap.EventWait] in
    match event ssh_server, proxy_channel ssh_server with
    | true, Some proxy_channel =>
        match Bootstrap.proxy_process_of proxy_channel ssh_server with
        | Some _ => (Ok None, s1)
        | None => (Ok (Some (Bootstrap.wrap socket_options proxy_channel conn)), s1)
        end
    | _, _ =>
        (Ok None,
         Bootstrap.extend s
           ([Bootstrap.EventWait]
            ++ (if event_wait then [] else [Bootstrap.Log Bootstrap.TimeoutWaiting])
            ++ Bootstrap.closes s))
    end.
Proof.
  assert (Hclose :
    ((if negb event_wait then Bootstrap.emit (Bootstrap.Log Bootstrap.TimeoutWaiting)
      else ret tt) ;; Bootstrap.close ;; ret None) (Bootstrap.extend s [Bootstrap.EventWait])
    = (@Ok (option Bootstrap.SSHSocketConnection) None,
       Bootstrap.extend s
         ([Bootstrap.EventWait]
          ++ (if event_wait then [] else [Bootstrap.Log Bootstrap.TimeoutWaiting])
          ++ Bootstrap.closes s))).
  { unfold bind. destruct event_wait; simpl.
    - rewrite close_eq. unfold ret, Bootstrap.extend, Bootstrap.closes. simpl.
      by rewrite <- !app_assoc.
    - rewrite close_eq. unfold ret, Bootstrap.extend, Bootstrap.closes. simpl.
      by rewrite <- !app_assoc. }
  unfold Bootstrap.await_handoff. unfold bind at 1.
  change (Bootstrap.emit Bootstrap.EventWait s)
    with (Ok tt, Bootstrap.extend s [Bootstrap.EventWait]).
  cbv zeta.
  destruct (event ssh_server); [|exact Hclose].
  destruct (proxy_channel ssh_server) as [pc|]; [|exact Hclose].
  by destruct (Bootstrap.proxy_process_of pc ssh_server).
Qed.

Lemma make_ssh_server_connection_accepted conn s s1 chan :
  start_transport s = (Ok None, s1) →
  accept = Ok (Some chan) →
  make_ssh_server_connection conn s
  = await_handoff conn (Bootstrap.extend s1 [Bootstrap.Accept]).
Proof.
  intros Hs Ha. unfold Bootstrap.make_ssh_server_connection. rewrite Hs.
  unfold bind at 1, Bootstrap.accept_channel. rewrite Ha. reflexivity.
Qed.

(** C8. Once the transport is started and the client has a channel:
    when the completion signal is not set, or no proxy channel is
    recorded, the transport and the connection are closed and [None] is
    returned; when the proxy channel recorded has a subprocess, [None] is
    returned and nothing is closed; when it has none, the connection that
    wraps the proxy channel recorded (an [SSHSocketConnection] made of that
    channel, the socket, the local address, the endpoint and the target of
    [conn], and the socket options) is returned, and nothing is closed.
    And a connection is returned in that last case only: every other
    path, from the first line on, returns [None] or raises. *)
Theorem make_ssh_server_connection_only_on_handoff conn s :
  (∀ s1 chan,
     start_transport s = (Ok None, s1) →
     accept = Ok (Some chan) →
     let s2 := Bootstrap.extend s1 [Bootstrap.Accept; Bootstrap.EventWait] in
     (event ssh_server = false ∨ proxy_channel ssh_server = None →
        make_ssh_server_connection conn s
        = (Ok None,
           Bootstrap.extend s2
             ((if event_wait then [] else [Bootstrap.Log Bootstrap.TimeoutWaiting])
              ++ [Bootstrap.TransportClose; Bootstrap.ConnClose])))
     ∧ (∀ pc p,
          event ssh_server = true →
          proxy_channel ssh_server = Some pc →
          Bootstrap.proxy_process_of pc ssh_server = Some p →
          make_ssh_server_connection conn s = (Ok None, s2))
     ∧ (∀ pc,
          event ssh_server = true →
          proxy_channel ssh_server = Some pc →
          Bootstrap.proxy_process_of pc ssh_server = None →
          make_ssh_server_connection conn s
          = (Ok (Some (Bootstrap.SSHSocketConnection_ pc (Bootstrap._socket conn)
                         (Bootstrap.local conn) (Bootstrap.endpoint conn)
                         (Bootstrap.target conn) socket_options)), s2)))
  ∧ (∀ c s',
       make_ssh_server_connection conn s = (Ok (Some c), s') →
       ∃ s1 chan pc,
         start_transport s = (Ok None, s1)
         ∧ accept = Ok (Some chan)
         ∧ event ssh_server = true
         ∧ proxy_channel ssh_server = Some pc
         ∧ Bootstrap.proxy_process_of pc ssh_server = None
         ∧ c = Bootstrap.SSHSocketConnection_ pc (Bootstrap._socket conn)
                 (Bootstrap.local conn) (Bootstrap.endpoint conn)
                 (Bootstrap.target conn) socket_options
         ∧ s' = Bootstrap.extend s1 [Bootstrap.Accept; Bootstrap.EventWait]).
Proof.
  assert (Hext : ∀ s1 a b,
    Bootstrap.extend (Bootstrap.extend s1 a) b = Bootstrap.extend s1 (a ++ b)).
  { intros s1 a b. unfold Bootstrap.extend. simpl. by rewrite <- app_assoc. }
  split.
  - intros s1 chan Hs Ha s2.
    rewrite (make_ssh_server_connection_accepted _ _ _ _ Hs Ha), await_handoff_eq.
    apply start_transport_inv in Hs as [[_ Ht]|[=]].
    cbv zeta. rewrite Hext. fold s2.
    split; [|split].
    + unfold s2. rewrite Hext.
      assert (Hc : Bootstrap.closes (Bootstrap.extend s1 [Bootstrap.Accept])
                   = [Bootstrap.TransportClose; Bootstrap.ConnClose]).
      { unfold Bootstrap.closes. simpl. by rewrite Ht. }
      rewrite Hc.
      intros [He|Hpc]; [rewrite He|rewrite Hpc; destruct (event ssh_server)];
        rewrite Hext; reflexivity.
    + intros pc p -> -> Hp. by rewrite Hp.
    + intros pc -> -> Hp. by rewrite Hp.
  - intros c s' H. unfold Bootstrap.make_ssh_server_connection in H.
    destruct (start_transport s) as [[r|e] s1] eqn:Hs.
    2:{ destruct e; try done;
          cbv beta iota delta [bind Bootstrap.emit] in H; rewrite close_eq in H; done. }
    destruct (start_transport_inv _ _ _ Hs) as [[-> Ht]| ->]; [|done].
    destruct accept as [[chan|]|e] eqn:Ha.
    + assert (H' : await_handoff conn (Bootstrap.extend s1 [Bootstrap.Accept])
                   = (Ok (Some c), s')).
      { revert H. by unfold bind at 1, Bootstrap.accept_channel. }
      rewrite await_handoff_eq in H'. cbv zeta in H'. rewrite Hext in H'.
      destruct (event ssh_server); [|done].
      destruct (proxy_channel ssh_server) as [pc|]; [|done].
      destruct (Bootstrap.proxy_process_of pc ssh_server) eqn:Hp; [done|].
      injection H' as <- <-. by exists s1, chan, pc.
    + revert H. unfold Bootstrap.accept_channel.
      cbv beta iota delta [bind Bootstrap.emit]. by rewrite close_eq.
    + revert H. unfold Bootstrap.accept_channel.
      destruct e; try done;
        cbv beta iota delta [bind Bootstrap.emit]; by rewrite close_eq.
Qed.

End MakeConnectionFacts.

(** The three ends of the function on the example host: the direct
    handoff, the subprocess, and the signal that never came. *)
Example serve_direct_handoff :
  serve true (World true (Some 7) [] [])
  = (Ok (Some (Bootstrap.SSHSocketConnection_ 7 3 "192.168.0.1:22" "192.168.0.1:22"
                   "192.168.0.7:50000" ∅)), served).
Proof. vm_compute. reflexivity. Qed.

Example serve_subprocess :
  serve true (World true (Some 7) [(7, 1)] [])
  = (Ok None, served).
Proof. vm_compute. reflexivity. Qed.

Example serve_timeout :
  serve false (World false None [] [])
  = (Ok None,
     Bootstrap.extend served
       [Bootstrap.Log Bootstrap.TimeoutWaiting; Bootstrap.TransportClose;
        Bootstrap.ConnClose]).
Proof. vm_compute. reflexivity. Qed.

Lemma make_ssh_server_connection_only_on_handoff_witness :
  event (World true (Some 7) [] []) = true
  ∧ proxy_channel (World true (Some 7) [] []) = Some 7
  ∧ Bootstrap.proxy_process_of 7 (World true (Some 7) [] []) = None
  ∧ serve true (World true (Some 7) [] [])
    = (Ok (Some (Bootstrap.SSHSocketConnection_ 7 3 "192.168.0.1:22" "192.168.0.1:22"
                   "192.168.0.7:50000" ∅)), served).
Proof.
  split; [reflexivity|]. split; [reflexivity|]. split; [reflexivity|].
  refine (proj2 (proj2 (proj1
    (make_ssh_server_connection_only_on_handoff ∅ false "gateway" (λ p, ("", p))
       unix_join ["/etc/ssh"] id (λ d, String.eqb d "/etc/ssh") etc_ssh
       Bootstrap.upper_ascii (Ok tt) paramiko_classes (λ _ _, Ok 1) (Ok tt)
       (Ok (Some 7)) true
       (World true (Some 7) [] []) client Bootstrap.start)
    (Bootstrap.State true [(1, "/etc/ssh/ssh_host_rsa_key")]
       [Bootstrap.TransportNew false; Bootstrap.SetGssHost "gateway";
        Bootstrap.AddServerKey 1; Bootstrap.StartServer])
    7 _ eq_refl)) 7 eq_refl eq_refl eq_refl).
  vm_compute. reflexivity.
Defined.

(** From the exec request to the connection: the server object a request
    leaves is the one the wait ends on.  A handoff gives the connection, a
    refused command closes everything, and a subprocess keeps the channel
    for itself. *)
Example exec_then_serve :
  serve true (exec_on_posix insertion_order no_options 7 "xpra _proxy :10" w0).2
  = (Ok (Some (Bootstrap.SSHSocketConnection_ 7 3 "192.168.0.1:22" "192.168.0.1:22"
                   "192.168.0.7:50000" ∅)), served)
  ∧ serve true (exec_on_posix insertion_order no_options 7 "xpra _proxy :11" w0).2
    = (Ok None, Bootstrap.extend served [Bootstrap.TransportClose; Bootstrap.ConnClose])
  ∧ serve true (exec_on_posix insertion_order (<["proxy-start" := "yes"]> no_options) 7
                  "xpra _proxy_start" w0).2
    = (Ok None, served).
Proof. repeat split; vm_compute; reflexivity. Qed.

(** * Properties of the rest of the code *)

(** ** [chan_send]: bounds and order *)

Lemma append_cons c s t : String c s +:+ t = String c (s +:+ t).
Proof. reflexivity. Qed.

Lemma append_empty_r s : s +:+ "" = s.
Proof. induction s as [|c s IH]; [done|]. by rewrite append_cons, IH. Qed.

Lemma append_assoc_s s t u : (s +:+ t) +:+ u = s +:+ (t +:+ u).
Proof. induction s as [|c s IH]; [done|]. by rewrite !append_cons, IH. Qed.

Lemma slice_to_from n s : Py.slice_to n s +:+ Py.slice_from n s = s.
Proof.
  revert s; induction n as [|n IH]; intros [|c s]; simpl; try done.
  by rewrite append_cons, IH.
Qed.

Lemma slice_from_shorter n s :
  n ≠ 0 → s ≠ "" → String.length (Py.slice_from n s) < String.length s.
Proof.
  destruct n as [|n]; [done|]. destruct s as [|c s]; [done|]. intros _ _. simpl.
  pose proof (slice_from_length n s). lia.
Qed.

Lemma send_run_writes c s start timeout data acts rest :
  send_run c s start timeout data acts rest →
  writes acts <= String.length data ∧ length acts <= 2 * String.length data + 1.
Proof.
  induction 1 as [|data t Hne|data t Hne|data t e Hne|data t n acts r' Hne Hw Hn Hrun IH];
    simpl; try (destruct data; simpl in *; [done|lia]); [lia|].
  pose proof (slice_from_shorter n data Hn Hne). lia.
Qed.

Lemma send_run_sent_bytes c s start timeout data acts rest :
  send_run c s start timeout data acts rest →
  sent_bytes acts +:+ Py.slice_from (accepted acts) data = data.
Proof.
  induction 1 as [|data t|data t|data t e|data t n acts r' Hne Hw Hn Hrun IH];
    simpl; try done.
  rewrite append_assoc_s, <- slice_from_slice_from, IH. apply slice_to_from.
Qed.

(** X1. [chan_send] attempts at most as many writes as the buffer has
    bytes, whatever the channel answers and whatever the clock says: every
    write but the last takes a byte at least.  With the clock readings the
    run has at most twice as many effects, plus two. *)
Theorem chan_send_writes_bounded
    (clock : list action → float)
    (send_result : list action → channel → stream → bytes → outcome nat)
    (c : channel) (s : stream) (data : bytes) (w : world) :
  ∃ res acts,
    chan_send clock (channel_send send_result c s) data default_timeout w
      = (res, extend w acts)
    ∧ writes acts <= String.length data
    ∧ length acts <= 2 * String.length data + 2.
Proof.
  unfold chan_send. destruct (String.eqb data "").
  { exists (Ok tt), []. rewrite extend_nil. simpl. split; [done|]. split; lia. }
  unfold bind at 1. rewrite monotonic_eq.
  destruct (chan_send_loop_run clock send_result c s (clock (trace w)) default_timeout
              data (extend w [Monotonic (clock (trace w))]))
    as (acts & rest & Heq & Hrun).
  apply send_run_writes in Hrun as [Hw Hl].
  unfold bind. rewrite Heq, extend_extend.
  exists (match rest with
          | Ok rest => if negb (String.eqb rest "")
                       then Raise (Exception "failed to send all the data") else Ok tt
          | Raise e => Raise e
          end), (Monotonic (clock (trace w)) :: acts).
  split; [|simpl; split; lia].
  destruct rest as [rest|e]; [|done]. by destruct (negb _).
Qed.

(** X2. The bytes the channel accepts are the bytes of the buffer, in
    order: what was accepted followed by what is left is the buffer, and
    when [chan_send] returns, what was accepted is the whole buffer. *)
Theorem chan_send_preserves_order
    (clock : list action → float)
    (send_result : list action → channel → stream → bytes → outcome nat)
    (c : channel) (s : stream) (data : bytes) (w : world) :
  ∃ res acts,
    chan_send clock (channel_send send_result c s) data default_timeout w
      = (res, extend w acts)
    ∧ sent_bytes acts +:+ Py.slice_from (accepted acts) data = data
    ∧ (res = Ok tt → sent_bytes acts = data).
Proof.
  unfold chan_send. destruct (String.eqb data "") eqn:He.
  { apply String.eqb_eq in He as ->.
    exists (Ok tt), []. rewrite extend_nil. by simpl. }
  unfold bind at 1. rewrite monotonic_eq.
  destruct (chan_send_loop_run clock send_result c s (clock (trace w)) default_timeout
              data (extend w [Monotonic (clock (trace w))]))
    as (acts & rest & Heq & Hrun).
  pose proof (send_run_sent_bytes _ _ _ _ _ _ _ Hrun) as Hsent.
  unfold bind. rewrite Heq, extend_extend.
  destruct rest as [rest|e].
  - pose proof (send_run_rest _ _ _ _ _ _ _ Hrun) as Hrest.
    destruct (String.eqb rest "") eqn:Hr; simpl.
    + apply String.eqb_eq in Hr. rewrite Hr in Hrest.
      exists (Ok tt), (Monotonic (clock (trace w)) :: acts).
      split; [done|]. split; [done|]. intros _. simpl.
      rewrite <- Hrest, append_empty_r in Hsent. done.
    + exists (Raise (Exception "failed to send all the data")),
        (Monotonic (clock (trace w)) :: acts). by simpl.
  - exists (Raise e), (Monotonic (clock (trace w)) :: acts). by simpl.
Qed.

(** ** The authentication methods that are advertised *)

(** X3. The list that [get_allowed_auths] gives names a method exactly
    when the policy enables it, and nothing else: no GSSAPI method is ever
    advertised, and both GSSAPI callbacks fail.  A method whose callback can
    answer that the client is authenticated is always in the list. *)
Theorem allowed_auths_match_policy
    (none_auth pubkey_auth : bool) (password_auth : option (string → string → bool))
    (username password : string) :
  let advertised :=
    Py.split (get_allowed_auths none_auth pubkey_auth password_auth username) "," in
  ("none" ∈ advertised ↔ none_auth = true)
  ∧ ("publickey" ∈ advertised ↔ pubkey_auth = true)
  ∧ ("password" ∈ advertised ↔ is_Some password_auth)
  ∧ (∀ m, m ∈ advertised → m ∈ ["none"; "publickey"; "password"; ""])
  ∧ (check_auth_none none_auth username = paramiko.AUTH_SUCCESSFUL →
     "none" ∈ advertised)
  ∧ (check_auth_password password_auth username password = paramiko.AUTH_SUCCESSFUL →
     "password" ∈ advertised)
  ∧ check_auth_gssapi_keyex username = paramiko.AUTH_FAILED
  ∧ check_auth_gssapi_with_mic username = paramiko.AUTH_FAILED.
Proof.
  destruct none_auth, pubkey_auth, password_auth as [check|];
    unfold check_auth_none, check_auth_password; cbn zeta;
    repeat match goal with |- _ ∧ _ => split end;
    try reflexivity;
    vm_compute Py.split;
    rewrite ?elem_of_cons, ?elem_of_nil, ?is_Some_alt;
    try (intros m; rewrite ?elem_of_cons, ?elem_of_nil);
    try (destruct (check username password));
    intuition (discriminate || auto).
Qed.

(** ** What the exec request leaves behind *)

Ltac unfold_proxy_start := unfold proxy_start.

Section SSHServerOutcomes.

Variable clock : list action → float.
Variable send_result : list action → channel → stream → bytes → outcome nat.
Variable POSIX WIN32 : bool.
Variable decode_str : bytes → string.
Variable osexpand : string → string.
Variable parse_bool : string → option string → bool → option bool.
Variable get_xpra_command : list string.
Variable popen_communicate : list action → list string → string + bytes * bytes * Z.
Variable proxy_popen : list action → list string → option process.
Variable set_order : list string → list string.
Variable options : gmap string string.
Variable display_name : option string.

Local Abbreviation check_channel_exec_request :=
  (check_channel_exec_request clock send_result POSIX WIN32 decode_str osexpand
     parse_bool get_xpra_command popen_communicate proxy_popen set_order
     options display_name).
Local Abbreviation exec_probe :=
  (exec_probe clock send_result POSIX WIN32 osexpand popen_communicate).
Local Abbreviation exec_xpra :=
  (exec_xpra parse_bool get_xpra_command proxy_popen options display_name).
Local Abbreviation exec_legacy := (exec_legacy set_order).
Local Abbreviation proxy_start := (proxy_start get_xpra_command proxy_popen).

Lemma exec_probe_cases channel cmd w :
  ∃ r w', exec_probe channel cmd w = (r, w')
          ∧ (raised w r w' ∨ probed channel w r w').
Proof.
  assert (Hext : ∃ r acts, exec_probe channel cmd w = (r, extend w acts)).
  { unfold_probe. destruct POSIX; simpl.
    - unfold bind at 1. rewrite emit_eq. unfold bind at 1.
      set (w1 := extend w _).
      destruct (popen_communicate (trace w1) _) as [e|[[out err] rc]].
      + unfold bind at 1.
        destruct (chan_send_extends clock send_result channel Stderr
                    ("failed to execute command: " +:+ e) default_timeout w1)
          as (r & acts & ->).
        destruct r as [[]|]; unfold w1; rewrite ?emit_eq, ?extend_extend;
          unfold ret; eauto.
      + unfold bind at 1.
        destruct (chan_send_extends clock send_result channel Stdout out
                    default_timeout w1) as (r & acts & ->).
        destruct r as [[]|]; [|unfold w1; rewrite extend_extend; eauto].
        unfold bind at 1.
        destruct (chan_send_extends clock send_result channel Stderr err
                    default_timeout (extend w1 acts)) as (r2 & acts2 & ->).
        destruct r2 as [[]|]; unfold w1; rewrite ?emit_eq, ?extend_extend;
          unfold ret; eauto.
    - destruct WIN32; [|exists (Raise AssertionError), []; by rewrite extend_nil].
      unfold bind at 1, ret at 1. unfold bind at 1.
      destruct (String.eqb _ "xpra"); unfold bind at 1.
      + destruct (chan_send_extends clock send_result channel Stdout "xpra is xpra"
                    default_timeout w) as (r & acts & ->).
        destruct r as [[]|]; rewrite ?emit_eq, ?extend_extend; unfold ret; eauto.
      + destruct (chan_send_extends clock send_result channel Stderr
                    ("type: " +:+ List.last cmd "" +:+ ": not found")
                    default_timeout w) as (r & acts & ->).
        destruct r as [[]|]; rewrite ?emit_eq, ?extend_extend; unfold ret; eauto. }
  destruct Hext as (r & acts & Heq). exists r, (extend w acts). split; [done|].
  destruct r as [b|e]; [right|left; by exists e, acts].
  destruct (exec_probe_answers _ _ _ _ _ _ _ _ _ _ _ Heq) as (-> & acts' & status & Hw).
  split; [done|]. by exists acts', status.
Qed.

Lemma proxy_start_eq channel subcommand args w :
  ∃ pp acts,
    proxy_start channel subcommand args w
    = (Ok tt, World (event w) (proxy_channel w) pp (trace w ++ acts)).
Proof.
  unfold_proxy_start.
  destruct (proxy_popen (trace w) _) as [proc|].
  - eexists _, _. unfold bind, emit, set_proxy_process; simpl.
    rewrite <- !app_assoc. reflexivity.
  - eexists _, _. reflexivity.
Qed.

Lemma warn_fail_eq channel warning w :
  (emit (LogWarn warning) ;; fail channel) w
  = (Ok false, World true (proxy_channel w) (proxy_process w)
                 (trace w ++ [LogWarn warning] ++ [ChanClose channel])).
Proof. unfold bind. rewrite emit_eq, fail_eq. simpl. by rewrite <- app_assoc. Qed.

Lemma run_proxy_handed channel w0 w :
  proxy_channel w = proxy_channel w0 →
  (∃ acts, trace w = trace w0 ++ acts) →
  ∃ w', (_run_proxy channel ;; ret true) w = (Ok true, w')
        ∧ handed channel w0 (Ok true) w'.
Proof.
  intros Hpc [acts Htr]. eexists. unfold bind at 1. rewrite run_proxy_eq.
  split; [reflexivity|]. repeat split; simpl.
  exists (acts ++ (ChanClose <$> option_list (proxy_channel w))).
  by rewrite Htr, <- app_assoc.
Qed.

Lemma exec_xpra_cases channel cmd w :
  ∃ r w', exec_xpra channel cmd w = (r, w')
          ∧ (raised w r w' ∨ failed channel w r w' ∨ handed channel w r w').
Proof.
  assert (Hraise : ∀ e, raised w (@Raise bool e) w).
  { intros e. exists e, []. by rewrite extend_nil. }
  assert (Hfail : ∀ warning, ∃ r w',
    (emit (LogWarn warning) ;; fail channel) w = (r, w')
    ∧ (raised w r w' ∨ failed channel w r w' ∨ handed channel w r w')).
  { intros warning. eexists _, _. split; [apply warn_fail_eq|].
    right; left. split; [done|]. by eexists. }
  assert (Hrun : ∃ r w',
    (_run_proxy channel ;; ret true) w = (r, w')
    ∧ (raised w r w' ∨ failed channel w r w' ∨ handed channel w r w')).
  { destruct (run_proxy_handed channel w w eq_refl) as (w' & Heq & Hh).
    { exists []. by rewrite app_nil_r. }
    eauto 6. }
  unfold_xpra. destruct (index cmd 1) as [cmd1|e]; [|by eexists _, _; eauto].
  rewrite bind_lift_ok. cbv zeta.
  case_bool_decide.
  - destruct (negb (truthy _)); [apply Hfail|].
    unfold bind at 1.
    destruct (proxy_start_eq channel (Py.rstrip ";" (Py.strip (DQ +:+ "'") cmd1))
                (drop 2 cmd) w) as (pp & acts & ->).
    destruct (run_proxy_handed channel w
                (World (event w) (proxy_channel w) pp (trace w ++ acts)) eq_refl)
      as (w' & Heq & Hh); [by exists acts|].
    eauto 6.
  - destruct (String.eqb _ "_proxy"); [|apply Hfail].
    case_bool_decide; [|apply Hrun].
    destruct (index cmd 2) as [display|e]; [|by eexists _, _; eauto].
    rewrite bind_lift_ok. cbv zeta.
    destruct (negb _); [apply Hfail|apply Hrun].
Qed.

Lemma exec_legacy_cases channel cmd w :
  ∃ r w', exec_legacy channel cmd w = (r, w')
          ∧ (raised w r w' ∨ failed channel w r w' ∨ handed channel w r w').
Proof.
  assert (Hraise : ∀ e, raised w (@Raise bool e) w).
  { intros e. exists e, []. by rewrite extend_nil. }
  assert (Hend : ∀ proxy : bool, ∃ r w',
    (if proxy then _run_proxy channel ;; ret true
     else emit (LogWarn (UnsupportedCommand cmd)) ;; fail channel) w = (r, w')
    ∧ (raised w r w' ∨ failed channel w r w' ∨ handed channel w r w')).
  { intros [|].
    - destruct (run_proxy_handed channel w w eq_refl) as (w' & Heq & Hh).
      { exists []. by rewrite app_nil_r. }
      eauto 6.
    - eexists _, _. split; [apply warn_fail_eq|].
      right; left. split; [done|]. by eexists. }
  unfold_legacy.
  destruct (parse_cmd_of cmd) as [parse_cmd|e]; [|by eexists _, _; eauto].
  rewrite bind_lift_ok.
  destruct (legacy_subcommands _ _) as [subcommands|e]; [|by eexists _, _; eauto].
  rewrite bind_lift_ok.
  destruct subcommands as [|sc subcommands].
  - apply (Hend false).
  - unfold bind at 1, bind at 1, lift at 1.
    destruct (index (set_order _) 0) as [first|e]; [|by eexists _, _; eauto].
    apply Hend.
Qed.

(** Every exec request ends in one of the four ways. *)
Lemma check_channel_exec_request_cases channel command w :
  ∃ r w', check_channel_exec_request channel command w = (r, w')
          ∧ (raised w r w' ∨ probed channel w r w'
             ∨ failed channel w r w' ∨ handed channel w r w').
Proof.
  unfold_request.
  destruct (shlex.split (decode_str command)) as [cmd|e].
  2:{ eexists _, _. split; [reflexivity|]. left. exists e, []. by rewrite extend_nil. }
  rewrite bind_lift_ok.
  destruct (index cmd 0) as [cmd0|e].
  2:{ eexists _, _. split; [reflexivity|]. left. exists e, []. by rewrite extend_nil. }
  rewrite bind_lift_ok.
  destruct (_ && _).
  { destruct (exec_probe_cases channel cmd w) as (r & w' & Heq & [H|H]); eauto 7. }
  destruct (_ && _).
  - destruct (exec_xpra_cases channel cmd w) as (r & w' & Heq & [H|[H|H]]); eauto 8.
  - destruct (exec_legacy_cases channel cmd w) as (r & w' & Heq & [H|[H|H]]); eauto 8.
Qed.

(** X4. A refused exec request (the callback returns [False]) releases
    the caller that waits for the completion signal, closes the requesting
    channel as the last thing it does, and leaves the proxy channel and the
    subprocesses of the channels as they were. *)
Theorem exec_request_refusal channel command w :
  ∃ r w',
    check_channel_exec_request channel command w = (r, w')
    ∧ (r = Ok false →
       event w' = true
       ∧ proxy_channel w' = proxy_channel w
       ∧ proxy_process w' = proxy_process w
       ∧ ∃ acts, trace w' = trace w ++ acts ++ [ChanClose channel]).
Proof.
  destruct (check_channel_exec_request_cases channel command w)
    as (r & w' & Heq & Hcases).
  exists r, w'. split; [done|]. intros ->.
  destruct Hcases as [(e & acts & [=] & _)|[[[=] _]|[[_ (acts & ->)]|[[=] _]]]].
  simpl. eauto.
Qed.

(** X5. An exec request that ends with an exception neither sets the
    completion signal nor touches the proxy channel or the subprocesses:
    it only adds to what was done on the channels. *)
Theorem exec_request_exception_untouched channel command w :
  ∃ r w',
    check_channel_exec_request channel command w = (r, w')
    ∧ (∀ e, r = Raise e → untouched w w' ∧ ∃ acts, trace w' = trace w ++ acts).
Proof.
  destruct (check_channel_exec_request_cases channel command w)
    as (r & w' & Heq & Hcases).
  exists r, w'. split; [done|]. intros e ->.
  destruct Hcases as [(e' & acts & _ & ->)|[[[=] _]|[[[=] _]|[[=] _]]]].
  split; [done|]. by exists acts.
Qed.

(** X6. An accepted exec request (the callback returns [True]) is either
    a handoff, with the signal set and the requesting channel as the proxy
    channel, or the answer of the probe, which ends with the exit status
    sent on the channel and leaves the signal and the proxy channel as they
    were. *)
Theorem exec_request_accepted channel command w :
  ∃ r w',
    check_channel_exec_request channel command w = (r, w')
    ∧ (r = Ok true →
       (event w' = true ∧ proxy_channel w' = Some channel)
       ∨ (untouched w w'
          ∧ ∃ acts status,
              trace w' = trace w ++ acts ++ [ChanSendExitStatus channel status])).
Proof.
  destruct (check_channel_exec_request_cases channel command w)
    as (r & w' & Heq & Hcases).
  exists r, w'. split; [done|]. intros ->.
  destruct Hcases
    as [(e & acts & [=] & _)|[[_ (acts & status & ->)]|[[[=] _]|(_ & Hev & Hpc & _)]]].
  - right. split; [done|]. by exists acts, status.
  - by left.
Qed.

(** X7. Whatever the command, an exec request never clears the completion
    signal, never removes a recorded effect, and the proxy channel is
    afterwards the one it was or the requesting channel. *)
Theorem exec_request_monotone channel command w :
  ∃ r w',
    check_channel_exec_request channel command w = (r, w')
    ∧ (event w = true → event w' = true)
    ∧ (∃ acts, trace w' = trace w ++ acts)
    ∧ (proxy_channel w' = proxy_channel w ∨ proxy_channel w' = Some channel).
Proof.
  destruct (check_channel_exec_request_cases channel command w)
    as (r & w' & Heq & Hcases).
  exists r, w'. split; [done|].
  destruct Hcases
    as [(e & acts & _ & ->)|[[_ (acts & status & ->)]|[[_ (acts & ->)]
        |(_ & Hev & Hpc & Htr)]]]; simpl; eauto 6.
Qed.

(** The tokens of a proxy-start request on a server that allows it. *)
Lemma proxy_start_request channel command cmd0 cmd1 args w :
  shlex.split (decode_str command) = Ok (cmd0 :: cmd1 :: args) →
  Py.endswith cmd0 "xpra" = true →
  Py.rstrip ";" (Py.strip (DQ +:+ "'") cmd1)
    ∈ ["_proxy_start"; "_proxy_start_desktop"; "_proxy_shadow_start"] →
  truthy (parse_bool "proxy-start" (options !! "proxy-start") false) = true →
  check_channel_exec_request channel command w
  = (proxy_start channel (Py.rstrip ";" (Py.strip (DQ +:+ "'") cmd1)) args ;;
     _run_proxy channel ;; ret true) w.
Proof.
  intros Hsplit Hend Hsub Hallowed. unfold_request.
  rewrite Hsplit, bind_lift_ok. unfold index at 1. cbn [lookup list_lookup].
  rewrite bind_lift_ok.
  assert (Hprobe : bool_decide (cmd0 ∈ ["type"; "which"; "command"]) = false).
  { apply bool_decide_eq_false. intros Hin.
    apply probe_names_do_not_end_with_xpra in Hin. congruence. }
  rewrite Hprobe, Hend. cbn [andb].
  rewrite bool_decide_eq_true_2 by (simpl; lia).
  unfold_xpra. unfold index at 1. cbn [lookup list_lookup].
  rewrite bind_lift_ok. cbv zeta.
  rewrite (bool_decide_eq_true_2 _ Hsub), Hallowed. reflexivity.
Qed.

(** X8. A proxy-start request whose subprocess cannot be started is
    accepted all the same: nothing is registered and no thread is started,
    yet the channel becomes the proxy channel, the signal is set and the
    callback returns [True], as for a plain [_proxy] request. *)
Theorem proxy_start_popen_failure channel command cmd0 cmd1 args w :
  let subcommand := Py.rstrip ";" (Py.strip (DQ +:+ "'") cmd1) in
  let cmd := get_xpra_command ++ [subcommand] ++ args in
  shlex.split (decode_str command) = Ok (cmd0 :: cmd1 :: args) →
  Py.endswith cmd0 "xpra" = true →
  subcommand ∈ ["_proxy_start"; "_proxy_start_desktop"; "_proxy_shadow_start"] →
  truthy (parse_bool "proxy-start" (options !! "proxy-start") false) = true →
  proxy_popen (trace w) cmd = None →
  check_channel_exec_request channel command w
  = (Ok true,
     World true (Some channel) (proxy_process w)
       (trace w ++ [ProxyPopen cmd None]
        ++ (ChanClose <$> option_list (proxy_channel w)))).
Proof.
  intros subcommand cmd Hsplit Hend Hsub Hallowed Hpopen.
  rewrite (proxy_start_request _ _ _ _ _ _ Hsplit Hend Hsub Hallowed).
  unfold bind at 1. unfold_proxy_start. fold subcommand cmd. rewrite Hpopen.
  rewrite emit_eq. unfold bind at 1. rewrite run_proxy_eq. simpl.
  by rewrite <- app_assoc.
Qed.

(** X9. A proxy-start request whose subprocess starts registers the
    process with the child reaper, starts the three forwarding threads in
    the order stderr, stdout, stdin, records the process for the channel
    and hands the channel over. *)
Theorem proxy_start_popen_success channel command cmd0 cmd1 args proc w :
  let subcommand := Py.rstrip ";" (Py.strip (DQ +:+ "'") cmd1) in
  let cmd := get_xpra_command ++ [subcommand] ++ args in
  shlex.split (decode_str command) = Ok (cmd0 :: cmd1 :: args) →
  Py.endswith cmd0 "xpra" = true →
  subcommand ∈ ["_proxy_start"; "_proxy_start_desktop"; "_proxy_shadow_start"] →
  truthy (parse_bool "proxy-start" (options !! "proxy-start") false) = true →
  proxy_popen (trace w) cmd = Some proc →
  ∃ w',
    check_channel_exec_request channel command w = (Ok true, w')
    ∧ event w' = true
    ∧ proxy_channel w' = Some channel
    ∧ proxy_process w' = (channel, proc) :: proxy_process w
    ∧ trace w'
      = trace w
        ++ [ProxyPopen cmd (Some proc);
            ChildReaperAddProcess proc ("proxy-start-" +:+ subcommand);
            StartThread "stderr_reader"; StartThread "stdout_reader";
            StartThread "stdin_reader"]
        ++ (ChanClose <$> option_list (proxy_channel w)).
Proof.
  intros subcommand cmd Hsplit Hend Hsub Hallowed Hpopen.
  rewrite (proxy_start_request _ _ _ _ _ _ Hsplit Hend Hsub Hallowed).
  unfold bind at 1. unfold_proxy_start. fold subcommand cmd. rewrite Hpopen.
  unfold bind, emit, set_proxy_process; simpl. rewrite run_proxy_eq. simpl.
  eexists. split; [reflexivity|]. simpl. repeat split.
  by rewrite <- !app_assoc.
Qed.

End SSHServerOutcomes.

Lemma proxy_start_popen_failure_witness :
  exec_without_popen 7 "xpra _proxy_start :10" w0
  = (Ok true,
     World true (Some 7) [] ([] ++ [ProxyPopen (["xpra"] ++ ["_proxy_start"] ++ [":10"]) None]
                             ++ (ChanClose <$> option_list None))).
Proof.
  assert (Hin : "_proxy_start" ∈ ["_proxy_start"; "_proxy_start_desktop"; "_proxy_shadow_start"])
    by (apply (bool_decide_unpack _); exact I).
  assert (Hallowed : truthy (simple_parse_bool "proxy-start"
                               (<["proxy-start" := "yes"]> no_options !! "proxy-start")
                               false) = true)
    by (vm_compute; reflexivity).
  apply (proxy_start_popen_failure ticking_clock accept_all true false id id
           simple_parse_bool ["xpra"] found_xpra (λ _ _, None) insertion_order
           (<["proxy-start" := "yes"]> no_options) (Some ":10") 7
           "xpra _proxy_start :10" "xpra" "_proxy_start" [":10"] w0
           eq_refl eq_refl Hin Hallowed eq_refl).
Defined.

Lemma proxy_start_popen_success_witness :
  ∃ w',
    exec_on_posix insertion_order (<["proxy-start" := "yes"]> no_options) 7
      "xpra _proxy_shadow_start :10" w0 = (Ok true, w')
    ∧ event w' = true
    ∧ proxy_channel w' = Some 7
    ∧ proxy_process w' = (7, 1) :: []
    ∧ trace w'
      = []
        ++ [ProxyPopen (["xpra"] ++ ["_proxy_shadow_start"] ++ [":10"]) (Some 1);
            ChildReaperAddProcess 1 ("proxy-start-" +:+ "_proxy_shadow_start");
            StartThread "stderr_reader"; StartThread "stdout_reader";
            StartThread "stdin_reader"]
        ++ (ChanClose <$> option_list None).
Proof.
  assert (Hin : "_proxy_shadow_start"
                ∈ ["_proxy_start"; "_proxy_start_desktop"; "_proxy_shadow_start"])
    by (apply (bool_decide_unpack _); exact I).
  assert (Hallowed : truthy (simple_parse_bool "proxy-start"
                               (<["proxy-start" := "yes"]> no_options !! "proxy-start")
                               false) = true)
    by (vm_compute; reflexivity).
  apply (proxy_start_popen_success ticking_clock accept_all true false id id
           simple_parse_bool ["xpra"] found_xpra (λ _ _, Some 1) insertion_order
           (<["proxy-start" := "yes"]> no_options) (Some ":10") 7
           "xpra _proxy_shadow_start :10" "xpra" "_proxy_shadow_start" [":10"] 1 w0
           eq_refl eq_refl Hin Hallowed eq_refl).
Defined.

(** ** Host keys and closing in [make_ssh_server_connection] *)

Lemma hoare_ret {A} (a : A) P Q :
  (∀ s, P s → Q (Ok a) s) → hoare P (ret a) Q.
Proof. intros H s r s' HP [= <- <-]. by apply H. Qed.

Lemma hoare_lift {A} (o : outcome A) P Q :
  (∀ s, P s → Q o s) → hoare P (lift o) Q.
Proof. intros H s r s' HP [= <- <-]. by apply H. Qed.

Lemma hoare_emit a P Q :
  (∀ s, P s → Q (Ok tt) (Bootstrap.extend s [a])) → hoare P (Bootstrap.emit a) Q.
Proof. intros H s r s' HP [= <- <-]. by apply H. Qed.

Lemma hoare_bind {A B} (m : ST Bootstrap.state A) (k : A → ST Bootstrap.state B)
    P R Q :
  hoare P m R →
  (∀ a, hoare (R (Ok a)) (k a) Q) →
  (∀ e s, R (Raise e) s → Q (Raise e) s) →
  hoare P (bind m k) Q.
Proof.
  intros Hm Hk He s r s' HP. unfold bind.
  destruct (m s) as [[a|e] s1] eqn:Hms.
  - apply (Hk a). by apply (Hm _ _ _ HP Hms).
  - intros [= <- <-]. apply He. by apply (Hm _ _ _ HP Hms).
Qed.

Lemma hoare_conseq {A} (m : ST Bootstrap.state A) (P P' : Bootstrap.state → Prop)
    (Q Q' : outcome A → Bootstrap.state → Prop) :
  hoare P' m Q' → (∀ s, P s → P' s) → (∀ r s, Q' r s → Q r s) → hoare P m Q.
Proof. intros Hm HP HQ s r s' H Heq. apply HQ. eapply Hm; [by apply HP|done]. Qed.

Lemma inv_ret {A} (a : A) P : inv P (ret a).
Proof. by apply hoare_ret. Qed.

Lemma inv_raise {A} e P : inv P (@raise _ A e).
Proof. by intros s r s' HP [= <- <-]. Qed.

Lemma inv_lift {A} (o : outcome A) P : inv P (lift o).
Proof. by apply hoare_lift. Qed.

Lemma inv_bind {A B} (m : ST Bootstrap.state A) (k : A → ST Bootstrap.state B) P :
  inv P m → (∀ a, inv P (k a)) → inv P (bind m k).
Proof. intros Hm Hk. by apply (hoare_bind m k P (λ _, P)). Qed.

Lemma inv_if {A} (b : bool) (m1 m2 : ST Bootstrap.state A) P :
  inv P m1 → inv P m2 → inv P (if b then m1 else m2).
Proof. by destruct b. Qed.

Lemma inv_emit a (P : Bootstrap.state → Prop) :
  (∀ s, P s → P (Bootstrap.extend s [a])) → inv P (Bootstrap.emit a).
Proof. intros H. by apply (hoare_emit a P (λ _, P)). Qed.

Lemma inv_close (P : Bootstrap.state → Prop) :
  (∀ s a, closing a = true → P s → P (Bootstrap.extend s [a])) →
  inv P Bootstrap.close.
Proof.
  intros H s r s' HP. unfold Bootstrap.close.
  assert (He : ∀ a, closing a = true → inv P (Bootstrap.emit a)).
  { intros a Ha. apply inv_emit. intros. by apply H. }
  destruct (Bootstrap.t s); intros Heq.
  - refine (inv_bind _ _ P _ _ s r s' HP Heq); [|intros []]; by apply He.
  - refine (inv_bind _ _ P _ _ s r s' HP Heq); [apply inv_ret|intros []].
    by apply He.
Qed.

Lemma server_keys_app tr1 tr2 :
  server_keys (tr1 ++ tr2) = server_keys tr1 ++ server_keys tr2.
Proof.
  induction tr1 as [|a tr1 IH]; [done|].
  destruct a; simpl; by rewrite ?IH.
Qed.

Lemma inv_and {A} (m : ST Bootstrap.state A) (P Q : Bootstrap.state → Prop) :
  inv P m → inv Q m → inv (λ s, P s ∧ Q s) m.
Proof. intros HP HQ s r s' [H1 H2] Heq. split; [eapply HP|eapply HQ]; eauto. Qed.

Lemma writes_only_ret {A} (a : A) F : writes_only F (ret a).
Proof. intros s r s' [= <- <-]. exists []. by rewrite app_nil_r. Qed.

Lemma writes_only_raise {A} e F : writes_only F (@raise _ A e).
Proof. intros s r s' [= <- <-]. exists []. by rewrite app_nil_r. Qed.

Lemma writes_only_lift {A} (o : outcome A) F : writes_only F (lift o).
Proof. intros s r s' [= <- <-]. exists []. by rewrite app_nil_r. Qed.

Lemma writes_only_emit a (F : Bootstrap.action → Prop) :
  F a → writes_only F (Bootstrap.emit a).
Proof. intros Ha s r s' [= <- <-]. exists [a]. split; [done|]. by constructor. Qed.

Lemma writes_only_bind {A B} (m : ST Bootstrap.state A) (k : A → ST Bootstrap.state B) F :
  writes_only F m → (∀ a, writes_only F (k a)) → writes_only F (bind m k).
Proof.
  intros Hm Hk s r s'. unfold bind.
  destruct (m s) as [[a|e] s1] eqn:Hms.
  - intros Hks. destruct (Hm _ _ _ Hms) as (acts1 & Ht1 & HF1).
    destruct (Hk _ _ _ _ Hks) as (acts2 & Ht2 & HF2).
    exists (acts1 ++ acts2). rewrite Ht2, Ht1, <- app_assoc.
    split; [done|]. by apply Forall_app.
  - intros [= <- <-]. eapply Hm, Hms.
Qed.

Lemma writes_only_if {A} (b : bool) (m1 m2 : ST Bootstrap.state A) F :
  writes_only F m1 → writes_only F m2 → writes_only F (if b then m1 else m2).
Proof. by destruct b. Qed.

Lemma writes_only_inv {A} (m : ST Bootstrap.state A) F (T : list Bootstrap.action → Prop) :
  writes_only F m →
  (∀ tr acts, T tr → Forall F acts → T (tr ++ acts)) →
  inv (λ s, T (Bootstrap.trace s)) m.
Proof.
  intros Hm HT s r s' Hs Heq. destruct (Hm _ _ _ Heq) as (acts & -> & HF).
  by apply HT.
Qed.

Ltac writes_only :=
  repeat first
    [ assumption
    | apply writes_only_ret | apply writes_only_raise | apply writes_only_lift
    | apply writes_only_emit; exact I
    | apply writes_only_bind; [|intros ?; cbv beta]
    | apply writes_only_if ].

Ltac inv_steps :=
  repeat first
    [ assumption
    | apply inv_ret | apply inv_raise | apply inv_lift
    | apply inv_bind; [|intros ?; cbv beta]
    | apply inv_if ].

Ltac unfold_make := unfold Bootstrap.make_ssh_server_connection.

Section MakeConnectionInvariants.

Variable socket_options : gmap string string.
Variable DoGSSAPIKeyExchange : bool.
Variable getfqdn : string.
Variable os_path_split : string → string * string.
Variable os_path_join : string → string → string.
Variable get_ssh_conf_dirs : list string.
Variable osexpand : string → string.
Variable is_dir : string → bool.
Variable listdir : string → list string.
Variable upper : string → string.
Variable transport_new : outcome unit.
Variable key_class : string → option string.
Variable load_key : string → string → outcome Bootstrap.host_key.
Variable start_server : outcome unit.
Variable accept : outcome (option channel).
Variable event_wait : bool.
Variable ssh_server : world.

Local Abbreviation add_host_key :=
  (Bootstrap.add_host_key os_path_join upper key_class load_key).
Local Abbreviation add_host_keys :=
  (Bootstrap.add_host_keys os_path_join upper key_class load_key).
Local Abbreviation scan_dirs :=
  (Bootstrap.scan_dirs os_path_join osexpand is_dir listdir upper key_class load_key).
Local Abbreviation load_host_keys :=
  (Bootstrap.load_host_keys socket_options os_path_split os_path_join
     get_ssh_conf_dirs osexpand is_dir listdir upper key_class load_key).
Local Abbreviation start_transport :=
  (Bootstrap.start_transport socket_options DoGSSAPIKeyExchange getfqdn os_path_split
     os_path_join get_ssh_conf_dirs osexpand is_dir listdir upper transport_new key_class
     load_key start_server).
Local Abbreviation accept_channel := (Bootstrap.accept_channel accept).
Local Abbreviation await_handoff :=
  (Bootstrap.await_handoff socket_options event_wait ssh_server).
Local Abbreviation make_ssh_server_connection :=
  (Bootstrap.make_ssh_server_connection socket_options DoGSSAPIKeyExchange getfqdn
     os_path_split os_path_join get_ssh_conf_dirs osexpand is_dir listdir
     upper transport_new key_class load_key start_server accept event_wait ssh_server).
Local Abbreviation from_key_files := (from_key_files os_path_join key_class load_key).
Local Abbreviation keys_ok := (keys_ok os_path_join key_class load_key).

(** *** The keys of the transport *)

(** What is done besides adding a key leaves the keys as they are. *)
Lemma keys_ok_same s s' :
  Bootstrap.host_keys s' = Bootstrap.host_keys s →
  server_keys (Bootstrap.trace s') = server_keys (Bootstrap.trace s) →
  keys_ok s → keys_ok s'.
Proof.
  intros Hk Ht [[Hreg Hnd] Hfiles]. unfold keys_ok, keys_registered, from_key_files.
  rewrite Hk, Ht. done.
Qed.

Lemma keys_ok_emit a : (∀ k, a ≠ Bootstrap.AddServerKey k) → inv keys_ok (Bootstrap.emit a).
Proof.
  intros Ha. apply inv_emit. intros s. apply keys_ok_same; [done|].
  simpl. rewrite server_keys_app. destruct a; simpl; rewrite ?app_nil_r; try done.
  by destruct (Ha k).
Qed.

Lemma keys_ok_close : inv keys_ok Bootstrap.close.
Proof.
  apply inv_close. intros s a Ha. apply keys_ok_same; [done|].
  simpl. rewrite server_keys_app. destruct a; simpl; rewrite ?app_nil_r; done.
Qed.

Ltac keys_ok :=
  repeat first
    [ assumption
    | apply inv_ret | apply inv_raise | apply inv_lift
    | apply keys_ok_close
    | apply keys_ok_emit; discriminate
    | apply inv_bind; [|intros ?; cbv beta]
    | apply inv_if ].

Lemma keys_ok_add_host_key fd f :
  Bootstrap.is_host_key_file f = true → inv keys_ok (add_host_key fd f).
Proof.
  intros Hf. unfold Bootstrap.add_host_key.
  destruct (String.eqb _ ""); [keys_ok|].
  set (name1 := upper _ +:+ "Key").
  set (name2 := upper _ +:+ _ +:+ "Key").
  assert (Hclass : ∀ keyclass,
    match key_class name1 with Some k => Some k | None => key_class name2 end
    = Some keyclass → ∃ name, key_class name = Some keyclass).
  { intros keyclass. destruct (key_class name1) eqn:H1; [intros [= <-]|intros H2]; eauto. }
  destruct (match key_class name1 with Some k => Some k | None => _ end)
    as [keyclass|]; [|keys_ok].
  destruct (Hclass keyclass eq_refl) as [name Hname].
  destruct (load_key keyclass _) as [k|e] eqn:Hload.
  - intros s r s' [[Hreg Hnd] Hfiles].
    case_bool_decide as Hin; intros [= <- <-]; [done|].
    split; [split|]; simpl.
    + rewrite server_keys_app, fmap_app, Hreg. done.
    + rewrite fmap_app. apply NoDup_app. split; [done|]. split.
      * intros x Hx [->|[]%elem_of_nil]%elem_of_cons. done.
      * apply NoDup_singleton.
    + intros k' ff' [Hold|[[= -> ->]|[]%elem_of_nil]%elem_of_cons]%elem_of_app.
      * by apply Hfiles.
      * exists fd, f, name, keyclass. done.
  - destruct e; keys_ok.
Qed.

Lemma keys_ok_add_host_keys fd files : inv keys_ok (add_host_keys fd files).
Proof.
  induction files as [|f files IH]; simpl; [keys_ok|].
  destruct (Bootstrap.is_host_key_file f) eqn:Hf; [|keys_ok].
  pose proof (keys_ok_add_host_key fd f Hf). keys_ok.
Qed.

Lemma keys_ok_scan_dirs dirs : inv keys_ok (scan_dirs dirs).
Proof.
  induction dirs as [|d dirs IH]; simpl; [keys_ok|].
  pose proof (keys_ok_add_host_keys (osexpand d) (listdir (osexpand d))).
  keys_ok.
Qed.

Lemma keys_ok_load_host_keys : inv keys_ok load_host_keys.
Proof.
  assert (Hend : ∀ m, inv keys_ok
            (λ s, if bool_decide (Bootstrap.host_keys s = [])
                  then (Bootstrap.emit (Bootstrap.Log m) ;; Bootstrap.close ;; ret false) s
                  else (Ok true, s))).
  { intros m s r s' HP. destruct (bool_decide _); [|by intros [= <- <-]].
    revert s r s' HP.
    change (inv keys_ok (Bootstrap.emit (Bootstrap.Log m) ;; Bootstrap.close ;; ret false)).
    keys_ok. }
  unfold Bootstrap.load_host_keys.
  destruct (negb _).
  - destruct (os_path_split _) as [d f].
    destruct (Bootstrap.is_host_key_file f) eqn:Hf.
    + pose proof (keys_ok_add_host_key d f Hf). keys_ok. apply Hend.
    + keys_ok. apply Hend.
  - pose proof (keys_ok_scan_dirs get_ssh_conf_dirs). keys_ok. apply Hend.
Qed.

Lemma keys_ok_start_transport : inv keys_ok start_transport.
Proof.
  unfold Bootstrap.start_transport.
  pose proof keys_ok_load_host_keys.
  assert (inv keys_ok (λ s, (Ok tt, Bootstrap.State true (Bootstrap.host_keys s)
                                      (Bootstrap.trace s)))).
  { intros s r s' HP [= <- <-]. by apply (keys_ok_same s). }
  keys_ok.
Qed.

Lemma keys_ok_accept_channel : inv keys_ok accept_channel.
Proof.
  unfold Bootstrap.accept_channel.
  destruct accept as [[chan|]|e]; [| |destruct e]; keys_ok.
Qed.

Lemma keys_ok_await_handoff conn : inv keys_ok (await_handoff conn).
Proof.
  unfold Bootstrap.await_handoff.
  destruct (event ssh_server), (proxy_channel ssh_server) as [pc|];
    try destruct (Bootstrap.proxy_process_of pc ssh_server); keys_ok.
Qed.

Lemma keys_ok_make_ssh_server_connection conn :
  inv keys_ok (make_ssh_server_connection conn).
Proof.
  intros s r s' HP. unfold_make.
  destruct (start_transport s) as [r1 s1] eqn:Hst.
  apply (keys_ok_start_transport _ _ _ HP) in Hst.
  pose proof keys_ok_accept_channel. pose proof (keys_ok_await_handoff conn).
  assert (Hclose : inv keys_ok
            (Bootstrap.emit (Bootstrap.Log Bootstrap.ErrorHandlingConnection) ;;
             Bootstrap.close ;;
             ret (@None Bootstrap.SSHSocketConnection))) by keys_ok.
  destruct r1 as [[r1|]|e].
  - by intros [= <- <-].
  - assert (Hrest : inv keys_ok
              (let* r := accept_channel in
               match r with Some r => ret r | None => await_handoff conn end)).
    { apply inv_bind; [done|]. intros [r2|]; keys_ok. }
    apply (Hrest _ _ _ Hst).
  - destruct e; try (by intros [= <- <-]); apply (Hclose _ _ _ Hst).
Qed.

(** X10. The transport is given exactly the keys recorded in
    [host_keys], in the order in which they were recorded, and no key
    twice, however the function ends. *)
Theorem host_keys_registered_once conn :
  ∃ r s',
    make_ssh_server_connection conn Bootstrap.start = (r, s')
    ∧ server_keys (Bootstrap.trace s') = (Bootstrap.host_keys s').*1
    ∧ NoDup (server_keys (Bootstrap.trace s')).
Proof.
  destruct (make_ssh_server_connection conn Bootstrap.start) as [r s'] eqn:Heq.
  exists r, s'. split; [done|].
  assert (Hstart : keys_ok Bootstrap.start).
  { split; [split; [done|constructor]|]. by intros k ff []%elem_of_nil. }
  destruct (keys_ok_make_ssh_server_connection conn _ _ _ Hstart Heq) as [[Hreg Hnd] _].
  split; [done|]. by rewrite Hreg.
Qed.

(** X11. Every key the transport is given was read by a key class of
    paramiko from a file whose name starts with [ssh_host_] and ends with
    [_key]. *)
Theorem host_keys_from_key_files conn :
  ∃ r s',
    make_ssh_server_connection conn Bootstrap.start = (r, s')
    ∧ ∀ k, k ∈ server_keys (Bootstrap.trace s') →
        ∃ fd f name keyclass,
          Py.startswith f Bootstrap.PREFIX = true
          ∧ Py.endswith f Bootstrap.SUFFIX = true
          ∧ key_class name = Some keyclass
          ∧ load_key keyclass (os_path_join fd f) = Ok k.
Proof.
  destruct (make_ssh_server_connection conn Bootstrap.start) as [r s'] eqn:Heq.
  exists r, s'. split; [done|].
  assert (Hstart : keys_ok Bootstrap.start).
  { split; [split; [done|constructor]|]. by intros k ff []%elem_of_nil. }
  destruct (keys_ok_make_ssh_server_connection conn _ _ _ Hstart Heq) as [[Hreg _] Hfiles].
  intros k. rewrite Hreg. intros ([k' ff] & -> & Hin)%list_elem_of_fmap.
  destruct (Hfiles _ _ Hin) as (fd & f & name & keyclass & -> & Hf & Hclass & Hload).
  apply andb_prop in Hf as [Hpre Hsuf].
  by exists fd, f, name, keyclass.
Qed.

(** *** What is done to load the keys *)

Lemma writes_only_add_host_key fd f : writes_only key_loading (add_host_key fd f).
Proof.
  unfold Bootstrap.add_host_key.
  destruct (String.eqb _ ""); [writes_only|].
  destruct (match key_class _ with Some k => Some k | None => _ end) as [keyclass|];
    [|writes_only].
  destruct (load_key keyclass _) as [k|e].
  - intros s r s'. case_bool_decide; intros [= <- <-]; simpl.
    + exists []. by rewrite app_nil_r.
    + exists [Bootstrap.AddServerKey k]. split; [done|]. by constructor.
  - destruct e; writes_only.
Qed.

Lemma writes_only_add_host_keys fd files :
  writes_only key_loading (add_host_keys fd files).
Proof.
  induction files as [|f files IH]; simpl; [writes_only|].
  pose proof (writes_only_add_host_key fd f). writes_only.
Qed.

Lemma writes_only_scan_dirs dirs : writes_only key_loading (scan_dirs dirs).
Proof.
  induction dirs as [|d dirs IH]; simpl; [writes_only|].
  pose proof (writes_only_add_host_keys (osexpand d) (listdir (osexpand d))).
  writes_only.
Qed.

Lemma closes_extend s acts : Bootstrap.closes (Bootstrap.extend s acts) = Bootstrap.closes s.
Proof. reflexivity. Qed.

Lemma boot_extend_extend s a b :
  Bootstrap.extend (Bootstrap.extend s a) b = Bootstrap.extend s (a ++ b).
Proof. unfold Bootstrap.extend; simpl. by rewrite <- app_assoc. Qed.

Lemma boot_emit_eq a s : Bootstrap.emit a s = (Ok tt, Bootstrap.extend s [a]).
Proof. reflexivity. Qed.

(** Logging a message, closing and returning. *)
Lemma log_close_ret {A} m (a : A) s :
  (Bootstrap.emit (Bootstrap.Log m) ;; Bootstrap.close ;; ret a) s
  = (Ok a, Bootstrap.extend s ([Bootstrap.Log m] ++ Bootstrap.closes s)).
Proof.
  unfold bind at 1. change (Bootstrap.emit (Bootstrap.Log m) s)
    with (Ok tt, Bootstrap.extend s [Bootstrap.Log m]).
  cbv beta iota. unfold bind at 1. rewrite close_eq. cbv beta iota.
  by rewrite closes_extend, boot_extend_extend.
Qed.

(** *** The first [try], for any property that loading a key keeps *)

Section Loading.

Variable P : Bootstrap.state → Prop.
Hypothesis P_add_host_key :
  ∀ fd f, Bootstrap.is_host_key_file f = true → inv P (add_host_key fd f).

Lemma inv_add_host_keys fd files : inv P (add_host_keys fd files).
Proof.
  induction files as [|f files IH]; simpl; [inv_steps|].
  destruct (Bootstrap.is_host_key_file f) eqn:Hf; [|inv_steps].
  pose proof (P_add_host_key fd f Hf). inv_steps.
Qed.

Lemma inv_scan_dirs dirs : inv P (scan_dirs dirs).
Proof.
  induction dirs as [|d dirs IH]; simpl; [inv_steps|].
  pose proof (inv_add_host_keys (osexpand d) (listdir (osexpand d))).
  inv_steps.
Qed.

(** [load_host_keys] ends with a key at least, or closes after a message,
    or raises what loading a key raised. *)
Lemma load_host_keys_hoare :
  hoare P load_host_keys
    (λ r s', match r with
             | Ok true => P s' ∧ Bootstrap.host_keys s' ≠ []
             | Ok false =>
                 ∃ s1 m, P s1
                         ∧ s' = Bootstrap.extend s1
                                  ([Bootstrap.Log m] ++ Bootstrap.closes s1)
             | Raise _ => P s'
             end).
Proof.
  assert (Hend : ∀ m,
    hoare P (λ s, if bool_decide (Bootstrap.host_keys s = [])
                  then (Bootstrap.emit (Bootstrap.Log m) ;; Bootstrap.close ;; ret false) s
                  else (Ok true, s))
      (λ r s', match r with
               | Ok true => P s' ∧ Bootstrap.host_keys s' ≠ []
               | Ok false =>
                   ∃ s1 m, P s1
                           ∧ s' = Bootstrap.extend s1
                                    ([Bootstrap.Log m] ++ Bootstrap.closes s1)
               | Raise _ => P s'
               end)).
  { intros m s r s' HP. case_bool_decide.
    - rewrite log_close_ret. intros [= <- <-]. by exists s, m.
    - by intros [= <- <-]. }
  unfold Bootstrap.load_host_keys.
  destruct (negb _).
  - destruct (os_path_split _) as [d f].
    eapply (hoare_bind _ _ P (λ _, P)); [|intros u; apply Hend|done].
    destruct (Bootstrap.is_host_key_file f) eqn:Hf; [|inv_steps].
    pose proof (P_add_host_key d f Hf). inv_steps.
  - eapply (hoare_bind _ _ P (λ _, P)); [|intros u; apply Hend|done].
    apply inv_scan_dirs.
Qed.

Hypothesis P_setting_up :
  ∀ s a, setting_up a → P s → P (Bootstrap.extend s [a]).
Hypothesis P_transport :
  ∀ s, P s → P (Bootstrap.State true (Bootstrap.host_keys s) (Bootstrap.trace s)).

(** The first [try] ends with the server started, with a key at least; or
    with [return None] after a message and [close()]; or with an
    exception, raised before the server is started or by starting it. *)
Lemma start_transport_hoare :
  hoare P start_transport
    (λ r s', match r with
             | Ok None =>
                 ∃ s1, P s1 ∧ Bootstrap.host_keys s1 ≠ []
                       ∧ s' = Bootstrap.extend s1 [Bootstrap.StartServer]
             | Ok (Some None) =>
                 ∃ s1 m, P s1
                         ∧ s' = Bootstrap.extend s1
                                  ([Bootstrap.Log m] ++ Bootstrap.closes s1)
             | Ok (Some (Some _)) => False
             | Raise _ =>
                 P s'
                 ∨ ∃ s1, P s1 ∧ Bootstrap.host_keys s1 ≠ []
                         ∧ s' = Bootstrap.extend s1 [Bootstrap.StartServer]
             end).
Proof.
  unfold Bootstrap.start_transport.
  eapply (hoare_bind _ _ P (λ _, P)); [apply inv_emit; intros; by apply P_setting_up| |by left].
  intros _.
  eapply (hoare_bind _ _ P (λ _, P)); [apply inv_lift| |by left].
  intros _.
  eapply (hoare_bind _ _ P (λ _, P)); [|intros _|by left].
  { intros s r s' HP [= <- <-]. by apply P_transport. }
  eapply (hoare_bind _ _ P (λ _, P)); [apply inv_emit; intros; by apply P_setting_up| |by left].
  intros _.
  eapply hoare_bind; [apply load_host_keys_hoare| |by left].
  intros [|].
  - intros s r s' [HP Hkeys]. unfold bind at 1.
    change (Bootstrap.emit Bootstrap.StartServer s)
      with (Ok tt, Bootstrap.extend s [Bootstrap.StartServer]).
    cbv beta iota. unfold bind, lift, ret.
    destruct start_server as [[]|e]; intros [= <- <-]; eauto.
  - intros s r s' (s1 & m & HP & ->) [= <- <-]. eauto.
Qed.

End Loading.

(** The second [try] and the end of the function: what they add. *)
Lemma accept_await_cases conn s r s' :
  (let* r := accept_channel in
   match r with Some r => ret r | None => await_handoff conn end) s = (r, s') →
  ∃ acts,
    s' = Bootstrap.extend s acts
    ∧ Forall after_start acts
    ∧ match r with
      | Ok None =>
          (∃ pre, acts = pre ++ Bootstrap.closes s
                  ∧ Forall (λ a, closing a = false) pre)
          ∨ (served_by_subprocess ssh_server
             ∧ Forall (λ a, closing a = false) acts)
      | _ => Forall (λ a, closing a = false) acts
      end.
Proof.
  assert (Hclosed : ∀ pre,
    Forall after_start pre → Forall (λ a, closing a = false) pre →
    ∃ acts,
      Bootstrap.extend s (pre ++ Bootstrap.closes s) = Bootstrap.extend s acts
      ∧ Forall after_start acts
      ∧ ((∃ pre, acts = pre ++ Bootstrap.closes s
                 ∧ Forall (λ a, closing a = false) pre)
         ∨ (served_by_subprocess ssh_server
            ∧ Forall (λ a, closing a = false) acts))).
  { intros pre Hafter Hopen. exists (pre ++ Bootstrap.closes s).
    split; [done|]. split; [|left; by exists pre].
    apply Forall_app. split; [done|].
    unfold Bootstrap.closes. destruct (Bootstrap.t s); repeat constructor. }
  unfold bind at 1, Bootstrap.accept_channel. unfold bind at 1.
  change (Bootstrap.emit Bootstrap.Accept s)
    with (Ok tt, Bootstrap.extend s [Bootstrap.Accept]).
  cbv beta iota.
  destruct accept as [[chan|]|e].
  - unfold ret at 1. cbv beta iota. rewrite await_handoff_eq. cbv zeta.
    assert (Hnone :
      (@Ok (option Bootstrap.SSHSocketConnection) None,
       Bootstrap.extend (Bootstrap.extend s [Bootstrap.Accept])
         ([Bootstrap.EventWait]
          ++ (if event_wait then [] else [Bootstrap.Log Bootstrap.TimeoutWaiting])
          ++ Bootstrap.closes (Bootstrap.extend s [Bootstrap.Accept]))) = (r, s') →
      ∃ acts,
        s' = Bootstrap.extend s acts
        ∧ Forall after_start acts
        ∧ match r with
          | Ok None =>
              (∃ pre, acts = pre ++ Bootstrap.closes s
                      ∧ Forall (λ a, closing a = false) pre)
              ∨ (served_by_subprocess ssh_server
                 ∧ Forall (λ a, closing a = false) acts)
          | _ => Forall (λ a, closing a = false) acts
          end).
    { intros [= <- <-]. rewrite boot_extend_extend, closes_extend.
      destruct (Hclosed ([Bootstrap.Accept; Bootstrap.EventWait]
                  ++ (if event_wait then [] else [Bootstrap.Log Bootstrap.TimeoutWaiting])))
        as (acts & Heq & Hacts); [destruct event_wait; repeat constructor..|].
      exists acts. split; [|done]. rewrite <- Heq. by rewrite <- !app_assoc. }
    destruct (event ssh_server) eqn:Hev; [|exact Hnone].
    destruct (proxy_channel ssh_server) as [pc|] eqn:Hpc; [|exact Hnone].
    destruct (Bootstrap.proxy_process_of pc ssh_server) as [proc|] eqn:Hproc;
      intros [= <- <-]; rewrite boot_extend_extend;
      (eexists; split; [reflexivity|]; split; [repeat constructor|]).
    + right. split; [|repeat constructor]. split; [done|]. by exists pc, proc.
    + repeat constructor.
  - unfold bind at 1. rewrite boot_emit_eq, boot_extend_extend. cbv beta iota.
    unfold bind at 1. rewrite boot_emit_eq, boot_extend_extend. cbv beta iota.
    unfold bind at 1. rewrite close_eq. cbv beta iota.
    unfold ret. intros [= <- <-]. rewrite boot_extend_extend, closes_extend.
    destruct (Hclosed [Bootstrap.Accept; Bootstrap.Log Bootstrap.ChannelSetupFailed;
                       Bootstrap.ConnSetActive false])
      as (acts & Heq & Hacts); [repeat constructor..|].
    exists acts. by rewrite <- Heq.
  - assert (Hraise : (@Raise (option Bootstrap.SSHSocketConnection) e,
                      Bootstrap.extend s [Bootstrap.Accept]) = (r, s') →
      ∃ acts,
        s' = Bootstrap.extend s acts
        ∧ Forall after_start acts
        ∧ match r with
          | Ok None =>
              (∃ pre, acts = pre ++ Bootstrap.closes s
                      ∧ Forall (λ a, closing a = false) pre)
              ∨ (served_by_subprocess ssh_server
                 ∧ Forall (λ a, closing a = false) acts)
          | _ => Forall (λ a, closing a = false) acts
          end).
    { intros [= <- <-]. exists [Bootstrap.Accept]. repeat constructor. }
    destruct e; try exact Hraise.
    unfold bind at 1. rewrite boot_emit_eq, boot_extend_extend. cbv beta iota.
    unfold bind at 1. rewrite close_eq. cbv beta iota.
    unfold ret. intros [= <- <-]. rewrite boot_extend_extend, closes_extend.
    destruct (Hclosed [Bootstrap.Accept; Bootstrap.Log Bootstrap.ErrorOpeningChannel])
      as (acts & Heq & Hacts); [repeat constructor..|].
    exists acts. by rewrite <- Heq.
Qed.

Lemma after_start_closes s : Forall after_start (Bootstrap.closes s).
Proof. unfold Bootstrap.closes. destruct (Bootstrap.t s); repeat constructor. Qed.

Lemma after_start_server_keys acts : Forall after_start acts → server_keys acts = [].
Proof. induction 1 as [|a acts Ha _ IH]; [done|]. by destruct a. Qed.

Lemma after_start_not_start acts :
  Forall after_start acts → Bootstrap.StartServer ∉ acts.
Proof. intros Hall Hin. by apply (proj1 (Forall_forall _ _) Hall) in Hin. Qed.

(** What the function does after the first [try], whatever its result. *)
Lemma make_ssh_server_connection_after conn s r s' :
  make_ssh_server_connection conn s = (r, s') →
  ∃ r1 s1 acts,
    start_transport s = (r1, s1)
    ∧ s' = Bootstrap.extend s1 acts
    ∧ Forall after_start acts
    ∧ match r1 with
      | Ok None =>
          match r with
          | Ok None =>
              (∃ pre, acts = pre ++ Bootstrap.closes s1
                      ∧ Forall (λ a, closing a = false) pre)
              ∨ (served_by_subprocess ssh_server
                 ∧ Forall (λ a, closing a = false) acts)
          | _ => Forall (λ a, closing a = false) acts
          end
      | Ok (Some r2) => r = Ok r2 ∧ acts = []
      | Raise e =>
          (r = Ok None
           ∧ acts = [Bootstrap.Log Bootstrap.ErrorHandlingConnection]
                    ++ Bootstrap.closes s1)
          ∨ (r = Raise e ∧ acts = [])
      end.
Proof.
  unfold_make. destruct (start_transport s) as [r1 s1] eqn:Hst.
  assert (Hnil : s1 = Bootstrap.extend s1 []).
  { destruct s1. unfold Bootstrap.extend. simpl. by rewrite app_nil_r. }
  assert (Hcaught :
    (Bootstrap.emit (Bootstrap.Log Bootstrap.ErrorHandlingConnection) ;;
     Bootstrap.close ;; ret None) s1 = (r, s') →
    ∃ acts,
      s' = Bootstrap.extend s1 acts ∧ Forall after_start acts
      ∧ r = Ok None
      ∧ acts = [Bootstrap.Log Bootstrap.ErrorHandlingConnection] ++ Bootstrap.closes s1).
  { rewrite log_close_ret. intros [= <- <-]. eexists. split; [reflexivity|].
    split; [|done]. constructor; [exact I|apply after_start_closes]. }
  destruct r1 as [[r2|]|e].
  - intros [= <- <-]. exists (Ok (Some r2)), s1, []. by repeat split.
  - intros (acts & -> & Hafter & Hcases)%accept_await_cases.
    by exists (Ok None), s1, acts.
  - destruct e;
      first
        [ intros (acts & -> & Hafter & -> & ->)%Hcaught;
          eexists (Raise _), s1, _;
          split; [reflexivity|]; split; [reflexivity|]; split; [done|]; by left
        | intros [= <- <-]; eexists (Raise _), s1, [];
          split; [reflexivity|]; split; [done|]; split; [constructor|]; by right ].
Qed.

(** X12. The server is started once at most, after the transport was
    given a key at least, and the transport is given no key afterwards. *)
Theorem server_started_with_keys conn :
  ∃ r s',
    make_ssh_server_connection conn Bootstrap.start = (r, s')
    ∧ started_with_keys (Bootstrap.trace s').
Proof.
  destruct (make_ssh_server_connection conn Bootstrap.start) as [r s'] eqn:Heq.
  exists r, s'. split; [done|].
  destruct (make_ssh_server_connection_after _ _ _ _ Heq)
    as (r1 & s1 & acts & Hst & -> & Hafter & Hcases).
  set (P := λ s, keys_ok s ∧ not_started s).
  assert (Hquiet : ∀ s a, (∀ k, a ≠ Bootstrap.AddServerKey k) → a ≠ Bootstrap.StartServer →
            P s → P (Bootstrap.extend s [a])).
  { intros s a Hk Hs [Hkeys Hns]. split.
    - apply (keys_ok_same s); [done| |done]. simpl. rewrite server_keys_app.
      destruct a; simpl; rewrite ?app_nil_r; try done. by destruct (Hk k).
    - unfold not_started. simpl.
      intros [Hin|[<-|[]%elem_of_nil]%elem_of_cons]%elem_of_app; done. }
  assert (Hadd : ∀ fd f, Bootstrap.is_host_key_file f = true → inv P (add_host_key fd f)).
  { intros fd f Hf. apply inv_and; [by apply keys_ok_add_host_key|].
    apply (writes_only_inv _ key_loading (λ tr, Bootstrap.StartServer ∉ tr));
      [apply writes_only_add_host_key|].
    intros tr acts' Htr Hacts [Hin|Hin]%elem_of_app; [done|].
    by apply (proj1 (Forall_forall _ _) Hacts) in Hin. }
  assert (Hstart : P Bootstrap.start).
  { split; [split; [split; [done|constructor]|by intros k ff []%elem_of_nil]|].
    by intros []%elem_of_nil. }
  assert (Hstarted : ∀ s0, P s0 → Bootstrap.host_keys s0 ≠ [] →
            started_with_keys
              (Bootstrap.trace (Bootstrap.extend (Bootstrap.extend s0
                                                    [Bootstrap.StartServer]) acts))).
  { intros s0 [[[Hreg _] _] Hns] Hkeys. right.
    exists (Bootstrap.trace s0), acts. simpl. rewrite <- app_assoc.
    split; [done|]. split; [done|]. split.
    - rewrite Hreg. by destruct (Bootstrap.host_keys s0).
    - split; [by apply after_start_not_start|by apply after_start_server_keys]. }
  assert (Hnot : ∀ s0, P s0 →
            started_with_keys (Bootstrap.trace (Bootstrap.extend s0 acts))).
  { intros s0 [_ Hns]. left. simpl.
    intros [Hin|Hin]%elem_of_app; [done|]. by apply after_start_not_start in Hin. }
  pose proof (start_transport_hoare P Hadd) as Hhoare.
  specialize (Hhoare (λ s a Ha, Hquiet s a
                        ltac:(intros k ->; exact Ha) ltac:(intros ->; exact Ha))).
  specialize (Hhoare (λ s HP, ltac:(destruct HP as [Hk Hn]; split;
                                   [by apply (keys_ok_same s)|exact Hn]))).
  specialize (Hhoare _ _ _ Hstart Hst). cbv beta in Hhoare.
  destruct r1 as [[[c|]|]|e].
  - done.
  - destruct Hhoare as (s0 & m & HP & ->). destruct Hcases as [_ ->].
    left. simpl. rewrite app_nil_r.
    destruct HP as [_ Hns].
    intros [Hin|[[=]|Hin]%elem_of_cons]%elem_of_app; [done|].
    by apply (after_start_not_start _ (after_start_closes s0)) in Hin.
  - destruct Hhoare as (s0 & HP & Hkeys & ->). by apply Hstarted.
  - destruct Hhoare as [HP|(s0 & HP & Hkeys & ->)]; [by apply Hnot|by apply Hstarted].
Qed.

(** X13. [close()] is called once at most, and nothing is done after it.
    The function returns [None] after closing, or without closing when the
    proxy channel is served by a subprocess; it closes nothing when it
    returns a connection, and nothing when an exception escapes. *)
Theorem connection_closed_last conn :
  ∃ r s',
    make_ssh_server_connection conn Bootstrap.start = (r, s')
    ∧ match r with
      | Ok None =>
          closed_last s' ∨ (served_by_subprocess ssh_server ∧ nothing_closed s')
      | _ => nothing_closed s'
      end.
Proof.
  destruct (make_ssh_server_connection conn Bootstrap.start) as [r s'] eqn:Heq.
  exists r, s'. split; [done|].
  destruct (make_ssh_server_connection_after _ _ _ _ Heq)
    as (r1 & s1 & acts & Hst & -> & Hafter & Hcases).
  assert (Hopen : ∀ s a, closing a = false → nothing_closed s →
            nothing_closed (Bootstrap.extend s [a])).
  { intros s a Ha Hs. apply Forall_app. split; [done|]. by constructor. }
  assert (Hadd : ∀ fd f, Bootstrap.is_host_key_file f = true →
            inv nothing_closed (add_host_key fd f)).
  { intros fd f Hf.
    apply (writes_only_inv _ key_loading (Forall (λ a, closing a = false)));
      [apply writes_only_add_host_key|].
    intros tr acts' Htr Hacts. apply Forall_app. split; [done|].
    eapply Forall_impl; [exact Hacts|]. by intros []. }
  pose proof (start_transport_hoare nothing_closed Hadd) as Hhoare.
  assert (Hsetup : ∀ s a, setting_up a → nothing_closed s →
            nothing_closed (Bootstrap.extend s [a])).
  { intros s a Ha. apply Hopen. by destruct a. }
  specialize (Hhoare Hsetup).
  specialize (Hhoare (λ s HP, HP)).
  assert (Hstart : nothing_closed Bootstrap.start) by constructor.
  specialize (Hhoare _ _ _ Hstart Hst). cbv beta in Hhoare.
  assert (Hclosed : ∀ s0 pre, nothing_closed s0 → Forall (λ a, closing a = false) pre →
            closed_last (Bootstrap.extend s0 (pre ++ Bootstrap.closes s0))).
  { intros s0 pre Hs0 Hpre. exists (Bootstrap.trace s0 ++ pre). simpl.
    split; [by rewrite <- app_assoc|]. by apply Forall_app. }
  destruct r1 as [[[c|]|]|e].
  - done.
  - destruct Hhoare as (s0 & m & HP & ->). destruct Hcases as [-> ->].
    left. destruct (Hclosed s0 [Bootstrap.Log m] HP) as (pre & Htr & Hpre);
      [by repeat constructor|].
    exists pre. simpl in *. by rewrite app_nil_r.
  - destruct Hhoare as (s0 & HP & _ & ->).
    assert (Hs1 : nothing_closed (Bootstrap.extend s0 [Bootstrap.StartServer]))
      by (by apply Hopen).
    destruct r as [[c|]|e].
    + by apply Forall_app.
    + destruct Hcases as [(pre & -> & Hpre)|[Hsub Hacts]].
      * left. by apply Hclosed.
      * right. split; [done|]. by apply Forall_app.
    + by apply Forall_app.
  - assert (Hs1 : nothing_closed s1).
    { destruct Hhoare as [HP|(s0 & HP & _ & ->)]; [done|by apply Hopen]. }
    destruct Hcases as [[-> ->]|[-> ->]].
    + left. apply Hclosed; [done|by repeat constructor].
    + apply Forall_app. by split.
Qed.

End MakeConnectionInvariants.

(** ** From the exec request to the connection *)

Section ExecThenServe.

Variable clock : list action → float.
Variable send_result : list action → channel → stream → bytes → outcome nat.
Variable POSIX WIN32 : bool.
Variable decode_str : bytes → string.
Variable osexpand : string → string.
Variable parse_bool : string → option string → bool → option bool.
Variable get_xpra_command : list string.
Variable popen_communicate : list action → list string → string + bytes * bytes * Z.
Variable proxy_popen : list action → list string → option process.
Variable set_order : list string → list string.
Variable options : gmap string string.
Variable display_name : option string.
Variable socket_options : gmap string string.
Variable event_wait : bool.

Local Abbreviation check_channel_exec_request :=
  (check_channel_exec_request clock send_result POSIX WIN32 decode_str osexpand
     parse_bool get_xpra_command popen_communicate proxy_popen set_order
     options display_name).
Local Abbreviation await_handoff := (Bootstrap.await_handoff socket_options event_wait).

(** X25. On a server object as [__init__] leaves it, one exec request
    decides how [make_ssh_server_connection] ends once the client has its
    channel: a connection is returned only for a request that was accepted,
    and it is the [SSHSocketConnection] made of the channel of that request,
    the socket, the local address, the endpoint and the target of [conn],
    and the socket options; it is returned whenever the request
    handed the channel over and the channel has no subprocess, and nothing
    is closed then;
    after a request that was refused or that raised, and after a probe,
    [None] is returned and the connection is closed. *)
Theorem exec_request_then_handoff channel command w conn s :
  event w = false →
  proxy_channel w = None →
  ∃ r w' res acts,
    check_channel_exec_request channel command w = (r, w')
    ∧ await_handoff w' conn s = (res, Bootstrap.extend s acts)
    ∧ (∀ c, res = Ok (Some c) →
         r = Ok true
         ∧ c = Bootstrap.SSHSocketConnection_ channel (Bootstrap._socket conn)
                 (Bootstrap.local conn) (Bootstrap.endpoint conn)
                 (Bootstrap.target conn) socket_options
         ∧ proxy_channel w' = Some channel)
    ∧ (proxy_channel w' = Some channel →
       Bootstrap.proxy_process_of channel w' = None →
       res = Ok (Some (Bootstrap.SSHSocketConnection_ channel (Bootstrap._socket conn)
                         (Bootstrap.local conn) (Bootstrap.endpoint conn)
                         (Bootstrap.target conn) socket_options))
       ∧ acts = [Bootstrap.EventWait])
    ∧ (r ≠ Ok true ∨ proxy_channel w' = None →
       res = Ok None ∧ ∃ pre, acts = pre ++ Bootstrap.closes s).
Proof.
  intros Hev Hpc.
  destruct (check_channel_exec_request_cases clock send_result POSIX WIN32 decode_str
              osexpand parse_bool get_xpra_command popen_communicate proxy_popen
              set_order options display_name channel command w)
    as (r & w' & Heq & Hcases).
  exists r, w'. rewrite Heq, await_handoff_eq. cbv zeta.
  assert (Hclosed : ∀ (P : Bootstrap.SSHSocketConnection → Prop) (Q : Prop),
    ∃ res acts,
      (@Ok (option Bootstrap.SSHSocketConnection) None,
       Bootstrap.extend s
         ([Bootstrap.EventWait]
          ++ (if event_wait then [] else [Bootstrap.Log Bootstrap.TimeoutWaiting])
          ++ Bootstrap.closes s)) = (res, Bootstrap.extend s acts)
      ∧ (∀ c, res = Ok (Some c) → P c)
      ∧ (Q → res = Ok None ∧ ∃ pre, acts = pre ++ Bootstrap.closes s)).
  { intros P Q. eexists _, _. split; [reflexivity|]. split; [by intros c [=]|].
    intros _. split; [done|]. eexists. by rewrite app_assoc. }

  destruct Hcases
    as [(e & acts & -> & ->)|[[-> (acts & status & ->)]|[[-> (acts & ->)]
        |(-> & Hev' & Hpc' & _)]]]; simpl; rewrite ?Hev, ?Hpc.
  - edestruct Hclosed as (res & acts' & H1 & H2 & H3).
    exists res, acts'. split; [done|]. split; [exact H1|]. split; [exact H2|].
    split; [by intros [=]|exact H3].
  - edestruct Hclosed as (res & acts' & H1 & H2 & H3).
    exists res, acts'. split; [done|]. split; [exact H1|]. split; [exact H2|].
    split; [by intros [=]|exact H3].
  - edestruct Hclosed as (res & acts' & H1 & H2 & H3).
    exists res, acts'. split; [done|]. split; [exact H1|]. split; [exact H2|].
    split; [by intros [=]|exact H3].
  - rewrite Hev', Hpc'.
    destruct (Bootstrap.proxy_process_of channel w') as [proc|].
    + eexists _, _. split; [done|]. split; [reflexivity|]. split; [by intros c [=]|].
      split; [by intros _ [=]|].
      intros [Hr|Hn]; [done|congruence].
    + eexists _, [_]. split; [done|]. split; [reflexivity|]. split.
      * by intros c [= <-].
      * split; [done|]. intros [Hr|Hn]; [done|congruence].
Qed.

End ExecThenServe.

Lemma exec_request_then_handoff_witness :
  event w0 = false
  ∧ proxy_channel w0 = None
  ∧ ∃ r w' res acts,
      exec_on_posix insertion_order no_options 7 "xpra _proxy :10" w0 = (r, w')
      ∧ Bootstrap.await_handoff ∅ true w' client served
        = (res, Bootstrap.extend served acts)
      ∧ (∀ c, res = Ok (Some c) →
           r = Ok true
           ∧ c = Bootstrap.SSHSocketConnection_ 7 3 "192.168.0.1:22" "192.168.0.1:22"
                   "192.168.0.7:50000" ∅
           ∧ proxy_channel w' = Some 7)
      ∧ (proxy_channel w' = Some 7 →
         Bootstrap.proxy_process_of 7 w' = None →
         res = Ok (Some (Bootstrap.SSHSocketConnection_ 7 3 "192.168.0.1:22"
                           "192.168.0.1:22" "192.168.0.7:50000" ∅))
         ∧ acts = [Bootstrap.EventWait])
      ∧ (r ≠ Ok true ∨ proxy_channel w' = None →
         res = Ok None ∧ ∃ pre, acts = pre ++ Bootstrap.closes served).
Proof.
  split; [reflexivity|]. split; [reflexivity|].
  apply (exec_request_then_handoff ticking_clock accept_all true false id id
           simple_parse_bool ["xpra"] found_xpra (λ _ _, Some 1) insertion_order
           no_options (Some ":10") ∅ true 7 "xpra _proxy :10" w0 client served
           eq_refl eq_refl).
Defined.

(** ** The forwarding threads of [proxy_start] *)

Lemma sent_bytes_app acts1 acts2 :
  sent_bytes (acts1 ++ acts2) = sent_bytes acts1 +:+ sent_bytes acts2.
Proof.
  induction acts1 as [|a acts1 IH]; [done|].
  destruct a as [| c s d [n|e] | | | | | | |]; simpl; try done.
  by rewrite IH, append_assoc_s.
Qed.

Lemma send_run_sends_on c s start timeout data acts rest :
  send_run c s start timeout data acts rest → Forall (ProxyStart.sends_on c s) acts.
Proof. induction 1; repeat constructor; done. Qed.

(** A run of [chan_send] on a stream of a channel. *)
Lemma chan_send_forward clock send_result c s data w :
  ∃ res acts,
    chan_send clock (channel_send send_result c s) data default_timeout w
      = (res, extend w acts)
    ∧ Forall (ProxyStart.sends_on c s) acts
    ∧ (∃ rest, sent_bytes acts +:+ rest = data)
    ∧ (res = Ok tt → sent_bytes acts = data).
Proof.
  unfold chan_send. destruct (String.eqb data "") eqn:He.
  { apply String.eqb_eq in He as ->.
    exists (Ok tt), []. rewrite extend_nil. repeat split; [constructor|by exists ""]. }
  unfold bind at 1. rewrite monotonic_eq.
  destruct (chan_send_loop_run clock send_result c s (clock (trace w)) default_timeout
              data (extend w [Monotonic (clock (trace w))]))
    as (acts & rest & Heq & Hrun).
  pose proof (send_run_sent_bytes _ _ _ _ _ _ _ Hrun) as Hsent.
  pose proof (send_run_sends_on _ _ _ _ _ _ _ Hrun) as Hon.
  unfold bind. rewrite Heq, extend_extend.
  assert (Hon' : Forall (ProxyStart.sends_on c s) (Monotonic (clock (trace w)) :: acts))
    by (by constructor).
  destruct rest as [rest|e].
  - pose proof (send_run_rest _ _ _ _ _ _ _ Hrun) as Hrest.
    destruct (String.eqb rest "") eqn:Hr; simpl.
    + apply String.eqb_eq in Hr. rewrite Hr in Hrest.
      exists (Ok tt), (Monotonic (clock (trace w)) :: acts).
      split; [done|]. split; [done|]. simpl.
      rewrite <- Hrest, append_empty_r in Hsent. split; [|done].
      exists "". by rewrite append_empty_r.
    + exists (Raise (Exception "failed to send all the data")),
        (Monotonic (clock (trace w)) :: acts).
      split; [done|]. split; [done|]. split; [by eexists|done].
  - exists (Raise e), (Monotonic (clock (trace w)) :: acts).
    split; [done|]. split; [done|]. split; [by eexists|done].
Qed.

(** A channel that accepts nothing: [chan_send] gives up. *)
Lemma chan_send_stalled clock send_result c s data w :
  (∀ tr, send_result tr c s data = Ok 0) → data ≠ "" →
  ∃ acts,
    chan_send clock (channel_send send_result c s) data default_timeout w
      = (Raise (Exception "failed to send all the data"), extend w acts)
    ∧ sent_bytes acts = "".
Proof.
  intros Hzero Hne. unfold chan_send. destruct data as [|ch d]; [done|].
  cbn [String.eqb]. unfold bind at 1. rewrite monotonic_eq. cbv beta iota.
  unfold bind at 1. rewrite chan_send_loop_equation_2, monotonic_eq. simpl.
  destruct (_ <? _)%float; simpl.
  - rewrite Hzero. simpl. eexists [_; _; _].
    split; [unfold extend; simpl; by rewrite <- !app_assoc|reflexivity].
  - eexists [_; _].
    split; [unfold extend; simpl; by rewrite <- !app_assoc|reflexivity].
Qed.

Section Threads.

Variable clock : list action → float.
Variable send_result : list action → channel → stream → bytes → outcome nat.
Variable poll_result : list ProxyStart.proc_action → option Z.
Variable read_result_of : list ProxyStart.proc_action → stream → nat → ProxyStart.read_result.
Variable recv_result : list ProxyStart.proc_action → nat → outcome bytes.
Variable write_result : list ProxyStart.proc_action → bytes → outcome unit.
Variable flush_result : list ProxyStart.proc_action → outcome unit.
Variable channel : channel.

Local Abbreviation poll := (ProxyStart.poll poll_result).
Local Abbreviation close := (ProxyStart.close poll_result).
Local Abbreviation read := (ProxyStart.read read_result_of).
Local Abbreviation recv := (ProxyStart.recv recv_result).
Local Abbreviation stdin_write := (ProxyStart.stdin_write write_result).
Local Abbreviation stdin_flush := (ProxyStart.stdin_flush flush_result).
Local Abbreviation proc_to_channel :=
  (ProxyStart.proc_to_channel clock send_result poll_result read_result_of channel).
Local Abbreviation stdin_reader :=
  (ProxyStart.stdin_reader poll_result recv_result write_result flush_result).

Lemma bridge_extend_nil b : ProxyStart.extend b [] [] = b.
Proof.
  destruct b as [w p]. unfold ProxyStart.extend. simpl.
  by rewrite extend_nil, app_nil_r.
Qed.

Lemma bridge_extend_extend b acts1 pacts1 acts2 pacts2 :
  ProxyStart.extend (ProxyStart.extend b acts1 pacts1) acts2 pacts2
  = ProxyStart.extend b (acts1 ++ acts2) (pacts1 ++ pacts2).
Proof.
  unfold ProxyStart.extend. simpl. by rewrite extend_extend, <- app_assoc.
Qed.

Lemma on_channel_extend {A} (m : M A) b r acts :
  m (ProxyStart.chan b) = (r, extend (ProxyStart.chan b) acts) →
  ProxyStart.on_channel m b = (r, ProxyStart.extend b acts []).
Proof.
  intros Hm. unfold ProxyStart.on_channel, ProxyStart.extend.
  by rewrite Hm, app_nil_r.
Qed.

Lemma did_eq a b : ProxyStart.did a b = (Ok tt, ProxyStart.extend b [] [a]).
Proof. unfold ProxyStart.did, ProxyStart.extend. by rewrite extend_nil. Qed.

Lemma poll_eq b :
  poll b = (Ok (poll_result (ProxyStart.proc b)),
            ProxyStart.extend b [] [ProxyStart.Poll (poll_result (ProxyStart.proc b))]).
Proof. unfold ProxyStart.poll, bind. by rewrite did_eq. Qed.

Lemma read_eq s size b :
  read s size b
  = (Ok (read_result_of (ProxyStart.proc b) s size),
     ProxyStart.extend b []
       [ProxyStart.Read s size (read_result_of (ProxyStart.proc b) s size)]).
Proof. unfold ProxyStart.read, bind. by rewrite did_eq. Qed.

Lemma recv_eq size b :
  recv size b
  = (recv_result (ProxyStart.proc b) size,
     ProxyStart.extend b [] [ProxyStart.Recv size (recv_result (ProxyStart.proc b) size)]).
Proof. unfold ProxyStart.recv, bind. by rewrite did_eq. Qed.

Lemma stdin_write_eq data b :
  stdin_write data b
  = (write_result (ProxyStart.proc b) data,
     ProxyStart.extend b []
       [ProxyStart.StdinWrite data (write_result (ProxyStart.proc b) data)]).
Proof. unfold ProxyStart.stdin_write, bind. by rewrite did_eq. Qed.

Lemma stdin_flush_eq b :
  stdin_flush b
  = (flush_result (ProxyStart.proc b),
     ProxyStart.extend b [] [ProxyStart.StdinFlush (flush_result (ProxyStart.proc b))]).
Proof. unfold ProxyStart.stdin_flush, bind. by rewrite did_eq. Qed.

(** [close()] polls, and terminates a subprocess that is running. *)
Lemma thread_close_eq b :
  close b
  = (Ok tt,
     ProxyStart.extend b []
       (ProxyStart.Poll (poll_result (ProxyStart.proc b))
        :: match poll_result (ProxyStart.proc b) with
           | None => [ProxyStart.Terminate]
           | Some _ => []
           end)).
Proof.
  unfold ProxyStart.close. unfold bind at 1. rewrite poll_eq. cbv beta iota.
  destruct (poll_result (ProxyStart.proc b)); [done|].
  by rewrite did_eq, bridge_extend_extend.
Qed.

Lemma read_bytes_app pacts1 pacts2 :
  ProxyStart.read_bytes (pacts1 ++ pacts2)
  = ProxyStart.read_bytes pacts1 +:+ ProxyStart.read_bytes pacts2.
Proof.
  induction pacts1 as [|a pacts1 IH]; [done|].
  destruct a as [| |s' n [d| |e]| | |]; simpl; try done.
  by rewrite IH, append_assoc_s.
Qed.

Lemma terminated_last_prefix pacts0 pacts :
  ProxyStart.Terminate ∉ pacts0 →
  ProxyStart.terminated_last pacts → ProxyStart.terminated_last (pacts0 ++ pacts).
Proof.
  intros H0 Hlast [Hin|Hin]%elem_of_app; [done|].
  destruct (Hlast Hin) as (pre & -> & Hpre).
  exists (pacts0 ++ pre). split; [by rewrite <- app_assoc|].
  by intros [?|?]%elem_of_app.
Qed.

(** A run after rounds that forwarded everything they read. *)
Lemma forwards_prefix s r acts0 pacts0 acts pacts :
  Forall (ProxyStart.sends_on channel s) acts0 →
  Forall (ProxyStart.reads_from s) pacts0 →
  ProxyStart.Terminate ∉ pacts0 →
  sent_bytes acts0 = ProxyStart.read_bytes pacts0 →
  ProxyStart.forwards channel s r acts pacts →
  ProxyStart.forwards channel s r (acts0 ++ acts) (pacts0 ++ pacts).
Proof.
  intros Hon0 Hfrom0 Hterm0 Hsent0 (Hon & Hfrom & [rest Hrest] & Hall & Hlast & Hterm).
  split; [by apply Forall_app|]. split; [by apply Forall_app|].
  rewrite sent_bytes_app, read_bytes_app, Hsent0.
  split; [exists rest; by rewrite append_assoc_s, Hrest|].
  split; [intros Hr; by rewrite (Hall Hr)|].
  split; [by apply terminated_last_prefix|].
  intros [Hin|Hin]%elem_of_app; [done|by apply Hterm].
Qed.

(** The end of a loop by [close()], after [pacts0]. *)
Lemma forwards_closed s acts0 pacts0 rc :
  Forall (ProxyStart.sends_on channel s) acts0 →
  Forall (ProxyStart.reads_from s) pacts0 →
  ProxyStart.Terminate ∉ pacts0 →
  (∃ rest, sent_bytes acts0 +:+ rest = ProxyStart.read_bytes pacts0) →
  ProxyStart.forwards channel s (Ok (Some tt)) acts0
    (pacts0 ++ ProxyStart.Poll rc
            :: match rc with None => [ProxyStart.Terminate] | Some _ => [] end).
Proof.
  intros Hon0 Hfrom0 Hterm0 [rest Hrest].
  split; [done|]. split.
  { apply Forall_app. split; [done|]. destruct rc; repeat constructor. }
  split.
  { exists rest. rewrite read_bytes_app, Hrest. destruct rc; simpl;
      by rewrite append_empty_r. }
  split; [done|]. split; [|done].
  destruct rc as [z|].
  - intros [Hin|[[=]|[]%elem_of_nil]%elem_of_cons]%elem_of_app. done.
  - intros _. exists pacts0. done.
Qed.

Lemma proc_to_channel_run rounds s b :
  ∃ r acts pacts,
    proc_to_channel rounds s b = (r, ProxyStart.extend b acts pacts)
    ∧ ProxyStart.forwards channel s r acts pacts.
Proof.
  revert b. induction rounds as [|rounds IH]; intros b.
  { exists (Ok None), [], []. rewrite bridge_extend_nil.
    split; [done|]. repeat split; try constructor.
    - by exists "".
    - by intros []%elem_of_nil.
    - by intros []%elem_of_nil. }
  cbn [ProxyStart.proc_to_channel]. unfold bind at 1. rewrite poll_eq. cbv beta iota.
  destruct (poll_result (ProxyStart.proc b)) as [rc|] eqn:Hpoll.
  { exists (Ok (Some tt)), [], [ProxyStart.Poll (Some rc)].
    split; [done|]. repeat split; try (repeat constructor; done).
    - by exists "".
    - intros [[=]|[]%elem_of_nil]%elem_of_cons.
    }
  unfold bind at 1. rewrite read_eq, bridge_extend_extend. cbv beta iota.
  set (b1 := ProxyStart.extend b [] [ProxyStart.Poll None]).
  set (rr := read_result_of (ProxyStart.proc b1) s 4096).
  assert (Hnot : ∀ x, ProxyStart.Terminate ∉ [ProxyStart.Poll None; ProxyStart.Read s 4096 x]).
  { intros x [[=]|[[=]|[]%elem_of_nil]%elem_of_cons]%elem_of_cons. }
  assert (Hfrom : ∀ x, Forall (ProxyStart.reads_from s)
                         [ProxyStart.Poll None; ProxyStart.Read s 4096 x])
    by (intros x; repeat constructor).
  destruct rr as [d| |e] eqn:Hrr.
  - destruct (String.eqb d "") eqn:Hd; cbn [negb].
    + apply String.eqb_eq in Hd as ->.
      destruct (IH (ProxyStart.extend b ([] ++ [])
                      ([ProxyStart.Poll None] ++ [ProxyStart.Read s 4096 (ProxyStart.ReadBytes "")])))
        as (r & acts & pacts & -> & Hfw).
      rewrite bridge_extend_extend. eexists r, _, _. split; [reflexivity|].
      apply (forwards_prefix s r [] _ acts pacts);
        [constructor|apply Hfrom|apply Hnot|done|done].
    + set (b2 := ProxyStart.extend b ([] ++ []) _).
      destruct (chan_send_forward clock send_result channel s d (ProxyStart.chan b2))
        as (res & acts1 & Hsend & Hon1 & [rest1 Hrest1] & Hall1).
      rewrite (on_channel_extend _ _ _ _ Hsend).
      unfold b2. rewrite bridge_extend_extend. cbn [app].
      destruct res as [[]|e].
      * destruct (IH (ProxyStart.extend b acts1
                        [ProxyStart.Poll None; ProxyStart.Read s 4096 (ProxyStart.ReadBytes d)]))
          as (r & acts & pacts & -> & Hfw).
        rewrite bridge_extend_extend. eexists r, _, _. split; [reflexivity|].
        apply forwards_prefix; [done|apply Hfrom|apply Hnot| |done].
        simpl. rewrite append_empty_r. by apply Hall1.
      * assert (Hraise : ProxyStart.forwards channel s (Raise e) acts1
                  [ProxyStart.Poll None; ProxyStart.Read s 4096 (ProxyStart.ReadBytes d)]).
        { split; [done|]. split; [done|]. split.
          - exists rest1. simpl. by rewrite append_empty_r.
          - split; [done|]. split; intros Hin; by destruct (Hnot _ Hin). }
        destruct e; try (eexists (Raise _), _, _; split; [reflexivity|exact Hraise]).
        unfold bind at 1. rewrite thread_close_eq, bridge_extend_extend. cbv beta iota.
        eexists (Ok (Some tt)), _, _. split; [reflexivity|].
        rewrite app_nil_r. apply forwards_closed; [done|apply Hfrom|apply Hnot|].
        exists rest1. simpl. by rewrite append_empty_r.
  - unfold bind at 1. rewrite thread_close_eq, bridge_extend_extend. cbv beta iota.
    eexists (Ok (Some tt)), _, _. split; [reflexivity|].
    apply forwards_closed; [constructor|apply Hfrom|apply Hnot|].
    exists "". reflexivity.
  - eexists (Raise e), _, _. split; [reflexivity|].
    split; [constructor|]. split; [apply Hfrom|].
    split; [exists ""; reflexivity|].
    split; [done|]. split; intros Hin; by destruct (Hnot _ Hin).
Qed.

(** X14. A forwarding thread sends what it reads, in order, on the
    stream it reads from: the stream of the channel is given the beginning
    of what the stream of the subprocess gave, and all of it for as long as
    the loop runs; nothing is written to another stream or channel. *)
Theorem proc_to_channel_forwards_in_order rounds s b :
  ∃ r acts pacts,
    proc_to_channel rounds s b = (r, ProxyStart.extend b acts pacts)
    ∧ Forall (ProxyStart.sends_on channel s) acts
    ∧ Forall (ProxyStart.reads_from s) pacts
    ∧ (∃ rest, sent_bytes acts +:+ rest = ProxyStart.read_bytes pacts)
    ∧ (r = Ok None → sent_bytes acts = ProxyStart.read_bytes pacts).
Proof.
  destruct (proc_to_channel_run rounds s b)
    as (r & acts & pacts & Heq & Hon & Hfrom & Hrest & Hall & _).
  by exists r, acts, pacts.
Qed.

(** X15. A forwarding thread terminates the subprocess once at most, as
    the last thing it does, right after a poll that found it running; and
    then the loop has ended without an exception.  An exception that ends
    the thread leaves the subprocess running. *)
Theorem proc_to_channel_terminates_last rounds s b :
  ∃ r acts pacts,
    proc_to_channel rounds s b = (r, ProxyStart.extend b acts pacts)
    ∧ (ProxyStart.Terminate ∈ pacts →
       r = Ok (Some tt)
       ∧ ∃ pre, pacts = pre ++ [ProxyStart.Poll None; ProxyStart.Terminate]
                ∧ ProxyStart.Terminate ∉ pre).
Proof.
  destruct (proc_to_channel_run rounds s b)
    as (r & acts & pacts & Heq & _ & _ & _ & _ & Hlast & Hterm).
  exists r, acts, pacts. split; [done|]. intros Hin. split; [by apply Hterm|].
  by apply Hlast.
Qed.

Lemma feeds_prefix r d pacts :
  ProxyStart.feeds r pacts →
  ProxyStart.feeds r
    ([ProxyStart.Poll None; ProxyStart.Recv 4096 (Ok d);
      ProxyStart.StdinWrite d (Ok tt); ProxyStart.StdinFlush (Ok tt)] ++ pacts).
Proof.
  intros ([rest Hrest] & Hall & Hflushed & Hlast & Hterm).
  split; [exists rest; simpl; by rewrite append_assoc_s, Hrest|].
  split; [intros Hr; simpl; by rewrite (Hall Hr)|].
  split; [done|].
  assert (Hnot : ProxyStart.Terminate
                 ∉ [ProxyStart.Poll None; ProxyStart.Recv 4096 (Ok d);
                    ProxyStart.StdinWrite d (Ok tt); ProxyStart.StdinFlush (Ok tt)]).
  { intros Hin. repeat (apply elem_of_cons in Hin as [[=]|Hin]).
    by apply elem_of_nil in Hin. }
  split; [by apply terminated_last_prefix|].
  intros [Hin|Hin]%elem_of_app; [done|].
  destruct (Hterm Hin) as [-> [pre ->]]. split; [done|].
  eexists (_ ++ pre). by rewrite <- app_assoc.
Qed.

Lemma feeds_running r pacts :
  ProxyStart.Terminate ∉ pacts →
  (∃ rest, ProxyStart.written pacts +:+ rest = ProxyStart.received pacts) →
  ((∃ v, r = Ok v) → ProxyStart.written pacts = ProxyStart.received pacts) →
  ProxyStart.flushed pacts = true →
  ProxyStart.feeds r pacts.
Proof.
  intros Hnot Hrest Hall Hflushed.
  split; [done|]. split; [done|]. split; [done|]. split; by intros ?.
Qed.

Ltac not_terminate :=
  let Hin := fresh in
  intros Hin; repeat (apply elem_of_cons in Hin as [[=]|Hin]);
  by apply elem_of_nil in Hin.

Lemma stdin_reader_run rounds b :
  ∃ r pacts,
    stdin_reader rounds b = (r, ProxyStart.extend b [] pacts)
    ∧ ProxyStart.feeds r pacts.
Proof.
  revert b. induction rounds as [|rounds IH]; intros b.
  { exists (Ok None), []. rewrite bridge_extend_nil. split; [done|].
    apply feeds_running; [not_terminate|exists ""; reflexivity|done|done]. }
  cbn [ProxyStart.stdin_reader]. unfold bind at 1. rewrite poll_eq. cbv beta iota.
  destruct (poll_result (ProxyStart.proc b)) as [rc|] eqn:Hpoll.
  { exists (Ok (Some tt)), [ProxyStart.Poll (Some rc)]. split; [done|].
    apply feeds_running; [not_terminate|exists ""; reflexivity|done|done]. }
  unfold bind at 1. rewrite recv_eq, bridge_extend_extend. cbv beta iota.
  set (b1 := ProxyStart.extend b [] [ProxyStart.Poll None]).
  destruct (recv_result (ProxyStart.proc b1) 4096) as [d|e] eqn:Hrecv.
  2:{ eexists (Raise e), _. split; [reflexivity|].
      apply feeds_running; [not_terminate|exists ""; reflexivity|done|done]. }
  destruct (String.eqb d "") eqn:Hd.
  - apply String.eqb_eq in Hd as ->.
    unfold bind at 1. rewrite thread_close_eq, bridge_extend_extend. cbv beta iota.
    eexists (Ok (Some tt)), _. split; [reflexivity|].
    set (b2 := ProxyStart.extend b ([] ++ []) _).
    destruct (poll_result (ProxyStart.proc b2)) as [rc|].
    + apply feeds_running; [not_terminate|exists ""; reflexivity|done|done].
    + split; [exists ""; reflexivity|]. split; [done|]. split; [done|].
      split.
      * intros _. exists [ProxyStart.Poll None; ProxyStart.Recv 4096 (Ok "")].
        split; [done|]. not_terminate.
      * intros _. split; [done|]. by exists [ProxyStart.Poll None].
  - unfold bind at 1. rewrite stdin_write_eq, bridge_extend_extend. cbv beta iota.
    set (b2 := ProxyStart.extend b ([] ++ []) _).
    destruct (write_result (ProxyStart.proc b2) d) as [[]|e] eqn:Hwrite.
    2:{ eexists (Raise e), _. split; [reflexivity|].
        apply feeds_running;
          [not_terminate|exists d; simpl; by rewrite append_empty_r
          |by intros [v [=]]|done]. }
    unfold bind at 1. rewrite stdin_flush_eq, bridge_extend_extend. cbv beta iota.
    set (b3 := ProxyStart.extend b (([] ++ []) ++ []) _).
    destruct (flush_result (ProxyStart.proc b3)) as [[]|e] eqn:Hflush.
    2:{ eexists (Raise e), _. split; [reflexivity|].
        apply feeds_running;
          [not_terminate|exists ""; simpl; by rewrite !append_empty_r|done|done]. }
    unfold b3. destruct (IH (ProxyStart.extend b ((([] ++ []) ++ []) ++ [])
                    ((([ProxyStart.Poll None] ++ [ProxyStart.Recv 4096 (Ok d)])
                      ++ [ProxyStart.StdinWrite d (Ok ())])
                     ++ [ProxyStart.StdinFlush (Ok ())])))
      as (r & pacts & -> & Hfeeds).
    rewrite bridge_extend_extend. eexists r, _. split; [reflexivity|].
    by apply (feeds_prefix r d pacts).
Qed.

(** X16. [stdin_reader] writes to the subprocess what it receives from
    the channel, in order, and flushes after each write; it never sends
    on the channel.  What was written is all of what was received unless
    an exception ended the loop, and then it is the beginning of it.  The
    subprocess is terminated once at most, as the last thing, after the
    channel gave no bytes and a poll found the subprocess running. *)
Theorem stdin_reader_feeds_in_order rounds b :
  ∃ r pacts,
    stdin_reader rounds b = (r, ProxyStart.Bridge (ProxyStart.chan b)
                                  (ProxyStart.proc b ++ pacts))
    ∧ (∃ rest, ProxyStart.written pacts +:+ rest = ProxyStart.received pacts)
    ∧ ((∃ v, r = Ok v) → ProxyStart.written pacts = ProxyStart.received pacts)
    ∧ ProxyStart.flushed pacts = true
    ∧ (ProxyStart.Terminate ∈ pacts →
       r = Ok (Some tt)
       ∧ ∃ pre, pacts = pre ++ [ProxyStart.Recv 4096 (Ok ""); ProxyStart.Poll None;
                                ProxyStart.Terminate]
                ∧ ProxyStart.Terminate ∉ pre).
Proof.
  destruct (stdin_reader_run rounds b)
    as (r & pacts & Heq & Hrest & Hall & Hflushed & Hlast & Hterm).
  exists r, pacts. split.
  { rewrite Heq. unfold ProxyStart.extend. by rewrite extend_nil. }
  split; [done|]. split; [done|]. split; [done|].
  intros Hin. destruct (Hterm Hin) as [-> [pre ->]]. split; [done|].
  exists pre. split; [done|].
  destruct (Hlast Hin) as (pre' & Heq' & Hpre').
  intros Hin'. apply Hpre'.
  assert (pre' = pre ++ [ProxyStart.Recv 4096 (Ok "")]) as ->.
  { apply (app_inv_tail [ProxyStart.Poll None; ProxyStart.Terminate]).
    rewrite <- Heq', <- app_assoc. done. }
  apply elem_of_app. by left.
Qed.

(** X17. A channel that accepts nothing ends the forwarding thread with
    the exception of [chan_send], which [except OSError] does not catch:
    [close()] is not called and the subprocess is left running. *)
Theorem proc_to_channel_stalled_channel rounds s b d :
  poll_result (ProxyStart.proc b) = None →
  read_result_of (ProxyStart.proc b ++ [ProxyStart.Poll None]) s 4096
    = ProxyStart.ReadBytes d →
  d ≠ "" →
  (∀ tr, send_result tr channel s d = Ok 0) →
  ∃ acts,
    proc_to_channel (S rounds) s b
    = (Raise (Exception "failed to send all the data"),
       ProxyStart.extend b acts
         [ProxyStart.Poll None; ProxyStart.Read s 4096 (ProxyStart.ReadBytes d)])
    ∧ sent_bytes acts = "".
Proof.
  intros Hpoll Hread Hne Hzero.
  cbn [ProxyStart.proc_to_channel]. unfold bind at 1. rewrite poll_eq, Hpoll.
  cbv beta iota. unfold bind at 1. rewrite read_eq, bridge_extend_extend.
  cbn [ProxyStart.extend ProxyStart.proc]. rewrite Hread. cbv beta iota.
  apply String.eqb_neq in Hne. rewrite Hne. cbn [negb].
  set (b2 := ProxyStart.extend b ([] ++ []) _).
  destruct (chan_send_stalled clock send_result channel s d (ProxyStart.chan b2) Hzero)
    as (acts & Hsend & Hsent); [by apply String.eqb_neq|].
  rewrite (on_channel_extend _ _ _ _ Hsend).
  unfold b2. rewrite bridge_extend_extend. exists acts. by rewrite app_nil_r.
Qed.

End Threads.

Lemma proc_to_channel_stalled_channel_witness :
  ∃ acts,
    ProxyStart.proc_to_channel ticking_clock (λ _ _ _ _, Ok 0) (λ _, None)
      (λ _ _ _, ProxyStart.ReadBytes "ready") 7 (S 3) Stdout
      (ProxyStart.Bridge w0 [])
    = (Raise (Exception "failed to send all the data"),
       ProxyStart.extend (ProxyStart.Bridge w0 []) acts
         [ProxyStart.Poll None;
          ProxyStart.Read Stdout 4096 (ProxyStart.ReadBytes "ready")])
    ∧ sent_bytes acts = "".
Proof.
  apply (proc_to_channel_stalled_channel ticking_clock (λ _ _ _ _, Ok 0) (λ _, None)
           (λ _ _ _, ProxyStart.ReadBytes "ready") 7 3 Stdout (ProxyStart.Bridge w0 [])
           "ready" eq_refl eq_refl ltac:(discriminate) (λ _, eq_refl)).
Defined.

(** ** The names of the host key files *)

Lemma length_append s t : String.length (s +:+ t) = String.length s + String.length t.
Proof. induction s as [|c s IH]; [done|]. rewrite append_cons. simpl. by rewrite IH. Qed.

Lemma slice_from_append s t : Py.slice_from (String.length s) (s +:+ t) = t.
Proof. induction s as [|c s IH]; [by destruct t|]. by rewrite append_cons. Qed.

Lemma slice_to_append s t : Py.slice_to (String.length s) (s +:+ t) = s.
Proof.
  induction s as [|c s IH]; [by destruct t|]. rewrite append_cons. simpl. by rewrite IH.
Qed.

Lemma prefix_append p s : String.prefix p (p +:+ s) = true.
Proof.
  induction p as [|c p IH]; [by destruct s|]. rewrite append_cons. simpl.
  destruct (Ascii.ascii_dec c c); [done|congruence].
Qed.

Lemma slice_to_nonempty n s : 0 < n → 0 < String.length s → Py.slice_to n s ≠ "".
Proof. destruct n, s; simpl; try lia; done. Qed.

Lemma slice_from_length_eq n s :
  String.length (Py.slice_from n s) = String.length s - n.
Proof.
  revert s; induction n as [|n IH]; intros [|c s]; simpl; try done.
Qed.

(** The name of the file of a key of type [kt]. *)
Lemma is_host_key_file_named kt :
  Bootstrap.is_host_key_file (Bootstrap.PREFIX +:+ kt +:+ Bootstrap.SUFFIX) = true.
Proof.
  unfold Bootstrap.is_host_key_file, Py.startswith, Py.endswith.
  rewrite prefix_append. cbn [andb].
  rewrite !length_append. case_decide; [|lia].
  replace (String.length Bootstrap.PREFIX
           + (String.length kt + String.length Bootstrap.SUFFIX)
           - String.length Bootstrap.SUFFIX)
    with (String.length (Bootstrap.PREFIX +:+ kt)) by (rewrite length_append; lia).
  rewrite <- append_assoc_s, slice_from_append. reflexivity.
Qed.

Section HostKeyFiles.

Variable os_path_join : string → string → string.
Variable upper : string → string.
Variable key_class : string → option string.
Variable load_key : string → string → outcome Bootstrap.host_key.

Local Abbreviation add_host_key :=
  (Bootstrap.add_host_key os_path_join upper key_class load_key).

(** X18. The key of the file [ssh_host_<type>_key] is read with the class
    of paramiko named after what [str.upper] makes of the type, and when
    there is no such class, with the one named after the type with
    [str.upper] applied to its first character only; a key that is read
    and is not yet known is recorded and given to the transport.  This
    holds whatever [str.upper] does to the characters of the type. *)
Theorem add_host_key_key_class fd kt keyclass k s :
  let f := Bootstrap.PREFIX +:+ kt +:+ Bootstrap.SUFFIX in
  let ff := os_path_join fd f in
  kt ≠ "" →
  key_class (upper kt +:+ "Key") = Some keyclass
  ∨ key_class (upper kt +:+ "Key") = None
    ∧ key_class (upper (Py.slice_to 1 kt) +:+ Py.slice_from 1 kt +:+ "Key")
      = Some keyclass →
  load_key keyclass ff = Ok k →
  k ∉ (Bootstrap.host_keys s).*1 →
  Bootstrap.is_host_key_file f = true
  ∧ add_host_key fd f s
    = (Ok true,
       Bootstrap.State (Bootstrap.t s) (Bootstrap.host_keys s ++ [(k, ff)])
         (Bootstrap.trace s ++ [Bootstrap.AddServerKey k])).
Proof.
  intros f ff Hkt Hclass Hload Hnew. split; [apply is_host_key_file_named|].
  unfold Bootstrap.add_host_key.
  assert (Htype :
    Py.slice_to (String.length f - String.length Bootstrap.SUFFIX
                 - String.length Bootstrap.PREFIX)
      (Py.slice_from (String.length Bootstrap.PREFIX) f) = kt).
  { unfold f. rewrite slice_from_append, !length_append.
    replace (_ - _ - _) with (String.length kt) by lia.
    apply slice_to_append. }
  rewrite Htype. apply String.eqb_neq in Hkt. rewrite Hkt.
  assert (Hfound :
    match key_class (upper kt +:+ "Key") with
    | Some k => Some k
    | None => key_class (upper (Py.slice_to 1 kt)
                         +:+ Py.slice_from 1 kt +:+ "Key")
    end = Some keyclass).
  { destruct Hclass as [->|[-> ->]]; done. }
  rewrite Hfound. fold f ff. rewrite Hload.
  by rewrite bool_decide_eq_false_2.
Qed.

(** X19. A file named as a host key has no key type exactly when its
    name has 13 characters at most, as [ssh_host__key] and [ssh_host_key]
    have: then, and only then, the name is reported as of an unknown
    format, and nothing else is done. *)
Theorem add_host_key_unknown_format fd f s :
  Bootstrap.is_host_key_file f = true →
  (String.length f <= 13
   ↔ add_host_key fd f s
     = (Ok false,
        Bootstrap.extend s [Bootstrap.Log (Bootstrap.UnknownHostKeyFormat f)])).
Proof.
  intros Hf. unfold Bootstrap.add_host_key.
  set (keytype := Py.slice_to _ _).
  assert (Hshort : String.length f <= 13 → keytype = "").
  { intros Hlen. unfold keytype. simpl String.length.
    by replace (String.length f - 4 - 9) with 0 by lia. }
  assert (Hlong : 13 < String.length f → keytype ≠ "").
  { intros Hlen. unfold keytype. apply slice_to_nonempty; [simpl; lia|].
    rewrite slice_from_length_eq. simpl. lia. }
  assert (Hgrow : ∀ a, Bootstrap.trace s ≠ Bootstrap.trace s ++ [a]).
  { intros a Heq. apply (f_equal length) in Heq. rewrite length_app in Heq.
    simpl in Heq. lia. }
  split.
  - intros Hlen. by rewrite (Hshort Hlen).
  - intros Heq. destruct (decide (String.length f <= 13)) as [|Hlen]; [done|].
    exfalso. apply Nat.nle_gt, Hlong, String.eqb_neq in Hlen.
    rewrite Hlen in Heq.
    destruct (match key_class _ with Some k => Some k | None => _ end) as [keyclass|].
    2:{ apply (f_equal (λ p, Bootstrap.trace p.2)) in Heq. by apply Hgrow in Heq. }
    destruct (load_key keyclass _) as [k|e].
    + destruct (bool_decide _); [|done].
      apply (f_equal (λ p, Bootstrap.trace p.2)) in Heq. by apply Hgrow in Heq.
    + destruct e; try done.
      * apply (f_equal (λ p, Bootstrap.trace p.2)) in Heq. by apply Hgrow in Heq.
      * apply (f_equal (λ p, Bootstrap.trace p.2)) in Heq. simpl in Heq.
        by apply app_inv_head in Heq.
Qed.

End HostKeyFiles.

Lemma add_host_key_key_class_witness :
  Bootstrap.is_host_key_file "ssh_host_ed25519_key" = true
  ∧ Bootstrap.add_host_key unix_join Bootstrap.upper_ascii paramiko_classes
      (λ _ _, Ok 1) "/etc/ssh" "ssh_host_ed25519_key" Bootstrap.start
    = (Ok true,
       Bootstrap.State false ([] ++ [(1, "/etc/ssh/ssh_host_ed25519_key")])
         ([] ++ [Bootstrap.AddServerKey 1])).
Proof.
  apply (add_host_key_key_class unix_join Bootstrap.upper_ascii paramiko_classes
           (λ _ _, Ok 1) "/etc/ssh" "ed25519" "Ed25519Key" 1 Bootstrap.start
           ltac:(discriminate) (or_intror (conj eq_refl eq_refl)) eq_refl
           ltac:(by intros []%elem_of_nil)).
Defined.

Lemma add_host_key_unknown_format_witness :
  Bootstrap.is_host_key_file "ssh_host_key" = true
  ∧ (String.length "ssh_host_key" <= 13
     ↔ Bootstrap.add_host_key unix_join Bootstrap.upper_ascii paramiko_classes
         (λ _ _, Ok 1) "/etc/ssh" "ssh_host_key" Bootstrap.start
       = (Ok false,
          Bootstrap.extend Bootstrap.start
            [Bootstrap.Log (Bootstrap.UnknownHostKeyFormat "ssh_host_key")])).
Proof.
  split; [reflexivity|].
  apply (add_host_key_unknown_format unix_join Bootstrap.upper_ascii paramiko_classes
           (λ _ _, Ok 1) "/etc/ssh" "ssh_host_key" Bootstrap.start eq_refl).
Defined.

(** ** What [check_auth_publickey] answers *)

Section PublicKeyAnswers.

Variable pubkey_auth : bool.
Variable POSIX : bool.
Variable getuid : Z.
Variable getuser : string.
Variable authorized_keys : option bytes.
Variable AUTHORIZED_KEYS_HASHES : list string.
Variable hashlib : string → option (bytes → outcome string).
Variable b64decode : bytes → outcome bytes.

Local Abbreviation check_auth_publickey :=
  (check_auth_publickey pubkey_auth POSIX getuid getuser authorized_keys
     AUTHORIZED_KEYS_HASHES hashlib b64decode).

(** X20. [check_auth_publickey] answers [AUTH_FAILED] or raises
    [TypeError], and nothing else.  It raises exactly when the policy
    allows public keys, the user name passes and the authorized keys file
    is not empty.  It leaves the state as it was, but for one warning about
    the user name, logged exactly when it fails for that reason: no other
    warning is logged and nothing is recorded as warned. *)
Theorem check_auth_publickey_fails_or_raises username fingerprint st :
  let user_mismatch :=
    (negb POSIX || negb (getuid =? 0)%Z) && negb (String.eqb getuser username) in
  ∃ r st',
    check_auth_publickey username fingerprint st = (r, st')
    ∧ (r = Ok paramiko.AUTH_FAILED ∨ r = Raise TypeError)
    ∧ (r = Raise TypeError
       ↔ pubkey_auth = true ∧ user_mismatch = false
         ∧ ∃ content, authorized_keys = Some content ∧ content ≠ "")
    ∧ (st' = log_warn (UsernameMismatch getuser username) st
       ↔ pubkey_auth = true ∧ user_mismatch = true)
    ∧ st' = (if pubkey_auth && user_mismatch
             then log_warn (UsernameMismatch getuser username) st
             else st).
Proof.
  intros user_mismatch.
  assert (Hst : st ≠ log_warn (UsernameMismatch getuser username) st).
  { intros Heq. apply (f_equal (λ st, length (warnings st))) in Heq.
    simpl in Heq. rewrite length_app in Heq. simpl in Heq. lia. }
  unfold_publickey. fold user_mismatch.
  destruct pubkey_auth; cbn [negb].
  2:{ eexists _, _. split; [reflexivity|]. split; [by left|].
      split; [|split; [|reflexivity]]; split; try done; by intros [[=] _]. }
  destruct user_mismatch.
  { eexists _, _. split; [reflexivity|]. split; [by left|].
    split; [|split; [done|reflexivity]]. split; [done|]. by intros (_ & [=] & _). }
  destruct authorized_keys as [content|].
  2:{ eexists _, _. split; [reflexivity|]. split; [by left|].
      split; [|split; [|reflexivity]]; split; try done.
      - by intros (_ & _ & content & [=] & _).
      - by intros [_ [=]]. }
  destruct (decide (content = "")) as [->|Hne].
  - eexists _, _. split; [reflexivity|]. split; [by left|].
    split; [|split; [|reflexivity]]; split; try done.
    + by intros (_ & _ & content & [= <-] & Hne).
    + by intros [_ [=]].
  - destruct (open_rb_nonempty content Hne) as (b & lines & Hopen).
    cbv zeta. rewrite Hopen.
    eexists _, _. split; [reflexivity|]. split; [by right|].
    split; [|split; [|reflexivity]]; split; try done.
    + intros _. split; [done|]. split; [done|]. by exists content.
    + by intros [_ [=]].
Qed.

End PublicKeyAnswers.

(** * Properties of the cookies of the browser *)

Lemma prefix_split x s :
  String.prefix x s = true → s = x +:+ Py.slice_from (String.length x) s.
Proof.
  revert s; induction x as [|c x IH]; intros [|c' s]; simpl; try done.
  destruct (Ascii.ascii_dec c c') as [->|]; [|done].
  intros H. rewrite append_cons. f_equal. by apply IH.
Qed.

Lemma index_split x s i :
  String.index 0 x s = Some i →
  s = Py.slice_to i s +:+ x +:+ Py.slice_from (i + String.length x) s.
Proof.
  revert i; induction s as [|c s IH]; intros i.
  - simpl. destruct x; [|done]. by intros [= <-].
  - cbn [String.index]. destruct (String.prefix x (String c s)) eqn:Hp.
    + intros [= <-]. by apply prefix_split.
    + destruct (String.index 0 x s) as [j|] eqn:Hj; [|done].
      intros [= <-]. simpl. rewrite append_cons. f_equal. by apply IH.
Qed.

Lemma index_found pre x post :
  x ≠ "" → is_Some (String.index 0 x (pre +:+ x +:+ post)).
Proof.
  intros Hx. induction pre as [|c pre IH].
  - change ("" +:+ x +:+ post) with (x +:+ post).
    destruct x as [|c x]; [done|]. rewrite append_cons.
    cbn [String.index]. rewrite <- append_cons, prefix_append. by eexists.
  - rewrite append_cons. cbn [String.index].
    destruct (String.prefix x _); [by eexists|].
    destruct IH as [i ->]. by eexists.
Qed.

(** [sub in s], for a [sub] that is not empty. *)
Lemma contains_spec s x :
  x ≠ "" →
  PyMore.contains s x = true ↔ ∃ pre post, s = pre +:+ x +:+ post.
Proof.
  intros Hx. unfold PyMore.contains. split.
  - destruct (String.index 0 x s) as [i|] eqn:Hi; [|done]. intros _.
    eexists _, _. by apply index_split.
  - intros (pre & post & ->). by destruct (index_found pre x post Hx) as [i ->].
Qed.

Lemma contains_append s t x :
  x ≠ "" → PyMore.contains s x = true → PyMore.contains (s +:+ t) x = true.
Proof.
  intros Hx. rewrite !contains_spec by done. intros (pre & post & ->).
  exists pre, (post +:+ t). by rewrite !append_assoc_s.
Qed.

Lemma name_eq_nonempty n : n +:+ "=" ≠ "".
Proof. by destruct n. Qed.

Lemma entries_app cs1 cs2 :
  BrowserCookie.entries (cs1 ++ cs2)
  = BrowserCookie.entries cs1 +:+ BrowserCookie.entries cs2.
Proof.
  induction cs1 as [|c cs1 IH]; [done|]. simpl. by rewrite IH, append_assoc_s.
Qed.

(** The name of an entry is found in the header. *)
Lemma contains_entries c kept :
  c ∈ kept →
  PyMore.contains (BrowserCookie.entries kept) (BrowserCookie.name c +:+ "=") = true.
Proof.
  intros (k1 & k2 & ->)%list_elem_of_split.
  apply contains_spec; [apply name_eq_nonempty|].
  exists (BrowserCookie.entries k1),
    (BrowserCookie.value c +:+ "; " +:+ BrowserCookie.entries k2).
  rewrite entries_app. simpl. unfold BrowserCookie.entry.
  by rewrite !append_assoc_s.
Qed.

Lemma contains_name_in n kept :
  n ∈ BrowserCookie.name <$> kept →
  PyMore.contains (BrowserCookie.entries kept) (n +:+ "=") = true.
Proof. intros (c & -> & Hc)%list_elem_of_fmap. by apply contains_entries. Qed.

(** The loop over a jar: the entries added are cookies of the jar whose
    names are new, and afterwards the name of every cookie of the jar is
    found. *)
Lemma add_cookies_entries cj kept0 :
  NoDup (BrowserCookie.name <$> kept0) →
  ∃ kept1,
    BrowserCookie.add_cookies cj (BrowserCookie.entries kept0)
    = BrowserCookie.entries (kept0 ++ kept1)
    ∧ NoDup (BrowserCookie.name <$> kept0 ++ kept1)
    ∧ (∀ c, c ∈ kept1 → c ∈ cj)
    ∧ (∀ c, c ∈ cj →
         PyMore.contains (BrowserCookie.entries (kept0 ++ kept1))
           (BrowserCookie.name c +:+ "=") = true).
Proof.
  revert kept0. induction cj as [|c cj IH]; intros kept0 Hnd.
  { exists []. rewrite app_nil_r. repeat split; [done|by intros c []%elem_of_nil..]. }
  cbn [BrowserCookie.add_cookies]. cbv zeta.
  destruct (PyMore.contains (BrowserCookie.entries kept0) (BrowserCookie.name c +:+ "="))
    eqn:Hin; cbn [negb].
  - destruct (IH kept0 Hnd) as (kept1 & -> & Hnd1 & Hsub & Hall).
    exists kept1. split; [done|]. split; [done|]. split.
    + intros c' Hc'. apply elem_of_cons. right. by apply Hsub.
    + intros c' [->|Hc']%elem_of_cons; [|by apply Hall].
      rewrite entries_app. apply contains_append; [apply name_eq_nonempty|done].
  - assert (Hnew : BrowserCookie.name c ∉ BrowserCookie.name <$> kept0).
    { intros Hn. apply contains_name_in in Hn. congruence. }
    assert (Hnd' : NoDup (BrowserCookie.name <$> kept0 ++ [c])).
    { rewrite fmap_app. apply NoDup_app. split; [done|]. split.
      - intros n Hn [->|[]%elem_of_nil]%elem_of_cons. done.
      - apply NoDup_singleton. }
    replace (BrowserCookie.entries kept0
             +:+ BrowserCookie.name c +:+ "=" +:+ BrowserCookie.value c +:+ "; ")
      with (BrowserCookie.entries (kept0 ++ [c])).
    2:{ rewrite entries_app. simpl. unfold BrowserCookie.entry.
        by rewrite append_empty_r. }
    destruct (IH (kept0 ++ [c]) Hnd') as (kept1 & -> & Hnd1 & Hsub & Hall).
    exists (c :: kept1). rewrite <- app_assoc in *. cbn [app] in *.
    split; [done|]. split; [done|]. split.
    + intros c' [->|Hc']%elem_of_cons; apply elem_of_cons; [by left|right; by apply Hsub].
    + intros c' [->|Hc']%elem_of_cons; [|by apply Hall].
      apply contains_entries. apply elem_of_app. right. apply elem_of_cons. by left.
Qed.

(** What follows the first dot. *)
Lemma split1_next d next :
  index (Py.split1 d ".") 1 = Ok next →
  String.length next < String.length d ∧ ∃ pre, d = pre +:+ "." +:+ next.
Proof.
  unfold Py.split1. destruct (String.index 0 "." d) as [i|] eqn:Hi; [|done].
  unfold index. simpl. intros [= <-].
  pose proof (index_split _ _ _ Hi) as Hd. split; [|by eexists].
  rewrite Hd at 2. rewrite !length_append. simpl. lia.
Qed.

Section GetHeaders.

Variable load : list string → string → outcome (list BrowserCookie.cookie).
Variable strtobytes : string → bytes.

Local Abbreviation get_headers_loop := (BrowserCookie.get_headers_loop load).
Local Abbreviation get_headers := (BrowserCookie.get_headers load strtobytes).

(** One round of the loop. *)
Lemma get_headers_loop_unfold loaded d s :
  get_headers_loop loaded d s
  = match PyMore.count d "." 2 with
    | 0 => (Ok s, loaded)
    | S _ =>
        match load loaded d with
        | Raise e => (Raise e, loaded ++ [d])
        | Ok cj =>
            match index (Py.split1 d ".") 1 with
            | Raise e => (Raise e, loaded ++ [d])
            | Ok next =>
                get_headers_loop (loaded ++ [d]) next (BrowserCookie.add_cookies cj s)
            end
        end
    end.
Proof.
  funelim (get_headers_loop loaded d s).
  - by rewrite Heq.
  - by rewrite Heq0, Heq.
  - by rewrite Heq0, Heq, Hnext.
  - by rewrite Heq0, Heq, e1.
Qed.

Lemma parent_of_next d next x :
  (∃ pre, d = pre +:+ "." +:+ next) →
  BrowserCookie.parent_of next x → BrowserCookie.parent_of d x.
Proof.
  intros [pre ->] [|pre' x' ->].
  - by apply (BrowserCookie.parent_dot _ pre).
  - apply (BrowserCookie.parent_dot _ (pre +:+ "." +:+ pre')).
    by rewrite !append_assoc_s.
Qed.

(** The domains the loop asks for. *)
Lemma get_headers_loop_domains d loaded s :
  ∃ r more,
    get_headers_loop loaded d s = (r, loaded ++ more)
    ∧ (∀ x, x ∈ more → BrowserCookie.parent_of d x ∧ 0 < PyMore.count x "." 2)
    ∧ length more <= String.length d.
Proof.
  remember (String.length d) as k eqn:Hk. revert d loaded s Hk.
  induction k as [k IH] using lt_wf_ind. intros d loaded s ->.
  rewrite get_headers_loop_unfold.
  destruct (PyMore.count d "." 2) as [|n] eqn:Hcount.
  { exists (Ok s), []. rewrite app_nil_r. split; [done|].
    split; [by intros x []%elem_of_nil|simpl; lia]. }
  assert (Hd : 0 < String.length d) by (destruct d; [done|simpl; lia]).
  assert (Hone : ∀ (r : outcome string),
    ∃ r' more,
      (r, loaded ++ [d]) = (r', loaded ++ more)
      ∧ (∀ x, x ∈ more → BrowserCookie.parent_of d x ∧ 0 < PyMore.count x "." 2)
      ∧ length more <= String.length d).
  { intros r. exists r, [d]. split; [done|]. split; [|simpl; lia].
    intros x [->|[]%elem_of_nil]%elem_of_cons. split; [constructor|lia]. }
  destruct (load loaded d) as [cj|e]; [|apply Hone].
  destruct (index (Py.split1 d ".") 1) as [next|e] eqn:Hnext; [|apply Hone].
  destruct (split1_next _ _ Hnext) as [Hlen Hpre].
  destruct (IH _ Hlen next (loaded ++ [d]) (BrowserCookie.add_cookies cj s) eq_refl)
    as (r & more & -> & Hmore & Hbound).
  exists r, (d :: more). rewrite <- app_assoc. split; [done|]. split; [|simpl; lia].
  intros x [->|Hx]%elem_of_cons; [split; [constructor|lia]|].
  destruct (Hmore x Hx) as [Hp Hc]. split; [|done]. by apply (parent_of_next d next).
Qed.

(** The cookies the loop keeps. *)
Lemma get_headers_loop_cookies d loaded kept0 :
  NoDup (BrowserCookie.name <$> kept0) →
  ∃ r more,
    get_headers_loop loaded d (BrowserCookie.entries kept0) = (r, loaded ++ more)
    ∧ ∀ s', r = Ok s' →
        ∃ kept1,
          s' = BrowserCookie.entries (kept0 ++ kept1)
          ∧ NoDup (BrowserCookie.name <$> kept0 ++ kept1)
          ∧ (∀ c, c ∈ kept1 →
               ∃ i x cj, more !! i = Some x
                         ∧ load (loaded ++ take i more) x = Ok cj ∧ c ∈ cj)
          ∧ (∀ i x cj c, more !! i = Some x →
               load (loaded ++ take i more) x = Ok cj → c ∈ cj →
               PyMore.contains s' (BrowserCookie.name c +:+ "=") = true).
Proof.
  remember (String.length d) as k eqn:Hk. revert d loaded kept0 Hk.
  induction k as [k IH] using lt_wf_ind. intros d loaded kept0 -> Hnd.
  rewrite get_headers_loop_unfold.
  destruct (PyMore.count d "." 2) as [|n] eqn:Hcount.
  { exists (Ok (BrowserCookie.entries kept0)), []. rewrite app_nil_r. split; [done|].
    intros s' [= <-]. exists []. rewrite app_nil_r.
    split; [done|]. split; [done|]. split; [by intros c []%elem_of_nil|].
    intros i x cj c Hi. by rewrite lookup_nil in Hi. }
  destruct (load loaded d) as [cj|e] eqn:Hload.
  2:{ exists (Raise e), [d]. split; [done|]. by intros s' [=]. }
  destruct (index (Py.split1 d ".") 1) as [next|e] eqn:Hnext.
  2:{ exists (Raise e), [d]. split; [done|]. by intros s' [=]. }
  destruct (split1_next _ _ Hnext) as [Hlen _].
  destruct (add_cookies_entries cj kept0 Hnd) as (kept1 & -> & Hnd1 & Hsub1 & Hall1).
  destruct (IH _ Hlen next (loaded ++ [d]) (kept0 ++ kept1) eq_refl Hnd1)
    as (r & more & -> & Hrest).
  exists r, (d :: more). rewrite <- app_assoc. split; [done|].
  intros s' Hr. destruct (Hrest s' Hr) as (kept2 & -> & Hnd2 & Hsub2 & Hall2).
  exists (kept1 ++ kept2). rewrite app_assoc. split; [done|]. split; [done|]. split.
  - intros c [Hc|Hc]%elem_of_app.
    + exists 0, d, cj. simpl. rewrite app_nil_r. split; [done|]. split; [done|].
      by apply Hsub1.
    + destruct (Hsub2 c Hc) as (i & x & cj' & Hi & Hl & Hin).
      exists (S i), x, cj'. simpl. split; [done|]. split; [|done].
      by rewrite <- app_assoc in Hl.
  - intros [|i] x cj' c Hi Hl Hin; simpl in Hi, Hl.
    + injection Hi as <-. rewrite app_nil_r, Hload in Hl. injection Hl as <-.
      rewrite entries_app. apply contains_append; [apply name_eq_nonempty|].
      by apply Hall1.
    + apply (Hall2 i x cj' c Hi); [|done]. by rewrite <- app_assoc.
Qed.

(** X21. [get_headers] asks the cookie store for the host and for parent
    domains of the host only, and only for names with a dot after their
    second character, so never for a bare top-level name; it asks at most
    as many times as the host has characters.  For a host without such a
    dot it asks nothing and returns an empty [Cookie] header. *)
Theorem get_headers_asks_parents host port :
  ∃ r loaded,
    get_headers host port = (r, loaded)
    ∧ (∀ d, d ∈ loaded → BrowserCookie.parent_of host d ∧ 0 < PyMore.count d "." 2)
    ∧ length loaded <= String.length host
    ∧ (PyMore.count host "." 2 = 0 →
       r = Ok {[ "Cookie" := strtobytes "" ]} ∧ loaded = []).
Proof.
  unfold BrowserCookie.get_headers.
  destruct (get_headers_loop_domains host [] "") as (r & more & Heq & Hmore & Hlen).
  rewrite Heq. cbn [app].
  exists (match r with
          | Ok cookie_string => Ok {[ "Cookie" := strtobytes cookie_string ]}
          | Raise e => Raise e
          end), more.
  split; [by destruct r|]. split; [done|]. split; [done|].
  intros Hcount. rewrite get_headers_loop_unfold, Hcount in Heq.
  by injection Heq as <- <-.
Qed.

(** X22. The [Cookie] header that [get_headers] returns is made of
    entries [name=value; ] of cookies that the store gave, with no name
    twice; and the name of every cookie that the store gave, followed by
    [=], is found in it. *)
Theorem get_headers_cookie_string host port :
  ∃ r loaded,
    get_headers host port = (r, loaded)
    ∧ ∀ headers, r = Ok headers →
        ∃ kept,
          headers = {[ "Cookie" := strtobytes (BrowserCookie.entries kept) ]}
          ∧ NoDup (BrowserCookie.name <$> kept)
          ∧ (∀ c, c ∈ kept →
               ∃ i d cj, loaded !! i = Some d
                         ∧ load (take i loaded) d = Ok cj ∧ c ∈ cj)
          ∧ (∀ i d cj c, loaded !! i = Some d →
               load (take i loaded) d = Ok cj → c ∈ cj →
               PyMore.contains (BrowserCookie.entries kept)
                 (BrowserCookie.name c +:+ "=") = true).
Proof.
  unfold BrowserCookie.get_headers.
  destruct (get_headers_loop_cookies host [] [] (NoDup_nil_2 (A:=string)))
    as (r & more & Heq & Hkept).
  change (BrowserCookie.entries []) with "" in Heq. rewrite Heq. cbn [app].
  destruct r as [cookie_string|e].
  - eexists _, more. split; [reflexivity|]. intros headers [= <-].
    destruct (Hkept cookie_string eq_refl) as (kept & -> & Hnd & Hsub & Hall).
    by exists kept.
  - eexists _, more. split; [reflexivity|]. by intros headers [=].
Qed.

End GetHeaders.

(** * Properties of the modifier keys *)

Section ModifierMappings.

Variable bytestostr : Keyboard.pyval → string.

Local Abbreviation add_keyname := (Keyboard.add_keyname bytestostr).
Local Abbreviation _do_add_modifier_mapping := (Keyboard._do_add_modifier_mapping bytestostr).
Local Abbreviation _add_modifier_mapping := (Keyboard._add_modifier_mapping bytestostr).
Local Abbreviation add_keys := (Keyboard.add_keys bytestostr).
Local Abbreviation add_mappings := (Keyboard.add_mappings bytestostr).
Local Abbreviation set_modifier_mappings := (Keyboard.set_modifier_mappings bytestostr).

(** *** What every definition keeps *)

Section Kept.

Variable P : Keyboard.keyboard → Prop.
Hypothesis P_add_keyname :
  ∀ keyname keycode modifier kb, P kb → P (add_keyname keyname keycode modifier kb).
Hypothesis P_warn : ∀ a b kb, P kb → P (Keyboard.warn a b kb).

Lemma kept_do_add_modifier_mapping keynames keycode modifier kb :
  P kb → P (_do_add_modifier_mapping keynames keycode modifier kb).
Proof.
  revert kb; induction keynames as [|keyname keynames IH]; intros kb HP; simpl; [done|].
  by apply IH, P_add_keyname.
Qed.

Lemma kept_add_modifier_mapping a b modifier kb :
  P kb → P (_add_modifier_mapping a b modifier kb).
Proof.
  funelim (_add_modifier_mapping a b modifier kb); intros HP;
    try (by apply P_warn); try (by apply kept_do_add_modifier_mapping); eauto.
Qed.

Lemma kept_add_keys keys modifier kb r kb' :
  P kb → add_keys keys modifier kb = (r, kb') → P kb'.
Proof.
  revert kb; induction keys as [|key keys IH]; intros kb HP; simpl.
  { by intros [= <- <-]. }
  destruct (Keyboard.unpack key) as [[a b]|e]; [|by intros [= <- <-]].
  unfold bind at 1. apply IH. by apply kept_add_modifier_mapping.
Qed.

Lemma kept_add_mappings mappings kb r kb' :
  P kb → add_mappings mappings kb = (r, kb') → P kb'.
Proof.
  revert kb; induction mappings as [|[modifier keys] mappings IH]; intros kb HP; simpl.
  { by intros [= <- <-]. }
  unfold bind at 1.
  destruct (add_keys keys modifier kb) as [[[]|e] kb1] eqn:Hkeys.
  - apply IH. by apply (kept_add_keys _ _ _ _ _ HP Hkeys).
  - intros [= <- <-]. by apply (kept_add_keys _ _ _ _ _ HP Hkeys).
Qed.

Lemma kept_set_modifier_mappings mappings kb r kb' :
  P (Keyboard.KeyboardBase mappings ∅ ∅ ∅ (Keyboard.warned kb)) →
  set_modifier_mappings mappings kb = (r, kb') → P kb'.
Proof. intros HP. unfold Keyboard.set_modifier_mappings, bind. by apply kept_add_mappings. Qed.

End Kept.

Lemma keycodes_ok_add_keyname keyname keycode modifier kb :
  Keyboard.keycodes_ok kb → Keyboard.keycodes_ok (add_keyname keyname keycode modifier kb).
Proof.
  intros Hok k ks. unfold Keyboard.add_keyname. simpl.
  destruct (Z.eqb_spec keycode 0) as [->|Hnz]; simpl; [apply Hok|].
  destruct (decide (k = bytestostr keyname)) as [->|Hk].
  2:{ rewrite lookup_insert_ne by done. apply Hok. }
  rewrite lookup_insert_eq. intros [= <-].
  destruct (Keyboard.modifier_keycodes kb !! bytestostr keyname) as [ks|] eqn:Hks; simpl.
  - destruct (Hok _ _ Hks) as (Hnd & Hz & Hne).
    case_bool_decide as Hin; [|done].
    split; [|split].
    + apply NoDup_app. split; [done|]. split; [|apply NoDup_singleton].
      intros x Hx [->|[]%elem_of_nil]%elem_of_cons. done.
    + intros [?|[?|[]%elem_of_nil]%elem_of_cons]%elem_of_app; [done|congruence].
    + by destruct ks.
  - split; [apply NoDup_singleton|]. split; [|done].
    intros [?|[]%elem_of_nil]%elem_of_cons. congruence.
Qed.

Lemma names_ok_add_keyname keyname keycode modifier kb :
  Keyboard.names_ok kb → Keyboard.names_ok (add_keyname keyname keycode modifier kb).
Proof.
  intros (Hcodes & Hnames & Hkeys). unfold Keyboard.add_keyname, Keyboard.names_ok. simpl.
  split; [|split].
  - intros k. destruct (decide (k = bytestostr keyname)) as [->|Hk].
    { intros _. rewrite lookup_insert_eq. by eexists. }
    rewrite lookup_insert_ne by done.
    destruct (negb _); [rewrite lookup_insert_ne by done|]; apply Hcodes.
  - intros m k. destruct (decide (m = bytestostr modifier)) as [->|Hm].
    + rewrite lookup_insert_eq. intros [= <-]. rewrite lookup_insert_eq. by eexists.
    + rewrite lookup_insert_ne by done. intros Hmk.
      destruct (decide (k = bytestostr keyname)) as [->|Hk].
      * rewrite lookup_insert_eq. by eexists.
      * rewrite lookup_insert_ne by done. by apply (Hnames m).
  - intros k m. destruct (decide (k = bytestostr keyname)) as [->|Hk].
    + rewrite lookup_insert_eq. intros [= <-]. rewrite lookup_insert_eq. by eexists.
    + rewrite lookup_insert_ne by done. intros Hkm.
      destruct (decide (m = bytestostr modifier)) as [->|Hm].
      * rewrite lookup_insert_eq. by eexists.
      * rewrite lookup_insert_ne by done. by apply (Hkeys k).
Qed.

(** X23. After [set_modifier_mappings], also when a definition that
    cannot be unpacked ends it with an exception, every list of key codes
    recorded for a key has a code at least, no code twice and no code 0;
    the mappings given are recorded as they are. *)
Theorem set_modifier_mappings_keycodes mappings kb :
  ∃ r kb',
    set_modifier_mappings mappings kb = (r, kb')
    ∧ Keyboard.modifier_mappings kb' = mappings
    ∧ ∀ keyname keycodes,
        Keyboard.modifier_keycodes kb' !! keyname = Some keycodes →
        NoDup keycodes ∧ (0%Z ∉ keycodes) ∧ keycodes ≠ [].
Proof.
  destruct (set_modifier_mappings mappings kb) as [r kb'] eqn:Heq.
  exists r, kb'. split; [done|]. split.
  - apply (kept_set_modifier_mappings (λ kb, Keyboard.modifier_mappings kb = mappings)
             ltac:(done) ltac:(done) _ _ _ _ eq_refl Heq).
  - assert (Hreset : Keyboard.keycodes_ok
              (Keyboard.KeyboardBase mappings ∅ ∅ ∅ (Keyboard.warned kb))).
    { intros keyname keycodes Hx. simpl in Hx. by rewrite lookup_empty in Hx. }
    apply (kept_set_modifier_mappings Keyboard.keycodes_ok
             keycodes_ok_add_keyname (λ _ _ _ H, H) _ _ _ _ Hreset Heq).
Qed.

(** X24. After [set_modifier_mappings], however it ends, the three
    dictionaries agree: a key with key codes is a key of a modifier, the
    key named for a modifier is a key of a modifier, and the modifier of a
    key has a key named for it. *)
Theorem set_modifier_mappings_names mappings kb :
  ∃ r kb',
    set_modifier_mappings mappings kb = (r, kb')
    ∧ (∀ keyname, is_Some (Keyboard.modifier_keycodes kb' !! keyname) →
         is_Some (Keyboard.modifier_keys kb' !! keyname))
    ∧ (∀ modifier keyname,
         Keyboard.modifier_names kb' !! modifier = Some keyname →
         is_Some (Keyboard.modifier_keys kb' !! keyname))
    ∧ (∀ keyname modifier,
         Keyboard.modifier_keys kb' !! keyname = Some modifier →
         is_Some (Keyboard.modifier_names kb' !! modifier)).
Proof.
  destruct (set_modifier_mappings mappings kb) as [r kb'] eqn:Heq.
  exists r, kb'. split; [done|].
  assert (Hreset : Keyboard.names_ok
            (Keyboard.KeyboardBase mappings ∅ ∅ ∅ (Keyboard.warned kb))).
  { split; [|split]; simpl.
    - intros keyname [x Hx]. by rewrite lookup_empty in Hx.
    - intros modifier keyname Hx. by rewrite lookup_empty in Hx.
    - intros keyname modifier Hx. by rewrite lookup_empty in Hx. }
  apply (kept_set_modifier_mappings Keyboard.names_ok
           names_ok_add_keyname (λ _ _ _ H, H) _ _ _ _ Hreset Heq).
Qed.

End ModifierMappings.
